(** * task_manager: the process-table engine of [task_manager_app.py]

    A shallow embedding of the parts of [TaskManagerApp] that sample the
    operating system's processes, reconcile them into the cached table
    [process_data], render the table into the [ttk.Treeview] and act on a
    selected process.

    Modelling conventions.
    - A Python [dict] whose iteration order is observable ([process_data]) is
      an association list in insertion order; a [dict] that is only looked up
      ([tree_items]) is a [gmap].
    - Methods of the class are computations in a state-and-exception monad
      over the record [App] of the attributes they read and write.
    - Everything the program does to the outside world (the [logging] module,
      the diagnostics database, [psutil] handles, [master.after]) is appended
      to a chronological [trace] kept in the state.
    - What the operating system answers is given by a record [OS]: each
      [psutil], [platform], [os] or [subprocess] call either returns or
      raises what the record says.
    - [log_error_to_db] is the method of the source: it needs the cursor and
      the connection that [_create_database] sets, and it catches
      [sqlite3.Error] only.  The two [sqlite3] objects are kept in the state
      as what their methods answer.
    - The collaborators the engine only writes to ([logging],
      [master.after]) always return, and the translation keys the engine
      asks for are taken to be present, so that [self.translate] returns; a
      worker thread is run to completion where it is started.
    - Floating-point values ([cpu_percent], [memory_mb]) are carried as
      rationals; their one-decimal display formatting is not modelled.
    - Strings are byte strings and [str.lower] is the ASCII lower-casing. *)

From Stdlib Require Import ZArith QArith List String Ascii Bool Lia.
From stdpp Require Import base option list gmap strings.
Import ListNotations.

Local Open Scope Z_scope.
Local Open Scope string_scope.
Local Open Scope list_scope.

(** ** Exceptions *)

(** The exception classes the program distinguishes.  In [psutil],
    [ZombieProcess] is a subclass of [NoSuchProcess]. *)
Inductive Exn : Type :=
  | IndexError
  | NoSuchProcess
  | ZombieProcess
  | AccessDenied
  | FileNotFoundError
  | AttributeError
  | KeyError
  | UnboundLocalError
  | TclError
  | OtherError (what : string).

(** [except psutil.NoSuchProcess] *)
Definition is_NoSuchProcess (e : Exn) : bool :=
  match e with NoSuchProcess | ZombieProcess => true | _ => false end.

(** [except (psutil.NoSuchProcess, psutil.AccessDenied, psutil.ZombieProcess)] *)
Definition is_process_error (e : Exn) : bool :=
  match e with NoSuchProcess | AccessDenied | ZombieProcess => true | _ => false end.

(** [hay.startswith(needle)] *)
Fixpoint startswith (needle hay : string) : bool :=
  match needle, hay with
  | EmptyString, _ => true
  | String _ _, EmptyString => false
  | String a n', String b h' => Ascii.eqb a b && startswith n' h'
  end.

(** [except sqlite3.Error]: the class and its subclasses. *)
Definition is_sqlite_error (e : Exn) : bool :=
  match e with OtherError what => startswith "sqlite3." what | _ => false end.

(** ** Data model *)

(** A [psutil.Process] object: the handle control actions are sent to. *)
Record Handle : Type := Process { handle_pid : Z }.

(** One entry of the list built by [_update_processes_thread], the result of
    [process.as_dict([...])].  [memory_info] is [None] when the attribute
    could not be read. *)
Record RawProcessInfo : Type := {
  raw_pid : Z;
  raw_name : string;
  raw_status : string;
  raw_cpu_percent : Q;
  raw_memory_info : option Z;
  raw_ppid : Z
}.

(** One value of the dictionary [process_data]. *)
Record ProcessInfo : Type := {
  name : string;
  status : string;
  cpu_percent : Q;
  memory_mb : Q;
  ppid : Z;
  process_obj : Handle
}.

(** [self.process_data]: pid-keyed, in insertion order. *)
Abbreviation ProcessTable := (list (Z * ProcessInfo)).

Definition keys (d : ProcessTable) : list Z := map fst d.

(** [k in d] *)
Definition dict_mem (k : Z) (d : ProcessTable) : bool :=
  existsb (Z.eqb k) (keys d).

(** [d[k]] *)
Fixpoint dict_get (k : Z) (d : ProcessTable) : option ProcessInfo :=
  match d with
  | [] => None
  | (k', v) :: r => if Z.eqb k k' then Some v else dict_get k r
  end.

(** [d[k] = v]: an existing key keeps its position, a new key goes last. *)
Fixpoint dict_set (k : Z) (v : ProcessInfo) (d : ProcessTable) : ProcessTable :=
  match d with
  | [] => [(k, v)]
  | (k', v') :: r => if Z.eqb k k' then (k, v) :: r else (k', v') :: dict_set k v r
  end.

(** ** The [ttk.Treeview] widget *)

Definition ItemId : Type := nat.

(** The [values] tuple of a row. *)
Record Values : Type := {
  v_pid : Z;
  v_name : string;
  v_status : string;
  v_cpu : Q;
  v_memory : Q;
  v_ppid : Z
}.

(** An item with its child items, in display order. *)
#[warnings="-register-all"]
Inductive Item : Type :=
  | Node (iid : ItemId) (values : Values) (children : list Item).

Definition item_id (it : Item) : ItemId := match it with Node i _ _ => i end.
Definition item_values (it : Item) : Values := match it with Node _ v _ => v end.
Definition item_children (it : Item) : list Item := match it with Node _ _ c => c end.

Record Treeview : Type := {
  tv_items : list Item;        (* children of the root item "" *)
  tv_next : ItemId;            (* counter behind the generated item ids *)
  tv_selection : list ItemId   (* [tree.selection()] *)
}.

Definition first_some {A B : Type} (f : A -> option B) : list A -> option B :=
  fix go (l : list A) : option B :=
    match l with
    | [] => None
    | x :: r => match f x with Some y => Some y | None => go r end
    end.

(** Rewrites the first element on which [f] succeeds. *)
Definition first_update {A : Type} (f : A -> option A) : list A -> option (list A) :=
  fix go (l : list A) : option (list A) :=
    match l with
    | [] => None
    | x :: r =>
        match f x with
        | Some x' => Some (x' :: r)
        | None => match go r with Some r' => Some (x :: r') | None => None end
        end
    end.

Fixpoint find_item (i : ItemId) (it : Item) : option Values :=
  match it with
  | Node j v kids => if Nat.eqb j i then Some v else first_some (find_item i) kids
  end.

(** Appends [new] as the last child of the item [p]. *)
Fixpoint insert_under (p : ItemId) (new : Item) (it : Item) : option Item :=
  match it with
  | Node j v kids =>
      if Nat.eqb j p then Some (Node j v (kids ++ [new]))
      else match first_update (insert_under p new) kids with
           | Some kids' => Some (Node j v kids')
           | None => None
           end
  end.

(** Keeps the elements that pass [keep], rewritten by [f]. *)
Definition keep_map {A B : Type} (keep : A -> bool) (f : A -> B) : list A -> list B :=
  fix go (l : list A) : list B :=
    match l with
    | [] => []
    | x :: r => if keep x then f x :: go r else go r
    end.

(** Removes the item [i] together with its descendants. *)
Fixpoint delete_item (i : ItemId) (it : Item) : Item :=
  match it with
  | Node j v kids =>
      Node j v (keep_map (fun k => negb (Nat.eqb (item_id k) i)) (delete_item i) kids)
  end.

Definition forest_delete (i : ItemId) (f : list Item) : list Item :=
  keep_map (fun k => negb (Nat.eqb (item_id k) i)) (delete_item i) f.

(** [tree.get_children()] *)
Definition tv_get_children (t : Treeview) : list ItemId := map item_id (tv_items t).

(** The ids of an item and of its descendants. *)
Fixpoint item_ids (it : Item) : list ItemId :=
  match it with
  | Node j _ kids => j :: flat_map item_ids kids
  end.

(** The ids that go when the item [i] is removed: its own and those of its
    descendants. *)
Fixpoint removed_ids (i : ItemId) (it : Item) : list ItemId :=
  match it with
  | Node j _ kids =>
      if Nat.eqb j i then item_ids it else flat_map (removed_ids i) kids
  end.

(** [tree.delete(item)], for an item of the tree: the item goes with its
    descendants, and none of them stays selected. *)
Definition tv_delete (i : ItemId) (t : Treeview) : Treeview :=
  let gone := flat_map (removed_ids i) (tv_items t) in
  {| tv_items := forest_delete i (tv_items t);
     tv_next := tv_next t;
     tv_selection :=
       List.filter (fun j => negb (existsb (Nat.eqb j) gone)) (tv_selection t) |}.

(** [tree.insert(parent, "end", values=values)]: [None] is the root [""].
    The result is the new item's id, or [None] when the parent does not
    exist (Tk then raises [TclError]). *)
Definition tv_insert (parent : option ItemId) (v : Values) (t : Treeview)
  : option (ItemId * Treeview) :=
  let new := Node (tv_next t) v [] in
  match parent with
  | None =>
      Some (tv_next t,
            {| tv_items := tv_items t ++ [new];
               tv_next := S (tv_next t);
               tv_selection := tv_selection t |})
  | Some p =>
      match first_update (insert_under p new) (tv_items t) with
      | Some f' =>
          Some (tv_next t,
                {| tv_items := f';
                   tv_next := S (tv_next t);
                   tv_selection := tv_selection t |})
      | None => None
      end
  end.

(** [tree.item(i, "values")] *)
Definition tv_item_values (i : ItemId) (t : Treeview) : option Values :=
  first_some (find_item i) (tv_items t).

(** A displayed row: the process, its indent level and the pid of the row it
    hangs under. *)
Record Row : Type := {
  row_pid : Z;
  row_name : string;
  row_depth : nat;
  row_parent : option Z
}.

Fixpoint item_rows (d : nat) (parent : option Z) (it : Item) : list Row :=
  match it with
  | Node _ v kids =>
      {| row_pid := v_pid v; row_name := v_name v; row_depth := d; row_parent := parent |}
      :: flat_map (item_rows (S d) (Some (v_pid v))) kids
  end.

(** The rows of the widget, top to bottom. *)
Definition tv_rows (t : Treeview) : list Row :=
  flat_map (item_rows 0 None) (tv_items t).

(** ** Strings *)

(** [str.lower] on one character. *)
Definition lower_char (c : ascii) : ascii :=
  let n := nat_of_ascii c in
  if (Nat.leb 65 n && Nat.leb n 90)%bool then ascii_of_nat (n + 32) else c.

(** [s.lower()] *)
Fixpoint lower (s : string) : string :=
  match s with
  | EmptyString => EmptyString
  | String c r => String (lower_char c) (lower r)
  end.

(** [needle in hay] on strings. *)
Fixpoint str_in (needle hay : string) : bool :=
  startswith needle hay ||
  match hay with
  | EmptyString => false
  | String _ h' => str_in needle h'
  end.

(** ** The outside world *)

Inductive Level : Type := DEBUG | INFO | WARNING | ERROR.

(** An argument substituted into a message. *)
Inductive Arg : Type :=
  | a_pid (pid : Z)
  | a_exn (e : Exn)
  | a_str (s : string).

(** A message: an f-string with the values it interpolates, or a
    [self.translate(key, **kwargs)] lookup. *)
Inductive Msg : Type :=
  | fmt (template : string) (args : list Arg)
  | translate (key : string) (kwargs : list Arg).

Inductive ProcOp : Type := op_kill | op_suspend | op_resume | op_exe.

(** The gauge readings of one [update_system_info] pass. *)
Record Gauge : Type := { g_percent : Q; g_used : Z; g_total : Z }.

(** What [master.after] is asked to run. *)
Inductive Callback : Type :=
  | cb_process_data_update (processes : list RawProcessInfo)
  | cb_update_processes
  | cb_refresh_processes
  | cb_update_system_info
  | cb_cpu_label (cpu : Q)
  | cb_memory_label (memory : Gauge)
  | cb_disk_label (disk : Gauge)
  | cb_removable_drive_label (status : string)
  | cb_check_removable_drive.

Inductive Event : Type :=
  | ev_logging (l : Level) (m : Msg)          (* logging.debug/info/warning/error *)
  | ev_log_error_to_db (l : Level) (m : Msg)  (* the INSERT of self.log_error_to_db *)
  | ev_process (op : ProcOp) (h : Handle)     (* a method called on a psutil.Process *)
  | ev_open_folder (dir : string)             (* os.startfile / xdg-open *)
  | ev_after (ms : Z) (cb : Callback).        (* self.master.after *)

(** What the operating system answers.  [None] stands for a call that
    returns normally. *)
Record OS : Type := {
  (* psutil.Process(pid), while the [i]-th raw entry is being reconciled *)
  os_Process : nat -> Z -> option Exn;
  (* process.kill(), process.suspend(), process.resume() *)
  os_signal : ProcOp -> Handle -> option Exn;
  (* process.exe() *)
  os_exe : Handle -> Exn + string;
  (* platform.system() *)
  os_platform : string;
  (* os.path.dirname *)
  os_dirname : string -> string;
  (* os.startfile(dir) or subprocess.run(["xdg-open", dir]) *)
  os_open : string -> option Exn;
  (* psutil.process_iter([...]): what process.as_dict([...]) gives for each process *)
  os_process_iter : list (Exn + RawProcessInfo);
  (* psutil.cpu_percent(interval=1), psutil.virtual_memory(), psutil.disk_usage('/') *)
  os_cpu_percent : Exn + Q;
  os_virtual_memory : Exn + Gauge;
  os_disk_usage : Exn + Gauge;
  (* psutil.disk_partitions(): mountpoint and opts of each partition *)
  os_disk_partitions : Exn + list (string * string)
}.

(** The [sqlite3] objects of the diagnostics database, as what their
    methods answer ([None] for a call that returns normally); the number is
    the count of events in the trace when the statement is sent. *)
Record Cursor : Type := {
  (* cursor.execute("INSERT INTO errors (level, message) VALUES (?, ?)", ...) *)
  cursor_execute : nat -> Level -> Msg -> option Exn
}.

Record Connection : Type := {
  (* conn.commit(), after the statement sent at that count *)
  conn_commit : nat -> option Exn
}.

(** ** Application state *)

Record App : Type := {
  process_data : ProcessTable;
  tree_items : gmap Z ItemId;
  children_visible : bool;
  search_entry : string;       (* self.search_entry.get() *)
  tree : Treeview;
  conn : option Connection;    (* self.conn, [None] until _create_database sets it *)
  cursor : option Cursor;      (* self.cursor, likewise *)
  trace : list Event
}.

Definition set_process_data (d : ProcessTable) (s : App) : App :=
  {| process_data := d; tree_items := tree_items s;
     children_visible := children_visible s; search_entry := search_entry s;
     tree := tree s; conn := conn s; cursor := cursor s;
     trace := trace s |}.

Definition set_tree_items (m : gmap Z ItemId) (s : App) : App :=
  {| process_data := process_data s; tree_items := m;
     children_visible := children_visible s; search_entry := search_entry s;
     tree := tree s; conn := conn s; cursor := cursor s;
     trace := trace s |}.

Definition set_children_visible (b : bool) (s : App) : App :=
  {| process_data := process_data s; tree_items := tree_items s;
     children_visible := b; search_entry := search_entry s;
     tree := tree s; conn := conn s; cursor := cursor s;
     trace := trace s |}.

Definition set_search_entry (t : string) (s : App) : App :=
  {| process_data := process_data s; tree_items := tree_items s;
     children_visible := children_visible s; search_entry := t;
     tree := tree s; conn := conn s; cursor := cursor s;
     trace := trace s |}.

Definition set_tree (t : Treeview) (s : App) : App :=
  {| process_data := process_data s; tree_items := tree_items s;
     children_visible := children_visible s; search_entry := search_entry s;
     tree := t; conn := conn s; cursor := cursor s;
     trace := trace s |}.

Definition set_trace (l : list Event) (s : App) : App :=
  {| process_data := process_data s; tree_items := tree_items s;
     children_visible := children_visible s; search_entry := search_entry s;
     tree := tree s; conn := conn s; cursor := cursor s;
     trace := l |}.

(** ** The monad of methods *)

Module Py.

(** A method either returns a value or raises, and leaves a new state. *)
Definition M (A : Type) : Type := App -> (Exn + A) * App.

Definition ret {A : Type} (x : A) : M A := fun s => (inr x, s).

Definition bind {A B : Type} (m : M A) (k : A -> M B) : M B :=
  fun s => match m s with
           | (inl e, s') => (inl e, s')
           | (inr x, s') => k x s'
           end.

Definition raise {A : Type} (e : Exn) : M A := fun s => (inl e, s).

Definition gets {A : Type} (f : App -> A) : M A := fun s => (inr (f s), s).

Definition modify (f : App -> App) : M unit := fun s => (inr tt, f s).

(** [try: body  except ...: handler].  [handler e] is [None] when no
    [except] clause matches [e], which then propagates. *)
Definition try_except {A : Type} (body : M A) (handler : Exn -> option (M A)) : M A :=
  fun s => match body s with
           | (inl e, s') =>
               match handler e with
               | Some h => h s'
               | None => (inl e, s')
               end
           | (inr x, s') => (inr x, s')
           end.

(** A [try] whose body first binds a local variable that the [except]
    clauses read: the handler gets [None] when the exception was raised
    before the assignment. *)
Definition try_local {L A : Type} (first : M L) (rest : L -> M A)
    (handler : option L -> Exn -> option (M A)) : M A :=
  fun s => match first s with
           | (inl e, s') =>
               match handler None e with
               | Some h => h s'
               | None => (inl e, s')
               end
           | (inr l, s') => try_except (rest l) (handler (Some l)) s'
           end.

(** [for x in l: body x] *)
Fixpoint for_each {A : Type} (l : list A) (body : A -> M unit) : M unit :=
  match l with
  | [] => ret tt
  | x :: r => bind (body x) (fun _ => for_each r body)
  end.

Definition emit (e : Event) : M unit :=
  modify (fun s => set_trace (trace s ++ [e]) s).

(** The outcome of an operating-system call becomes a return or a raise. *)
Definition os_unit (r : option Exn) : M unit :=
  match r with Some e => raise e | None => ret tt end.

Definition os_value {A : Type} (r : Exn + A) : M A :=
  match r with inl e => raise e | inr x => ret x end.

End Py.

Import Py.

Declare Scope py_scope.
Delimit Scope py_scope with py.
Notation "x <- c1 ;; c2" := (bind c1 (fun x => c2))
  (at level 100, c1 at next level, c2 at level 200, right associativity) : py_scope.
Notation "c1 ;; c2" := (bind c1 (fun _ => c2))
  (at level 100, c2 at level 200, right associativity) : py_scope.
Local Open Scope py_scope.

(** The state a method leaves, and whether it returned normally. *)
Definition state_after {A : Type} (r : (Exn + A) * App) : App := snd r.

Definition returned {A : Type} (r : (Exn + A) * App) : bool :=
  match fst r with inr _ => true | inl _ => false end.

(** ** Diagnostics *)

(** Reading an attribute that [_create_database] may not have set. *)
Definition attribute {A : Type} (field : App -> option A) : M A :=
  value <- gets field ;;
  match value with
  | Some object => ret object
  | None => raise AttributeError
  end.

(** [self.log_error_to_db(level, message)] *)
Definition log_error_to_db (level : Level) (message : Msg) : M unit :=
  try_except
    (the_cursor <- attribute cursor ;;
     t <- gets (fun s => length (trace s)) ;;
     emit (ev_log_error_to_db level message) ;;
     os_unit (cursor_execute the_cursor t level message) ;;
     the_conn <- attribute conn ;;
     os_unit (conn_commit the_conn t))
    (fun e =>
       if is_sqlite_error e
       then Some (emit (ev_logging ERROR (fmt "Database logging error: {e}" [a_exn e])))
       else None).

(** [logging.warning(m)] followed by [self.log_error_to_db("WARNING", m)],
    the pair every soft failure is reported with. *)
Definition warn (m : Msg) : M unit :=
  emit (ev_logging WARNING m) ;; log_error_to_db WARNING m.

(** [logging.error(m)] followed by [self.log_error_to_db("ERROR", m)]. *)
Definition error (m : Msg) : M unit :=
  emit (ev_logging ERROR m) ;; log_error_to_db ERROR m.

(** ** The methods of [TaskManagerApp] *)

Section Methods.

Variable os : OS.

Definition values_of (pid : Z) (process_info : ProcessInfo) : Values :=
  {| v_pid := pid; v_name := name process_info; v_status := status process_info;
     v_cpu := cpu_percent process_info; v_memory := memory_mb process_info;
     v_ppid := ppid process_info |}.

(** [self.tree.insert(parent, "end", values=values)] *)
Definition tree_insert (parent : option ItemId) (values : Values) : M ItemId :=
  fun s => match tv_insert parent values (tree s) with
           | Some (i, t) => (inr i, set_tree t s)
           | None => (inl TclError, s)
           end.

(** [self.tree_items[pid] = item_id] *)
Definition remember_item (pid : Z) (item : ItemId) : M unit :=
  modify (fun s => set_tree_items (<[pid := item]> (tree_items s)) s).

Definition _insert_process_to_treeview (pid : Z) (process_info : ProcessInfo) : M unit :=
  try_except
    (let ppid := ppid process_info in
     let values := values_of pid process_info in
     data <- gets process_data ;;
     if (ppid =? 0)%Z || negb (dict_mem ppid data) then
       item <- tree_insert None values ;;
       remember_item pid item
     else
       visible <- gets children_visible ;;
       if visible then
         let parent_id := ppid in
         items <- gets tree_items ;;
         match items !! parent_id with
         | Some parent_item =>
             _ <- tree_insert (Some parent_item) values ;; ret tt
         | None =>
             item <- tree_insert None values ;;
             remember_item pid item
         end
       else ret tt)
    (fun e => Some (error (fmt "Error adding process with PID {pid} to Treeview: {e}"
                               [a_pid pid; a_exn e]))).

Definition search_processes : M unit :=
  entry <- gets search_entry ;;
  let search_term := lower entry in
  children <- gets (fun s => tv_get_children (tree s)) ;;
  for_each children
    (fun item => modify (fun s => set_tree (tv_delete item (tree s)) s)) ;;
  modify (set_tree_items ∅) ;;
  data <- gets process_data ;;
  for_each data
    (fun '(pid, process_info) =>
       if str_in search_term (lower (name process_info))
       then _insert_process_to_treeview pid process_info
       else ret tt).

Definition refresh_processes : M unit :=
  search_processes ;;
  emit (ev_logging DEBUG (fmt "Refreshing Treeview took: {t} seconds" [])).

Definition toggle_children : M unit :=
  modify (fun s => set_children_visible (negb (children_visible s)) s) ;;
  refresh_processes.

(** *** Sampling and reconciliation *)

(** The body of the [for process in psutil.process_iter(...)] loop;
    [processes] is the list built so far. *)
Definition read_process (processes : list RawProcessInfo) (r : Exn + RawProcessInfo)
  : M (list RawProcessInfo) :=
  try_except
    (info <- os_value r ;; ret (processes ++ [info]))
    (fun e =>
       if is_process_error e
       then Some (warn (fmt "Failed to get process {e}" [a_exn e]) ;; ret processes)
       else None).

Fixpoint read_processes (processes : list RawProcessInfo)
    (iter : list (Exn + RawProcessInfo)) : M (list RawProcessInfo) :=
  match iter with
  | [] => ret processes
  | r :: iter' =>
      processes' <- read_process processes r ;;
      read_processes processes' iter'
  end.

Definition _update_processes_thread : M unit :=
  try_except
    (processes <- read_processes [] (os_process_iter os) ;;
     emit (ev_logging DEBUG (fmt "Getting process data took: {t} seconds" [])) ;;
     emit (ev_after 0 (cb_process_data_update processes)) ;;
     emit (ev_after 2000 cb_update_processes))
    (fun e => Some (error (fmt "Error getting process list: {e}" [a_exn e]))).

(** [threading.Thread(target=self._update_processes_thread).start()]; the
    thread body is run to completion. *)
Definition update_processes : M unit := _update_processes_thread.

(** The body of the [for process in processes] loop of
    [process_data_update], on the [i]-th entry. *)
Definition reconcile_process (i : nat) (new_process_data : ProcessTable)
    (process : RawProcessInfo) : M ProcessTable :=
  try_except
    (let pid := raw_pid process in
     rss <- match raw_memory_info process with
            | Some rss => ret rss
            | None => raise AttributeError
            end ;;
     os_unit (os_Process os i pid) ;;
     ret (dict_set pid
            {| name := raw_name process;
               status := raw_status process;
               cpu_percent := raw_cpu_percent process;
               memory_mb := (inject_Z rss / inject_Z (1024 * 1024))%Q;
               ppid := raw_ppid process;
               process_obj := Process pid |}
            new_process_data))
    (fun e =>
       if is_process_error e
       then Some (warn (fmt "Failed to get data about process with PID {pid}: {e}"
                            [a_pid (raw_pid process); a_exn e]) ;;
                  ret new_process_data)
       else Some (error (fmt "Error processing process with PID {pid}: {e}"
                             [a_pid (raw_pid process); a_exn e]) ;;
                  ret new_process_data)).

Fixpoint reconcile_from (i : nat) (new_process_data : ProcessTable)
    (processes : list RawProcessInfo) : M ProcessTable :=
  match processes with
  | [] => ret new_process_data
  | process :: rest =>
      new_process_data' <- reconcile_process i new_process_data process ;;
      reconcile_from (S i) new_process_data' rest
  end.

Definition process_data_update (processes : list RawProcessInfo) : M unit :=
  new_process_data <- reconcile_from 0 [] processes ;;
  modify (set_process_data new_process_data) ;;
  emit (ev_logging DEBUG (fmt "Processing process data took: {t} seconds" [])) ;;
  emit (ev_after 0 cb_refresh_processes).

(** *** Gauges and the removable-drive probe *)

Definition update_system_info : M unit :=
  try_except
    (cpu_percent <- os_value (os_cpu_percent os) ;;
     memory <- os_value (os_virtual_memory os) ;;
     disk <- os_value (os_disk_usage os) ;;
     emit (ev_after 0 (cb_cpu_label cpu_percent)) ;;
     emit (ev_after 0 (cb_memory_label memory)) ;;
     emit (ev_after 0 (cb_disk_label disk)) ;;
     emit (ev_after 1000 cb_update_system_info))
    (fun e => Some (error (fmt "Error updating system info: {e}" [a_exn e]))).

Definition _find_removable_drive : M (option string) :=
  partitions <- os_value (os_disk_partitions os) ;;
  ret (option_map fst
         (List.find (fun p => str_in "removable" (snd p)) partitions)).

Definition _check_removable_drive_thread : M unit :=
  try_except
    (removable_drive <- _find_removable_drive ;;
     match removable_drive with
     | Some (String c r) =>
         emit (ev_after 0 (cb_removable_drive_label ("Detected: " ++ String c r)))
     | _ =>
         emit (ev_after 0 (cb_removable_drive_label "Not detected"))
     end)
    (fun e => Some (error (fmt "Error checking removable drive: {e}" [a_exn e]) ;;
                    emit (ev_after 0 (cb_removable_drive_label "Error")))) ;;
  emit (ev_after 5000 cb_check_removable_drive).

Definition check_removable_drive : M unit := _check_removable_drive_thread.

(** *** Control actions *)

(** [selected_item = self.tree.selection()[0]] and
    [pid = int(self.tree.item(selected_item, "values")[0])], the first two
    statements of every action. *)
Definition selected_pid : M Z :=
  selection <- gets (fun s => tv_selection (tree s)) ;;
  match selection with
  | [] => raise IndexError
  | selected_item :: _ =>
      t <- gets tree ;;
      match tv_item_values selected_item t with
      | Some values => ret (v_pid values)
      | None => raise TclError
      end
  end.

(** [self.process_data[pid]['process_obj']] *)
Definition cached_handle (pid : Z) : M Handle :=
  data <- gets process_data ;;
  match dict_get pid data with
  | Some process_info => ret (process_obj process_info)
  | None => raise KeyError
  end.

(** Reading the local variable [pid] in an [except] clause. *)
Definition local_pid (pid : option Z) : M Z :=
  match pid with
  | Some p => ret p
  | None => raise UnboundLocalError
  end.

(** [kill_selected_process], [suspend_selected_process] and
    [resume_selected_process] are the same method up to the handle
    operation [op], the text [done] logged on success and the translation
    key [failed] of the last [except] clause. *)
Definition control_selected_process (op : ProcOp) (done failed : string) : M unit :=
  try_local selected_pid
    (fun pid =>
       data <- gets process_data ;;
       if dict_mem pid data then
         process <- cached_handle pid ;;
         emit (ev_process op process) ;;
         os_unit (os_signal os op process) ;;
         emit (ev_logging INFO (fmt done [a_pid pid])) ;;
         refresh_processes
       else
         warn (fmt "Process with PID {pid} not found." [a_pid pid]) ;;
         refresh_processes)
    (fun pid e =>
       match e with
       | IndexError =>
           Some (warn (translate "no_process_selected" []))
       | NoSuchProcess | ZombieProcess =>
           Some (p <- local_pid pid ;;
                 warn (translate "process_not_found" [a_pid p]) ;;
                 refresh_processes)
       | AccessDenied =>
           Some (p <- local_pid pid ;;
                 warn (translate "access_denied" [a_pid p]))
       | _ =>
           Some (error (translate failed [a_exn e]))
       end).

Definition kill_selected_process : M unit :=
  control_selected_process op_kill
    "Process with PID {pid} killed." "error_killing_process".

Definition suspend_selected_process : M unit :=
  control_selected_process op_suspend
    "Process with PID {pid} suspended." "error_suspending_process".

Definition resume_selected_process : M unit :=
  control_selected_process op_resume
    "Process with PID {pid} resumed." "error_resuming_process".

(** [os.startfile(dir)] on Windows, [subprocess.run(["xdg-open", dir])]
    elsewhere. *)
Definition open_folder (dir : string) : M unit :=
  emit (ev_open_folder dir) ;; os_unit (os_open os dir).

Definition open_file_location : M unit :=
  try_local selected_pid
    (fun pid =>
       data <- gets process_data ;;
       if dict_mem pid data then
         try_except
           (process <- cached_handle pid ;;
            emit (ev_process op_exe process) ;;
            exe_path <- os_value (os_exe os process) ;;
            if String.eqb (os_platform os) "Windows" then
              open_folder (os_dirname os exe_path)
            else if String.eqb (os_platform os) "Linux"
                    || String.eqb (os_platform os) "Darwin" then
              open_folder (os_dirname os exe_path)
            else
              warn (fmt "Opening folder not supported on this OS." []))
           (fun e =>
              match e with
              | AccessDenied =>
                  Some (warn (translate "access_denied_location" [a_pid pid]))
              | FileNotFoundError =>
                  Some (warn (translate "file_not_found" [a_pid pid]))
              | _ =>
                  Some (error (translate "error_opening_location" [a_exn e]))
              end)
       else
         warn (fmt "Process with PID {pid} not found." [a_pid pid]) ;;
         refresh_processes)
    (fun _ e =>
       match e with
       | IndexError =>
           Some (warn (translate "no_process_selected" []))
       | _ =>
           Some (error (translate "general_error" [a_exn e]))
       end).

End Methods.

(** * Specification vocabulary *)

(** ** Running a method on a state *)

(** The two records of a soft failure. *)
Definition log_pair (l : Level) (m : Msg) : list Event :=
  [ev_logging l m; ev_log_error_to_db l m].

Definition add_events (evs : list Event) (s : App) : App :=
  set_trace (trace s ++ evs) s.

(** ** The diagnostics database *)

(** The cursor and the connection [_create_database] has set, if both are
    there. *)
Definition Database : Type := (Cursor * Connection)%type.

Definition database (s : App) : option Database :=
  match cursor s, conn s with
  | Some the_cursor, Some the_conn => Some (the_cursor, the_conn)
  | _, _ => None
  end.

(** The database raises nothing but [sqlite3.Error]. *)
Definition sqlite_errors_only (db : Database) : Prop :=
  (forall t l m e, cursor_execute (fst db) t l m = Some e -> is_sqlite_error e = true) /\
  (forall t e, conn_commit (snd db) t = Some e -> is_sqlite_error e = true).

(** What the database answers to the statement sent when the trace holds
    [t] events: the refusal of the statement, or of the commit. *)
Definition db_answer (db : Database) (t : nat) (l : Level) (m : Msg) : option Exn :=
  match cursor_execute (fst db) t l m with
  | Some e => Some e
  | None => conn_commit (snd db) t
  end.

(** The complaint [log_error_to_db] logs when the database refuses. *)
Definition db_complaint (db : Database) (t : nat) (l : Level) (m : Msg) : list Event :=
  match db_answer db t l m with
  | Some e => [ev_logging ERROR (fmt "Database logging error: {e}" [a_exn e])]
  | None => []
  end.

(** The records of a diagnostic that begins when the trace holds [t]
    events: the log record, the statement sent to the database and, when the
    database refuses, the complaint. *)
Definition logged (db : Database) (t : nat) (l : Level) (m : Msg) : list Event :=
  log_pair l m ++ db_complaint db (S t) l m.

(** The same for a diagnostic given as a pair. *)
Definition reported (db : Database) (t : nat) (d : Level * Msg) : list Event :=
  logged db t (fst d) (snd d).

(** The records of several diagnostics in a row. *)
Fixpoint logged_all (db : Database) (t : nat) (ds : list (Level * Msg)) : list Event :=
  match ds with
  | [] => []
  | (l, m) :: rest =>
      logged db t l m ++ logged_all db (t + length (logged db t l m)) rest
  end.

(** A method that returns normally from every state. *)
Definition never_raises {A : Type} (m : M A) : Prop :=
  forall s, returned (m s) = true.

(** A method that leaves the cached process table as it found it. *)
Definition keeps_table {A : Type} (m : M A) : Prop :=
  forall s, process_data (state_after (m s)) = process_data s.

(** The record [refresh_processes] leaves in the log. *)
Definition refresh_event : Event :=
  ev_logging DEBUG (fmt "Refreshing Treeview took: {t} seconds" []).

(** ** Control actions *)

Inductive Action : Type := Kill | Suspend | Resume.

Definition run_action (os : OS) (a : Action) : M unit :=
  match a with
  | Kill => kill_selected_process os
  | Suspend => suspend_selected_process os
  | Resume => resume_selected_process os
  end.

Definition action_op (a : Action) : ProcOp :=
  match a with Kill => op_kill | Suspend => op_suspend | Resume => op_resume end.

Definition action_done (a : Action) : string :=
  match a with
  | Kill => "Process with PID {pid} killed."
  | Suspend => "Process with PID {pid} suspended."
  | Resume => "Process with PID {pid} resumed."
  end.

Definition action_failed (a : Action) : string :=
  match a with
  | Kill => "error_killing_process"
  | Suspend => "error_suspending_process"
  | Resume => "error_resuming_process"
  end.

(** The row the user has selected shows [pid]. *)
Definition selects (s : App) (pid : Z) : Prop :=
  exists item rest values,
    tv_selection (tree s) = item :: rest /\
    tv_item_values item (tree s) = Some values /\
    v_pid values = pid.

(** All that an action without a selected row does, with the database [db]
    in place. *)
Definition no_selection_result (db : Database) (s : App) : (Exn + unit) * App :=
  (inr tt,
   add_events (logged db (length (trace s)) WARNING (translate "no_process_selected" [])) s).

(** ** Sampling *)

(** The entries of an enumeration that were read. *)
Definition read_ok (iter : list (Exn + RawProcessInfo)) : list RawProcessInfo :=
  omap (fun r => match r with inr info => Some info | inl _ => None end) iter.

(** The warnings of an enumeration, one per unreadable process. *)
Definition read_warnings (iter : list (Exn + RawProcessInfo)) : list (Level * Msg) :=
  flat_map (fun r => match r with
                     | inl e => [(WARNING, fmt "Failed to get process {e}" [a_exn e])]
                     | inr _ => []
                     end) iter.

(** Every failure of the enumeration is one of the three per-process ones. *)
Definition soft_failures_only (iter : list (Exn + RawProcessInfo)) : Prop :=
  Forall (fun r => match r with
                   | inl e => is_process_error e = true
                   | inr _ => True
                   end) iter.

Definition is_reschedule (task : Callback) (e : Event) : bool :=
  match e, task with
  | ev_after _ cb_update_system_info, cb_update_system_info => true
  | ev_after _ cb_update_processes, cb_update_processes => true
  | ev_after _ cb_check_removable_drive, cb_check_removable_drive => true
  | _, _ => false
  end.

(** The events a method appended to the trace reschedule [task]. *)
Definition reschedules (task : Callback) (evs : list Event) : bool :=
  existsb (is_reschedule task) evs.

(** ** Reconciliation *)

(** The record built from the raw entry [raw] whose resident size is [rss]. *)
Definition info_of (raw : RawProcessInfo) (rss : Z) : ProcessInfo :=
  {| name := raw_name raw;
     status := raw_status raw;
     cpu_percent := raw_cpu_percent raw;
     memory_mb := (inject_Z rss / inject_Z (1024 * 1024))%Q;
     ppid := raw_ppid raw;
     process_obj := Process (raw_pid raw) |}.

(** The [i]-th raw entry [raw] can be turned into a record: its memory
    information was read and a handle for its pid is obtained. *)
Definition resolves (os : OS) (i : nat) (raw : RawProcessInfo) (info : ProcessInfo) : Prop :=
  exists rss, raw_memory_info raw = Some rss /\
              os_Process os i (raw_pid raw) = None /\
              info = info_of raw rss.

(** The diagnostic for the raw entry [raw] that cannot be turned into a
    record because of [e]: a warning for the three per-process errors, an
    error for anything else. *)
Definition reconcile_failure (raw : RawProcessInfo) (e : Exn) : Level * Msg :=
  if is_process_error e
  then (WARNING, fmt "Failed to get data about process with PID {pid}: {e}"
                     [a_pid (raw_pid raw); a_exn e])
  else (ERROR, fmt "Error processing process with PID {pid}: {e}"
                   [a_pid (raw_pid raw); a_exn e]).

(** The table and the diagnostics the loop of [process_data_update] builds. *)
Definition reconcile_step (os : OS) (i : nat) (raw : RawProcessInfo)
  : ProcessTable -> ProcessTable * list (Level * Msg) :=
  fun acc =>
    match raw_memory_info raw with
    | None => (acc, [reconcile_failure raw AttributeError])
    | Some rss =>
        match os_Process os i (raw_pid raw) with
        | None => (dict_set (raw_pid raw) (info_of raw rss) acc, [])
        | Some e => (acc, [reconcile_failure raw e])
        end
    end.

Fixpoint reconcile_all (os : OS) (i : nat) (acc : ProcessTable)
    (processes : list RawProcessInfo) : ProcessTable * list (Level * Msg) :=
  match processes with
  | [] => (acc, [])
  | raw :: rest =>
      let '(acc', evs) := reconcile_step os i raw acc in
      let '(final, evs') := reconcile_all os (S i) acc' rest in
      (final, evs ++ evs')
  end.

(** ** Rendering *)

(** The rows on display after a refresh of the view. *)
Definition render_rows (s : App) : list Row :=
  tv_rows (tree (state_after (search_processes s))).

(** The test of the search loop: the lower-cased name contains the
    lower-cased search text. *)
Definition matches (term : string) (info : ProcessInfo) : bool :=
  str_in (lower term) (lower (name info)).

(** The first test of [_insert_process_to_treeview]: the parent is pid 0 or
    is not a key of the table. *)
Definition display_root (d : ProcessTable) (info : ProcessInfo) : bool :=
  (ppid info =? 0)%Z || negb (dict_mem (ppid info) d).

Definition row_of (pid : Z) (info : ProcessInfo) (depth : nat) (parent : option Z) : Row :=
  {| row_pid := pid; row_name := name info; row_depth := depth; row_parent := parent |}.

Definition values_row (v : Values) (depth : nat) (parent : option Z) : Row :=
  {| row_pid := v_pid v; row_name := v_name v; row_depth := depth; row_parent := parent |}.

(** How often the process [pid] is on display. *)
Definition count_rows (pid : Z) (rows : list Row) : nat :=
  length (List.filter (fun r => Z.eqb (row_pid r) pid) rows).

(** The first part of [search_processes]: empty the widget and forget the
    item ids. *)
Definition clear_view : M unit :=
  children <- gets (fun s => tv_get_children (tree s)) ;;
  for_each children
    (fun item => modify (fun s => set_tree (tv_delete item (tree s)) s)) ;;
  modify (set_tree_items ∅).

(** Deleting the children of the root one after the other. *)
Definition delete_all (ids : list ItemId) (t : Treeview) : Treeview :=
  fold_left (fun t i => tv_delete i t) ids t.

(** The records the search loop hands to [_insert_process_to_treeview]. *)
Definition selected (term : string) (d : ProcessTable) : ProcessTable :=
  List.filter (fun e => matches term (snd e)) d.

(** *** The layout the insertion loop builds, without item ids *)

(** A top-level row with the rows nested under it. *)
Definition Placed : Type := (Values * list Values)%type.

Definition root_pids (af : list Placed) : list Z := map (fun r => v_pid (fst r)) af.

(** Nests [v] under the first top-level row of the process [p]. *)
Fixpoint add_kid (p : Z) (v : Values) (af : list Placed) : list Placed :=
  match af with
  | [] => []
  | (r, kids) :: rest =>
      if Z.eqb (v_pid r) p then (r, kids ++ [v]) :: rest
      else (r, kids) :: add_kid p v rest
  end.

(** One round of the search loop on the entry [e] of the table [d]. *)
Definition place (d : ProcessTable) (term : string) (show : bool)
    (af : list Placed) (e : Z * ProcessInfo) : list Placed :=
  let v := values_of (fst e) (snd e) in
  if matches term (snd e) then
    if display_root d (snd e) then af ++ [(v, [])]
    else if show then
      if existsb (Z.eqb (ppid (snd e))) (root_pids af)
      then add_kid (ppid (snd e)) v af
      else af ++ [(v, [])]
    else af
  else af.

(** The layout after the entries [pre] of the table [d] have been handled. *)
Definition layout (d : ProcessTable) (term : string) (show : bool)
    (pre : ProcessTable) : list Placed :=
  fold_left (place d term show) pre [].

(** The row one round of the loop puts on display, if any. *)
Definition emitted_row (d : ProcessTable) (term : string) (show : bool)
    (af : list Placed) (e : Z * ProcessInfo) : option Row :=
  if matches term (snd e) then
    if display_root d (snd e) then Some (row_of (fst e) (snd e) 0 None)
    else if show then
      if existsb (Z.eqb (ppid (snd e))) (root_pids af)
      then Some (row_of (fst e) (snd e) 1 (Some (ppid (snd e))))
      else Some (row_of (fst e) (snd e) 0 None)
    else None
  else None.

Definition placed_rows (af : list Placed) : list Row :=
  flat_map (fun r => values_row (fst r) 0 None
                     :: map (fun k => values_row k 1 (Some (v_pid (fst r)))) (snd r)) af.

(** *** The same layout with the item ids of the widget *)

Record Tagged : Type := {
  t_id : ItemId;
  t_values : Values;
  t_kids : list (ItemId * Values)
}.

Definition t_pid (x : Tagged) : Z := v_pid (t_values x).

Definition leaf (k : ItemId * Values) : Item := Node (fst k) (snd k) [].

Definition shape1 (x : Tagged) : Item :=
  Node (t_id x) (t_values x) (map leaf (t_kids x)).

Definition shape (l : list Tagged) : list Item := map shape1 l.

Definition erase1 (x : Tagged) : Placed := (t_values x, map snd (t_kids x)).

Definition erase (l : list Tagged) : list Placed := map erase1 l.

Definition all_ids (l : list Tagged) : list ItemId :=
  flat_map (fun x => t_id x :: map fst (t_kids x)) l.

Definition root_tags (l : list Tagged) : list (Z * ItemId) :=
  map (fun x => (t_pid x, t_id x)) l.

Fixpoint add_kid_id (p : ItemId) (k : ItemId * Values) (l : list Tagged) : list Tagged :=
  match l with
  | [] => []
  | x :: rest =>
      if Nat.eqb (t_id x) p
      then {| t_id := t_id x; t_values := t_values x; t_kids := t_kids x ++ [k] |} :: rest
      else x :: add_kid_id p k rest
  end.

(** The widget shows [l], the item ids are fresh below [n], and [ti] maps the
    pid of each top-level row to its item id. *)
Definition view_inv (l : list Tagged) (ti : gmap Z ItemId) (n : ItemId) : Prop :=
  NoDup (all_ids l) /\
  Forall (fun i => (i < n)%nat) (all_ids l) /\
  NoDup (map t_pid l) /\
  (forall pid id, ti !! pid = Some id <-> (pid, id) ∈ root_tags l).

(** The state [s] showing the tagged layout [l]. *)
Definition showing (l : list Tagged) (ti : gmap Z ItemId) (n : ItemId)
    (sel : list ItemId) (s : App) : App :=
  set_tree_items ti
    (set_tree {| tv_items := shape l; tv_next := n; tv_selection := sel |} s).

(** ** Example worlds *)

(** A database that accepts every statement. *)
Definition db_quiet : Database :=
  ({| cursor_execute := fun _ _ _ => None |}, {| conn_commit := fun _ => None |}).

(** A database whose disk is full: every statement is refused. *)
Definition db_full : Database :=
  ({| cursor_execute := fun _ _ _ => Some (OtherError "sqlite3.OperationalError") |},
   {| conn_commit := fun _ => None |}).

(** An operating system on which every call succeeds. *)
Definition os_quiet : OS :=
  {| os_Process := fun _ _ => None;
     os_signal := fun _ _ => None;
     os_exe := fun _ => inr "/sbin/init";
     os_platform := "Linux";
     os_dirname := fun _ => "/sbin";
     os_open := fun _ => None;
     os_process_iter := [];
     os_cpu_percent := inr 0%Q;
     os_virtual_memory := inr {| g_percent := 0%Q; g_used := 0; g_total := 0 |};
     os_disk_usage := inr {| g_percent := 0%Q; g_used := 0; g_total := 0 |};
     os_disk_partitions := inr [] |}.

(** A table entry for the process [pid] called [n] whose parent is [parent]. *)
Definition proc (pid : Z) (n : string) (parent : Z) : Z * ProcessInfo :=
  (pid, {| name := n; status := "running"; cpu_percent := 0%Q; memory_mb := 0%Q;
           ppid := parent; process_obj := Process pid |}).

(** The application showing nothing yet, with the table [d], the text [term]
    in the search box and the nesting toggle at [show]. *)
Definition app_with (d : ProcessTable) (term : string) (show : bool) : App :=
  {| process_data := d; tree_items := ∅; children_visible := show;
     search_entry := term;
     tree := {| tv_items := []; tv_next := 0%nat; tv_selection := [] |};
     conn := Some (snd db_quiet); cursor := Some (fst db_quiet);
     trace := [] |}.

(** The application showing the single process 7, whose row is selected. *)
Definition app_selected : App :=
  {| process_data := [proc 7 "editor" 0];
     tree_items := {[ 7 := 0%nat ]};
     children_visible := false;
     search_entry := "";
     tree := {| tv_items := [Node 0%nat (values_of 7 (snd (proc 7 "editor" 0))) []];
                tv_next := 1%nat;
                tv_selection := [0%nat] |};
     conn := Some (snd db_quiet); cursor := Some (fst db_quiet);
     trace := [] |}.

(** The application [s] after a start in which the database could not be
    opened: [_create_database] has set neither attribute. *)
Definition without_database (s : App) : App :=
  {| process_data := process_data s; tree_items := tree_items s;
     children_visible := children_visible s; search_entry := search_entry s;
     tree := tree s; conn := None; cursor := None; trace := trace s |}.

(** The application [s] with the database [db]. *)
Definition with_database (db : Database) (s : App) : App :=
  {| process_data := process_data s; tree_items := tree_items s;
     children_visible := children_visible s; search_entry := search_entry s;
     tree := tree s; conn := Some (snd db); cursor := Some (fst db); trace := trace s |}.

(** [os_quiet] with a disk whose usage cannot be read. *)
Definition os_disk_failure : OS :=
  {| os_Process := os_Process os_quiet;
     os_signal := os_signal os_quiet;
     os_exe := os_exe os_quiet;
     os_platform := os_platform os_quiet;
     os_dirname := os_dirname os_quiet;
     os_open := os_open os_quiet;
     os_process_iter := [inl (OtherError "OSError")];
     os_cpu_percent := os_cpu_percent os_quiet;
     os_virtual_memory := os_virtual_memory os_quiet;
     os_disk_usage := inl (OtherError "OSError");
     os_disk_partitions := inl (OtherError "OSError") |}.

(** A raw entry for the process [pid] called [n] whose parent is [parent]. *)
Definition raw_proc (pid : Z) (n : string) (parent : Z) : RawProcessInfo :=
  {| raw_pid := pid; raw_name := n; raw_status := "running"; raw_cpu_percent := 0%Q;
     raw_memory_info := Some 1048576; raw_ppid := parent |}.

(** A raw entry whose memory information could not be read: [as_dict] puts
    [None] in its place. *)
Definition raw_unread (pid : Z) (n : string) (parent : Z) : RawProcessInfo :=
  {| raw_pid := pid; raw_name := n; raw_status := "running"; raw_cpu_percent := 0%Q;
     raw_memory_info := None; raw_ppid := parent |}.

(** [os_quiet] enumerating three processes, the second of which has exited,
    and refusing a handle for pid 3. *)
Definition os_busy : OS :=
  {| os_Process := fun _ pid => if Z.eqb pid 3 then Some NoSuchProcess else None;
     os_signal := os_signal os_quiet;
     os_exe := os_exe os_quiet;
     os_platform := os_platform os_quiet;
     os_dirname := os_dirname os_quiet;
     os_open := os_open os_quiet;
     os_process_iter := [inr (raw_proc 1 "init" 0); inl NoSuchProcess; inr (raw_proc 3 "sh" 1)];
     os_cpu_percent := os_cpu_percent os_quiet;
     os_virtual_memory := os_virtual_memory os_quiet;
     os_disk_usage := os_disk_usage os_quiet;
     os_disk_partitions := os_disk_partitions os_quiet |}.

(** The table of the nesting example: a root, its child and its grandchild. *)
Definition family : ProcessTable :=
  [proc 1 "root" 0; proc 2 "child" 1; proc 3 "grandchild" 2].

(** A process recorded as its own parent, and two processes recorded as each
    other's parent. *)
Definition own_parent : ProcessTable := [proc 5 "loop" 5].

Definition mutual_parents : ProcessTable := [proc 1 "ping" 2; proc 2 "pong" 1].

(** A table to search in. *)
Definition browsers : ProcessTable :=
  [proc 10 "Google Chrome" 0; proc 11 "vim" 0; proc 12 "chrome_crashpad" 10].

(** * Further vocabulary *)

(** The pids on display, top to bottom. *)
Definition shown_pids (s : App) : list Z := map row_pid (render_rows s).

(** The pids of the top-level rows on display, top to bottom. *)
Definition top_level_pids (s : App) : list Z :=
  map row_pid (List.filter (fun r => Nat.eqb (row_depth r) 0) (render_rows s)).

(** What a method appended to the trace of [s]. *)
Definition appended {A : Type} (s : App) (r : (Exn + A) * App) : list Event :=
  drop (length (trace s)) (trace (state_after r)).

(** The handle operations among some events, in order. *)
Definition process_events (evs : list Event) : list (ProcOp * Handle) :=
  omap (fun e => match e with ev_process op h => Some (op, h) | _ => None end) evs.

(** The folders opened among some events, in order. *)
Definition opened_folders (evs : list Event) : list string :=
  omap (fun e => match e with ev_open_folder dir => Some dir | _ => None end) evs.

(** The callbacks some events ask [master.after] to run, with their delays. *)
Definition posted (evs : list Event) : list (Z * Callback) :=
  omap (fun e => match e with ev_after ms cb => Some (ms, cb) | _ => None end) evs.

(** A record of the log or of the diagnostics database. *)
Definition is_record (e : Event) : bool :=
  match e with
  | ev_logging _ _ | ev_log_error_to_db _ _ => true
  | _ => false
  end.

(** Events that are records only: no process is reached, no folder is
    opened and nothing is posted. *)
Definition quiet (evs : list Event) : Prop := forallb is_record evs = true.

(** A method that only appends records to the trace and leaves the database
    attributes alone. *)
Definition logs_only {A : Type} (m : M A) : Prop :=
  forall s, exists evs,
    trace (state_after (m s)) = trace s ++ evs /\ quiet evs /\
    cursor (state_after (m s)) = cursor s /\ conn (state_after (m s)) = conn s.

(** All the values on display in a layout. *)
Definition all_values (af : list Placed) : list Values :=
  flat_map (fun r => fst r :: snd r) af.

(** The items of a tagged layout with their values. *)
Definition tagged_items (l : list Tagged) : list (ItemId * Values) :=
  flat_map (fun x => (t_id x, t_values x) :: t_kids x) l.

(** The ids of all the items of the widget, nested ones included. *)
Definition tv_all_ids (t : Treeview) : list ItemId := flat_map item_ids (tv_items t).

(** The state [s] after the user has clicked the row [item]. *)
Definition click_row (item : ItemId) (s : App) : App :=
  set_tree {| tv_items := tv_items (tree s); tv_next := tv_next (tree s);
              tv_selection := [item] |} s.

(** The entries of a raw list that resolve, as table entries, in order;
    [i] is the position of the first one. *)
Fixpoint resolved_entries (os : OS) (i : nat) (processes : list RawProcessInfo)
  : ProcessTable :=
  match processes with
  | [] => []
  | raw :: rest =>
      match raw_memory_info raw, os_Process os i (raw_pid raw) with
      | Some rss, None => (raw_pid raw, info_of raw rss) :: resolved_entries os (S i) rest
      | _, _ => resolved_entries os (S i) rest
      end
  end.

(** The diagnostic a control action gives when the handle operation raises
    [e]; [failed] is the translation key of its last [except] clause. *)
Definition control_failure (failed : string) (pid : Z) (e : Exn) : Level * Msg :=
  match e with
  | IndexError => (WARNING, translate "no_process_selected" [])
  | NoSuchProcess | ZombieProcess => (WARNING, translate "process_not_found" [a_pid pid])
  | AccessDenied => (WARNING, translate "access_denied" [a_pid pid])
  | _ => (ERROR, translate failed [a_exn e])
  end.

(** The rows a refresh puts on display, from the table, the search text and
    the toggle alone. *)
Definition refreshed_rows (s : App) : list Row :=
  placed_rows (layout (process_data s) (search_entry s) (children_visible s)
                 (process_data s)).

(** The result [r] of a method run on [s] that returned after it had
    appended [evs] and then refreshed the view: the log shows the refresh,
    the rows on display are those of the table of [s], which is unchanged. *)
Definition refreshed_after (s : App) (evs : list Event) (r : (Exn + unit) * App) : Prop :=
  fst r = inr tt /\
  trace (state_after r) = trace s ++ evs ++ [refresh_event] /\
  tv_rows (tree (state_after r)) = refreshed_rows s /\
  process_data (state_after r) = process_data s.

(** [os_quiet] refusing every operation on a handle for lack of privilege. *)
Definition os_denied : OS :=
  {| os_Process := os_Process os_quiet;
     os_signal := fun _ _ => Some AccessDenied;
     os_exe := fun _ => inl AccessDenied;
     os_platform := os_platform os_quiet;
     os_dirname := os_dirname os_quiet;
     os_open := os_open os_quiet;
     os_process_iter := os_process_iter os_quiet;
     os_cpu_percent := os_cpu_percent os_quiet;
     os_virtual_memory := os_virtual_memory os_quiet;
     os_disk_usage := os_disk_usage os_quiet;
     os_disk_partitions := os_disk_partitions os_quiet |}.

(** [os_quiet] on which no handle can be obtained, for a reason other than
    the three per-process ones. *)
Definition os_broken : OS :=
  {| os_Process := fun _ _ => Some (OtherError "OSError");
     os_signal := os_signal os_quiet;
     os_exe := os_exe os_quiet;
     os_platform := os_platform os_quiet;
     os_dirname := os_dirname os_quiet;
     os_open := os_open os_quiet;
     os_process_iter := os_process_iter os_quiet;
     os_cpu_percent := os_cpu_percent os_quiet;
     os_virtual_memory := os_virtual_memory os_quiet;
     os_disk_usage := os_disk_usage os_quiet;
     os_disk_partitions := os_disk_partitions os_quiet |}.

(** The diagnostic [open_file_location] gives when reading the executable
    path or opening its folder raises [e]. *)
Definition locate_failure (pid : Z) (e : Exn) : Level * Msg :=
  match e with
  | AccessDenied => (WARNING, translate "access_denied_location" [a_pid pid])
  | FileNotFoundError => (WARNING, translate "file_not_found" [a_pid pid])
  | _ => (ERROR, translate "error_opening_location" [a_exn e])
  end.

(** The platforms on which [open_file_location] opens a folder. *)
Definition platform_supported (os : OS) : bool :=
  String.eqb (os_platform os) "Windows"
  || String.eqb (os_platform os) "Linux"
  || String.eqb (os_platform os) "Darwin".

(** [os_quiet] on a platform the program does not know. *)
Definition os_plan9 : OS :=
  {| os_Process := os_Process os_quiet;
     os_signal := os_signal os_quiet;
     os_exe := os_exe os_quiet;
     os_platform := "Plan9";
     os_dirname := os_dirname os_quiet;
     os_open := os_open os_quiet;
     os_process_iter := os_process_iter os_quiet;
     os_cpu_percent := os_cpu_percent os_quiet;
     os_virtual_memory := os_virtual_memory os_quiet;
     os_disk_usage := os_disk_usage os_quiet;
     os_disk_partitions := os_disk_partitions os_quiet |}.

(** * The rest of the application: window, language and diagnostics *)

(** ** Window placement *)

(** [window.geometry('{}x{}+{}+{}'.format(width, height, x, y))] *)
Record Geometry : Type := { geo_width : Z; geo_height : Z; geo_x : Z; geo_y : Z }.

(** [center_window], from the sizes [winfo_width], [winfo_height],
    [winfo_screenwidth] and [winfo_screenheight] report. *)
Definition center_window (width height screen_width screen_height : Z) : Geometry :=
  let x := screen_width / 2 - width / 2 in
  let y := screen_height / 2 - height / 2 in
  {| geo_width := width; geo_height := height; geo_x := x; geo_y := y |}.

(** ** Language and diagnostics *)

(** ** Methods over other parts of the application

    [Py.M] is fixed to the state of the process view.  The language,
    diagnostics and context-menu methods work on other attributes; they use
    the same state-and-exception discipline over a state of their own. *)

Module Mx.

Definition M (S A : Type) : Type := S -> (Exn + A) * S.

Definition ret {S A : Type} (x : A) : M S A := fun s => (inr x, s).

Definition bind {S A B : Type} (m : M S A) (k : A -> M S B) : M S B :=
  fun s => match m s with
           | (inl e, s') => (inl e, s')
           | (inr x, s') => k x s'
           end.

Definition raise {S A : Type} (e : Exn) : M S A := fun s => (inl e, s).

Definition gets {S A : Type} (f : S -> A) : M S A := fun s => (inr (f s), s).

Definition modify {S : Type} (f : S -> S) : M S unit := fun s => (inr tt, f s).

(** [try: body except ...: handler]; a handler that answers [None] does not
    match, and an exception raised inside a handler propagates. *)
Definition try_except {S A : Type} (body : M S A) (handler : Exn -> option (M S A)) : M S A :=
  fun s => match body s with
           | (inl e, s') =>
               match handler e with
               | Some h => h s'
               | None => (inl e, s')
               end
           | (inr x, s') => (inr x, s')
           end.

(** A call into the environment that returns nothing, or a value. *)
Definition call {S : Type} (r : option Exn) : M S unit :=
  match r with Some e => raise e | None => ret tt end.

Definition value {S A : Type} (r : Exn + A) : M S A :=
  match r with inl e => raise e | inr x => ret x end.

Definition state_after {S A : Type} (r : (Exn + A) * S) : S := snd r.

Definition returned {S A : Type} (r : (Exn + A) * S) : bool :=
  match fst r with inr _ => true | inl _ => false end.

Declare Scope mx_scope.
Notation "x <- c1 ;; c2" := (bind c1 (fun x => c2))
  (at level 100, c1 at next level, c2 at level 200, right associativity) : mx_scope.
Notation "c1 ;; c2" := (bind c1 (fun _ => c2))
  (at level 100, c2 at level 200, right associativity) : mx_scope.

End Mx.

Module Shell.

Import Mx.
Local Open Scope mx_scope.

(** The statements sent to the diagnostics database. *)
Inductive Sql : Type :=
  | sql_create_table                        (* CREATE TABLE IF NOT EXISTS errors ... *)
  | sql_insert (level : Level) (message : Msg).  (* INSERT INTO errors ... *)

Inductive Event : Type :=
  | ev_logging (l : Level) (m : Msg)    (* logging.warning / logging.error *)
  | ev_execute (statement : Sql)        (* self.cursor.execute *)
  | ev_commit                           (* self.conn.commit() *)
  | ev_close                            (* self.conn.close() *)
  | ev_after_update_widgets_text        (* self.master.after(0, self._update_widgets_text) *)
  | ev_title (text : string)            (* self.master.title *)
  | ev_language_button (text : string). (* self.language_button.config(text=...) *)

(** What the environment answers.  [None] stands for a call that returns
    normally; the number is the count of events so far, so that the same call
    may be answered differently at different times. *)
Record Env : Type := {
  (* locale.getdefaultlocale()[0] *)
  env_getdefaultlocale : Exn + option string;
  (* importlib.import_module(module_name).LOCALE *)
  env_import_module : string -> Exn + gmap string string;
  (* text.format, applied to the keyword arguments *)
  env_format : string -> list (string * Arg) -> Exn + string;
  (* sqlite3.connect('errors.db'), self.conn.cursor() *)
  env_connect : option Exn;
  env_cursor : option Exn;
  (* self.cursor.execute(...), self.conn.commit(), self.conn.close() *)
  env_execute : nat -> Sql -> option Exn;
  env_commit : nat -> option Exn;
  env_close : option Exn
}.

(** The attributes of the application these methods read and write.
    [locale] is read by [translate] only, which runs after [load_locale] has
    set it; [language_button] exists whenever [cycle_language] runs, which is
    its command. *)
Record State : Type := {
  current_language_index : nat;
  current_locale : string;
  locale : gmap string string;
  conn : bool;      (* hasattr(self, 'conn') *)
  cursor : bool;    (* hasattr(self, 'cursor') *)
  events : list Event
}.

(** [self.languages] *)
Definition languages : list string := ["en"; "ru"; "fr"; "de"].

Definition set_language (i : nat) (code : string) (s : State) : State :=
  {| current_language_index := i; current_locale := code; locale := locale s;
     conn := conn s; cursor := cursor s; events := events s |}.

Definition set_current_locale (code : string) (s : State) : State :=
  set_language (current_language_index s) code s.

Definition set_locale (d : gmap string string) (s : State) : State :=
  {| current_language_index := current_language_index s;
     current_locale := current_locale s; locale := d;
     conn := conn s; cursor := cursor s; events := events s |}.

Definition set_conn (s : State) : State :=
  {| current_language_index := current_language_index s;
     current_locale := current_locale s; locale := locale s;
     conn := true; cursor := cursor s; events := events s |}.

Definition set_cursor (s : State) : State :=
  {| current_language_index := current_language_index s;
     current_locale := current_locale s; locale := locale s;
     conn := conn s; cursor := true; events := events s |}.

Definition add_event (e : Event) (s : State) : State :=
  {| current_language_index := current_language_index s;
     current_locale := current_locale s; locale := locale s;
     conn := conn s; cursor := cursor s; events := events s ++ [e] |}.

Definition M (A : Type) : Type := Mx.M State A.

Definition emit (e : Event) : M unit := modify (add_event e).

(** The count of events so far. *)
Definition now : M nat := gets (fun s => length (events s)).

(** Reading an attribute that may not have been set. *)
Definition attribute (present : State -> bool) : M unit :=
  bind (gets present) (fun b => if b then ret tt else raise AttributeError).

(** [except sqlite3.Error]: the class and its subclasses. *)
Definition is_sqlite_error (e : Exn) : bool :=
  match e with OtherError what => startswith "sqlite3." what | _ => false end.

(** [except ModuleNotFoundError] *)
Definition is_ModuleNotFoundError (e : Exn) : bool :=
  match e with OtherError what => String.eqb what "ModuleNotFoundError" | _ => false end.

Section Methods.

Variable env : Env.

Definition _create_database : M unit :=
  try_except
    (call (env_connect env) ;;
     modify set_conn ;;
     call (env_cursor env) ;;
     modify set_cursor ;;
     t <- now ;;
     emit (ev_execute sql_create_table) ;;
     call (env_execute env t sql_create_table) ;;
     t' <- now ;;
     emit ev_commit ;;
     call (env_commit env t'))
    (fun e =>
       if is_sqlite_error e
       then Some (emit (ev_logging ERROR (fmt "Database error: {e}" [a_exn e])))
       else None).

Definition log_error_to_db (level : Level) (message : Msg) : M unit :=
  try_except
    (attribute cursor ;;
     t <- now ;;
     emit (ev_execute (sql_insert level message)) ;;
     call (env_execute env t (sql_insert level message)) ;;
     attribute conn ;;
     t' <- now ;;
     emit ev_commit ;;
     call (env_commit env t'))
    (fun e =>
       if is_sqlite_error e
       then Some (emit (ev_logging ERROR (fmt "Database logging error: {e}" [a_exn e])))
       else None).

Definition __del__ : M unit :=
  try_except
    (has_conn <- gets conn ;;
     if has_conn then emit ev_close ;; call (env_close env) else ret tt)
    (fun e =>
       Some (emit (ev_logging ERROR (fmt "Error closing database connection: {e}" [a_exn e])) ;;
             log_error_to_db ERROR (fmt "Error closing database connection: {e}" [a_exn e]))).

(** [s[:2]] *)
Definition first_two (s : string) : string := substring 0 2 s.

Definition _get_system_locale : string :=
  match env_getdefaultlocale env with
  | inr (Some code) => first_two code
  | inr None => "en"      (* None[:2] raises TypeError, caught by the bare except *)
  | inl _ => "en"
  end.

Definition import_locale (module_name : string) : M unit :=
  d <- value (env_import_module env module_name) ;;
  modify (set_locale d).

Definition load_locale : M unit :=
  try_except
    (code <- gets current_locale ;;
     let module_name := ("locale_" ++ code)%string in
     import_locale module_name)
    (fun e =>
       if is_ModuleNotFoundError e then
         Some (code <- gets current_locale ;;
               emit (ev_logging WARNING
                       (fmt "Translation for {self.current_locale} not found. Using English."
                            [a_str code])) ;;
               import_locale "locale_en")
       else
         Some (emit (ev_logging ERROR (fmt "Error loading locale: {e}" [a_exn e])) ;;
               log_error_to_db ERROR (fmt "Error loading locale: {e}" [a_exn e]) ;;
               import_locale "locale_en")).

Definition translate (key : string) (kwargs : list (string * Arg)) : M string :=
  try_except
    (d <- gets locale ;;
     text <- match d !! key with
             | Some text => ret text
             | None => raise KeyError
             end ;;
     value (env_format env text kwargs))
    (fun e =>
       match e with
       | KeyError =>
           Some (emit (ev_logging ERROR (fmt "Translation key '{key}' not found." [a_str key])) ;;
                 log_error_to_db ERROR (fmt "Translation key '{key}' not found." [a_str key]) ;;
                 ret key)
       | _ => None
       end).

(** [str.upper] on one character. *)
Definition upper_char (c : ascii) : ascii :=
  let n := nat_of_ascii c in
  if (Nat.leb 97 n && Nat.leb n 122)%bool then ascii_of_nat (n - 32) else c.

Fixpoint upper (s : string) : string :=
  match s with
  | EmptyString => EmptyString
  | String c r => String (upper_char c) (upper r)
  end.

(** [self.languages[i]] *)
Definition language_at (i : nat) : M string :=
  match nth_error languages i with
  | Some code => ret code
  | None => raise IndexError
  end.

Definition cycle_language : M unit :=
  i <- gets current_language_index ;;
  let i' := ((i + 1) mod length languages)%nat in
  modify (fun s => set_language i' (current_locale s) s) ;;
  code <- language_at i' ;;
  modify (set_current_locale code) ;;
  load_locale ;;
  emit ev_after_update_widgets_text ;;
  title <- translate "app_title" [] ;;
  emit (ev_title title) ;;
  code' <- gets current_locale ;;
  emit (ev_language_button (upper code')).

(** The first statements of [__init__] that concern the language: the
    attributes are set, the system language is detected and its translations
    are loaded. *)
Definition init_language : M unit :=
  modify (set_language 0 _get_system_locale) ;;
  load_locale.

End Methods.

(** The environment raises nothing but [sqlite3.Error] from the statements
    and commits of the diagnostics database. *)
Definition sqlite_errors_only (env : Env) : Prop :=
  (forall t q e, env_execute env t q = Some e -> is_sqlite_error e = true) /\
  (forall t e, env_commit env t = Some e -> is_sqlite_error e = true).

(** The language button pressed [n] times; an exception of the callback is
    reported by the event loop and the application goes on. *)
Definition presses (env : Env) (n : nat) (s : State) : State :=
  Nat.iter n (fun s' => state_after (cycle_language env s')) s.

(** The events a run appends. *)
Definition appended {A : Type} (s : State) (r : (Exn + A) * State) : list Event :=
  drop (length (events s)) (events (state_after r)).

(** A method that leaves the language index and code alone. *)
Definition keeps_language {A : Type} (m : M A) : Prop :=
  forall s, current_language_index (snd (m s)) = current_language_index s /\
            current_locale (snd (m s)) = current_locale s.

(** The state in which [__init__] starts: no attribute is set yet. *)
Definition blank : State :=
  {| current_language_index := 0; current_locale := ""; locale := ∅;
     conn := false; cursor := false; events := [] |}.

(** *** Example environments *)

(** A translation table with the one key the language methods read. *)
Definition texts (title : string) : gmap string string := {[ "app_title" := title ]}.

(** A machine set to US English on which the English and the Russian
    translations are installed, every text formats to itself and the
    database accepts everything. *)
Definition env_plain : Env :=
  {| env_getdefaultlocale := inr (Some "en_US");
     env_import_module := fun module_name =>
       if String.eqb module_name "locale_en" then inr (texts "Task Manager")
       else if String.eqb module_name "locale_ru" then inr (texts "Dispetcher zadach")
       else inl (OtherError "ModuleNotFoundError");
     env_format := fun text _ => inr text;
     env_connect := None;
     env_cursor := None;
     env_execute := fun _ _ => None;
     env_commit := fun _ => None;
     env_close := None |}.

(** [env_plain] with a database file that cannot be opened. *)
Definition env_no_database : Env :=
  {| env_getdefaultlocale := env_getdefaultlocale env_plain;
     env_import_module := env_import_module env_plain;
     env_format := env_format env_plain;
     env_connect := Some (OtherError "sqlite3.OperationalError");
     env_cursor := None;
     env_execute := fun _ _ => None;
     env_commit := fun _ => None;
     env_close := None |}.

(** [env_plain] set to German, for which no translation is installed. *)
Definition env_german : Env :=
  {| env_getdefaultlocale := inr (Some "de_DE");
     env_import_module := env_import_module env_plain;
     env_format := env_format env_plain;
     env_connect := None;
     env_cursor := None;
     env_execute := fun _ _ => None;
     env_commit := fun _ => None;
     env_close := None |}.

(** The application in English between [load_locale] and
    [_create_database], as it is while [__init__] builds the widgets. *)
Definition starting : State :=
  {| current_language_index := 0; current_locale := "en";
     locale := texts "Task Manager";
     conn := false; cursor := false; events := [] |}.

(** The application running in English with its database open. *)
Definition ready : State :=
  {| current_language_index := 0; current_locale := "en";
     locale := texts "Task Manager";
     conn := true; cursor := true; events := [] |}.

End Shell.

(** ** The context menu of the process list *)

Module Menu.

Import Mx.
Local Open Scope mx_scope.

(** The [command=] of a menu entry. *)
Inductive Command : Type :=
  | cmd_kill_selected_process
  | cmd_suspend_selected_process
  | cmd_resume_selected_process
  | cmd_open_file_location.

Record Entry : Type := { entry_label : Msg; entry_command : Command }.

(** The right-click: the row [self.tree.identify_row(event.y)] finds under
    the pointer ([None] for the empty string) and the screen position. *)
Record Click : Type := {
  identify_row : option ItemId;
  x_root : Z;
  y_root : Z
}.

(** The process view together with [self.context_menu]: its entries and the
    positions at which it has been posted. *)
Record Desk : Type := {
  app : App;
  context_menu : list Entry;
  posts : list (Z * Z)
}.

Definition set_app (s : App) (d : Desk) : Desk :=
  {| app := s; context_menu := context_menu d; posts := posts d |}.

Definition set_context_menu (l : list Entry) (d : Desk) : Desk :=
  {| app := app d; context_menu := l; posts := posts d |}.

Definition add_post (p : Z * Z) (d : Desk) : Desk :=
  {| app := app d; context_menu := context_menu d; posts := posts d ++ [p] |}.

(** A method of the process view, run on the view inside the desk. *)
Definition lift {A : Type} (m : Py.M A) : M Desk A :=
  fun d => let r := m (app d) in (fst r, set_app (snd r) d).

(** [self.tree.selection_set(item)]: the selection becomes the one row, or
    nothing for the empty string. *)
Definition selection_set (item : option ItemId) : Py.M unit :=
  match item with
  | None =>
      Py.modify (fun s => set_tree {| tv_items := tv_items (tree s);
                                      tv_next := tv_next (tree s);
                                      tv_selection := [] |} s)
  | Some i =>
      Py.bind (Py.gets tree) (fun t =>
      match tv_item_values i t with
      | Some _ =>
          Py.modify (set_tree {| tv_items := tv_items t; tv_next := tv_next t;
                                 tv_selection := [i] |})
      | None => Py.raise TclError
      end)
  end.

(** [self.context_menu.add_command(label=..., command=...)] *)
Definition add_command (label : Msg) (command : Command) : M Desk unit :=
  modify (fun d => set_context_menu
                     (context_menu d ++ [{| entry_label := label; entry_command := command |}]) d).

Section Methods.

Variable os : OS.

(** [process.status()]: the answer to the first and to the second call the
    method makes. *)
Variable process_status : nat -> Handle -> Exn + string.

Definition show_context_menu (event : Click) : M Desk unit :=
  try_except
    (lift (selection_set (identify_row event)) ;;
     pid <- lift selected_pid ;;
     modify (set_context_menu []) ;;
     add_command (translate "kill_process_menu" []) cmd_kill_selected_process ;;
     data <- lift (Py.gets process_data) ;;
     (if dict_mem pid data then
        process <- lift (cached_handle pid) ;;
        st <- value (process_status 0 process) ;;
        if String.eqb st "running" then
          add_command (translate "suspend_process_menu" []) cmd_suspend_selected_process
        else
          st' <- value (process_status 1 process) ;;
          if String.eqb st' "stopped" then
            add_command (translate "resume_process_menu" []) cmd_resume_selected_process
          else ret tt
      else ret tt) ;;
     add_command (translate "open_file_location_menu" []) cmd_open_file_location ;;
     modify (add_post (x_root event, y_root event)))
    (fun e =>
       match e with
       | IndexError => Some (ret tt)
       | _ => Some (lift (error (fmt "Error showing context menu: {e}" [a_exn e])))
       end).

(** Choosing an entry of the menu runs its command on the process view. *)
Definition invoke (c : Command) : M Desk unit :=
  match c with
  | cmd_kill_selected_process => lift (kill_selected_process os)
  | cmd_suspend_selected_process => lift (suspend_selected_process os)
  | cmd_resume_selected_process => lift (resume_selected_process os)
  | cmd_open_file_location => lift (open_file_location os)
  end.

End Methods.

(** The commands of the entries, from the top of the menu. *)
Definition commands (d : Desk) : list Command := map entry_command (context_menu d).

(** The entry the method builds for a command. *)
Definition entry (c : Command) : Entry :=
  {| entry_label :=
       translate (match c with
                  | cmd_kill_selected_process => "kill_process_menu"
                  | cmd_suspend_selected_process => "suspend_process_menu"
                  | cmd_resume_selected_process => "resume_process_menu"
                  | cmd_open_file_location => "open_file_location_menu"
                  end) [];
     entry_command := c |}.

(** The operation a command sends to the process handle. *)
Definition command_op (c : Command) : ProcOp :=
  match c with
  | cmd_kill_selected_process => op_kill
  | cmd_suspend_selected_process => op_suspend
  | cmd_resume_selected_process => op_resume
  | cmd_open_file_location => op_exe
  end.

(** The process view with the row [i] selected. *)
Definition select_row (i : ItemId) (s : App) : App :=
  set_tree {| tv_items := tv_items (tree s); tv_next := tv_next (tree s);
              tv_selection := [i] |} s.

(** The desk after a right-click on the row [i] that built the entries
    [cs] and posted the menu at the pointer. *)
Definition menu_shown (event : Click) (i : ItemId) (cs : list Command) (d : Desk) : Desk :=
  {| app := select_row i (app d); context_menu := map entry cs;
     posts := posts d ++ [(x_root event, y_root event)] |}.

(** The desk after a right-click on the row [i] that failed with [e] while
    asking for the status, with the database [db] in place: the failure is
    reported, the menu is left with its first entry and is not posted. *)
Definition menu_failed (db : Database) (i : ItemId) (e : Exn) (d : Desk) : Desk :=
  {| app := match e with
            | IndexError => select_row i (app d)
            | _ => add_events
                     (logged db (length (trace (app d))) ERROR
                        (fmt "Error showing context menu: {e}" [a_exn e]))
                     (select_row i (app d))
            end;
     context_menu := [entry cmd_kill_selected_process];
     posts := posts d |}.

(** What the rows of the table allow: the entries for a process whose two
    status answers are [first] and [second]. *)
Definition status_commands (first second : string) : list Command :=
  if String.eqb first "running" then
    [cmd_kill_selected_process; cmd_suspend_selected_process; cmd_open_file_location]
  else if String.eqb second "stopped" then
    [cmd_kill_selected_process; cmd_resume_selected_process; cmd_open_file_location]
  else [cmd_kill_selected_process; cmd_open_file_location].

(** An example status oracle: every process is running. *)
Definition all_running : nat -> Handle -> Exn + string := fun _ _ => inr "running".

(** A right-click on the row [i], or outside the rows. *)
Definition click_on (i : ItemId) : Click :=
  {| identify_row := Some i; x_root := 100; y_root := 200 |}.

Definition click_outside : Click :=
  {| identify_row := None; x_root := 100; y_root := 200 |}.

(** The desk around a process view, with an empty menu. *)
Definition desk_of (s : App) : Desk := {| app := s; context_menu := []; posts := [] |}.

End Menu.

(** * Verification *)

(** ** Running a method on a state *)

Lemma add_events_nil s : add_events [] s = s.
Proof. destruct s; unfold add_events, set_trace; simpl. by rewrite app_nil_r. Qed.

Lemma add_events_app evs1 evs2 s :
  add_events evs2 (add_events evs1 s) = add_events (evs1 ++ evs2) s.
Proof. unfold add_events, set_trace; simpl. by rewrite app_assoc. Qed.

Lemma emit_run e s : emit e s = (inr tt, add_events [e] s).
Proof. reflexivity. Qed.

(** Two states that differ in how their traces are bracketed. *)
Ltac trace_eq :=
  rewrite ?add_events_nil;
  unfold add_events, set_trace; simpl; rewrite <- ?app_assoc; reflexivity.

#[local] Arguments emit : simpl never.
#[local] Arguments warn : simpl never.
#[local] Arguments error : simpl never.
#[local] Arguments add_events : simpl never.
#[local] Arguments refresh_processes : simpl never.
#[local] Arguments search_processes : simpl never.

Lemma bind_run {A B} (m : M A) (k : A -> M B) s x s' :
  m s = (inr x, s') -> bind m k s = k x s'.
Proof. unfold bind. by intros ->. Qed.

Lemma bind_raise {A B} (m : M A) (k : A -> M B) s e s' :
  m s = (inl e, s') -> bind m k s = (inl e, s').
Proof. unfold bind. by intros ->. Qed.

Lemma returned_inv {A} (r : (Exn + A) * App) :
  returned r = true -> exists x s', r = (inr x, s').
Proof. destruct r as [[e|x] s']; [discriminate | eauto]. Qed.

(** *** Methods that never raise *)

Lemma never_raises_ret {A} (x : A) : never_raises (ret x).
Proof. by intros s. Qed.

Lemma never_raises_gets {A} (f : App -> A) : never_raises (gets f).
Proof. by intros s. Qed.

Lemma never_raises_modify f : never_raises (modify f).
Proof. by intros s. Qed.

Lemma never_raises_emit e : never_raises (emit e).
Proof. by intros s. Qed.

Lemma never_raises_bind {A B} (m : M A) (k : A -> M B) :
  never_raises m -> (forall x, never_raises (k x)) -> never_raises (bind m k).
Proof.
  intros Hm Hk s. destruct (returned_inv _ (Hm s)) as (x & s' & E).
  rewrite (bind_run _ _ _ _ _ E). apply Hk.
Qed.

Lemma never_raises_try_except {A} (body : M A) handler :
  (forall e, exists h, handler e = Some h /\ never_raises h) ->
  never_raises (try_except body handler).
Proof.
  intros Hh s. unfold try_except.
  destruct (body s) as [[e|x] s']; [|done].
  destruct (Hh e) as (h & -> & Hr). apply Hr.
Qed.

Lemma never_raises_for_each {A} (l : list A) (body : A -> M unit) :
  (forall x, never_raises (body x)) -> never_raises (for_each l body).
Proof.
  intros Hb. induction l as [|x l IH]; simpl.
  - apply never_raises_ret.
  - apply never_raises_bind; [apply Hb | intros _; apply IH].
Qed.

Create HintDb py discriminated.

#[local] Hint Resolve never_raises_ret never_raises_gets never_raises_modify
  never_raises_emit : py.

(** *** Methods that keep the cached table *)

Lemma keeps_table_ret {A} (x : A) : keeps_table (ret x).
Proof. by intros s. Qed.

Lemma keeps_table_raise {A} e : keeps_table (@raise A e).
Proof. by intros s. Qed.

Lemma keeps_table_gets {A} (f : App -> A) : keeps_table (gets f).
Proof. by intros s. Qed.

Lemma keeps_table_modify f :
  (forall s, process_data (f s) = process_data s) -> keeps_table (modify f).
Proof. intros H s. apply H. Qed.

Lemma keeps_table_emit e : keeps_table (emit e).
Proof. by intros s. Qed.

Lemma keeps_table_bind {A B} (m : M A) (k : A -> M B) :
  keeps_table m -> (forall x, keeps_table (k x)) -> keeps_table (bind m k).
Proof.
  intros Hm Hk s. unfold bind. specialize (Hm s).
  destruct (m s) as [[e|x] s']; simpl in *; [done|].
  rewrite <- Hm. apply Hk.
Qed.

Lemma keeps_table_try_except {A} (body : M A) handler :
  keeps_table body ->
  (forall e h, handler e = Some h -> keeps_table h) ->
  keeps_table (try_except body handler).
Proof.
  intros Hb Hh s. unfold try_except. specialize (Hb s).
  destruct (body s) as [[e|x] s']; simpl in *; [|done].
  destruct (handler e) as [h|] eqn:E; [|done].
  rewrite <- Hb. by apply (Hh e).
Qed.

Lemma keeps_table_try_local {L A} (first : M L) (rest : L -> M A) handler :
  keeps_table first ->
  (forall l, keeps_table (rest l)) ->
  (forall l e h, handler l e = Some h -> keeps_table h) ->
  keeps_table (try_local first rest handler).
Proof.
  intros Hf Hr Hh s. unfold try_local. specialize (Hf s).
  destruct (first s) as [[e|l] s']; simpl in *.
  - destruct (handler None e) as [h|] eqn:E; [|done].
    rewrite <- Hf. by apply (Hh None e).
  - rewrite <- Hf. apply keeps_table_try_except; [apply Hr | apply Hh].
Qed.

Lemma keeps_table_for_each {A} (l : list A) (body : A -> M unit) :
  (forall x, keeps_table (body x)) -> keeps_table (for_each l body).
Proof.
  intros Hb. induction l as [|x l IH]; simpl.
  - apply keeps_table_ret.
  - apply keeps_table_bind; [apply Hb | intros _; apply IH].
Qed.

Lemma keeps_table_os_unit r : keeps_table (os_unit r).
Proof. destruct r; [apply keeps_table_raise | apply keeps_table_ret]. Qed.

Lemma keeps_table_os_value {A} (r : Exn + A) : keeps_table (os_value r).
Proof. destruct r; [apply keeps_table_raise | apply keeps_table_ret]. Qed.

Lemma keeps_table_tree_insert parent v : keeps_table (tree_insert parent v).
Proof.
  intros s. unfold tree_insert.
  destruct (tv_insert parent v (tree s)) as [[i t]|]; reflexivity.
Qed.

Lemma keeps_table_remember_item pid item : keeps_table (remember_item pid item).
Proof. by intros s. Qed.

#[local] Hint Resolve keeps_table_ret keeps_table_raise keeps_table_gets keeps_table_emit
  keeps_table_os_unit keeps_table_os_value
  keeps_table_tree_insert keeps_table_remember_item : py.

(** Breaks a method down to its primitive steps. *)
Ltac keeps_step :=
  match goal with
  | |- keeps_table (bind _ _) => apply keeps_table_bind; [|intros ?]
  | |- keeps_table (try_except _ _) =>
      apply keeps_table_try_except; [|intros e ? ?; destruct e; simplify_eq]
  | |- keeps_table (for_each _ _) => apply keeps_table_for_each; intros ?
  | |- keeps_table (modify _) => apply keeps_table_modify; intros ?; reflexivity
  | |- keeps_table (if ?b then _ else _) => destruct b
  | |- keeps_table (match ?x with Some _ => _ | None => _ end) => destruct x
  | |- keeps_table (let '(_, _) := ?p in _) => destruct p
  | |- keeps_table _ => solve [auto with py]
  end.

Lemma keeps_table_attribute {A} (field : App -> option A) : keeps_table (attribute field).
Proof. unfold attribute. repeat keeps_step. Qed.

#[local] Hint Resolve keeps_table_attribute : py.

Lemma keeps_table_log_error_to_db l m : keeps_table (log_error_to_db l m).
Proof.
  unfold log_error_to_db.
  apply keeps_table_try_except; [repeat keeps_step|].
  intros e h. destruct (is_sqlite_error e); [|done]. intros [= <-]. auto with py.
Qed.

#[local] Hint Resolve keeps_table_log_error_to_db : py.

Lemma keeps_table_warn m : keeps_table (warn m).
Proof. unfold warn. repeat keeps_step. Qed.

Lemma keeps_table_error m : keeps_table (error m).
Proof. unfold error. repeat keeps_step. Qed.

#[local] Hint Resolve keeps_table_warn keeps_table_error : py.

Lemma keeps_table_insert pid info : keeps_table (_insert_process_to_treeview pid info).
Proof. unfold _insert_process_to_treeview. repeat keeps_step. Qed.

Lemma keeps_table_search : keeps_table search_processes.
Proof.
  unfold search_processes. repeat keeps_step.
  apply keeps_table_insert.
Qed.

Lemma keeps_table_refresh : keeps_table refresh_processes.
Proof. unfold refresh_processes. repeat keeps_step. apply keeps_table_search. Qed.

#[local] Hint Resolve keeps_table_insert keeps_table_search keeps_table_refresh : py.

(** ** The table as a dictionary *)

Lemma dict_mem_get k (d : ProcessTable) :
  dict_mem k d = true <-> is_Some (dict_get k d).
Proof.
  unfold dict_mem, keys. induction d as [|[k' v] d IH]; simpl.
  - split; [discriminate | by intros [? ?]].
  - destruct (Z.eqb k k'); simpl; [by split; eauto | exact IH].
Qed.

Lemma dict_mem_false_get k (d : ProcessTable) :
  dict_mem k d = false <-> dict_get k d = None.
Proof.
  rewrite <- not_true_iff_false, dict_mem_get, <- eq_None_not_Some. done.
Qed.

Lemma dict_mem_elem k (d : ProcessTable) :
  dict_mem k d = true <-> k ∈ keys d.
Proof.
  unfold dict_mem. rewrite existsb_exists. split.
  - intros (x & Hin & ->%Z.eqb_eq). by apply list_elem_of_In.
  - intros Hin. exists k. split; [by apply list_elem_of_In | apply Z.eqb_refl].
Qed.

(** ** The widget *)

Lemma keep_map_ids i (f : list Item) :
  map item_id (forest_delete i f) =
  List.filter (fun j => negb (Nat.eqb j i)) (map item_id f).
Proof.
  unfold forest_delete. induction f as [|[j v kids] f IH]; simpl; [done|].
  destruct (Nat.eqb j i); simpl; by rewrite IH.
Qed.

Lemma filter_none {A} (f : A -> bool) (l : list A) :
  (forall x, In x l -> f x = false) -> List.filter f l = [].
Proof.
  induction l as [|x l IH]; intros H; simpl; [done|].
  rewrite (H x) by (by left). apply IH. intros y Hy. apply H. by right.
Qed.

Lemma delete_all_next ids : forall t, tv_next (delete_all ids t) = tv_next t.
Proof. induction ids as [|i ids IH]; intros t; simpl; [done|]. by rewrite IH. Qed.

Lemma delete_all_ids ids : forall t,
  tv_get_children (delete_all ids t) =
  List.filter (fun j => negb (existsb (Nat.eqb j) ids)) (tv_get_children t).
Proof.
  induction ids as [|i ids IH]; intros t; simpl.
  - induction (tv_get_children t) as [|j l IHl]; simpl; [done|]. by rewrite <- IHl.
  - rewrite IH. unfold tv_get_children at 1. simpl. rewrite keep_map_ids.
    fold (tv_get_children t).
    induction (tv_get_children t) as [|j l IHl]; simpl; [done|].
    destruct (Nat.eqb j i); simpl; [done|]. by rewrite IHl.
Qed.

Lemma delete_all_children t : tv_items (delete_all (tv_get_children t) t) = [].
Proof.
  pose proof (delete_all_ids (tv_get_children t) t) as H.
  assert (Hnil : List.filter
            (fun j => negb (existsb (Nat.eqb j) (tv_get_children t)))
            (tv_get_children t) = []).
  { apply filter_none. intros j Hj.
    apply negb_false_iff, existsb_exists. exists j. by rewrite Nat.eqb_refl. }
  rewrite Hnil in H. unfold tv_get_children in H.
  by destruct (tv_items (delete_all _ t)).
Qed.

Lemma for_each_modify {A} (l : list A) (g : A -> App -> App) : forall s,
  for_each l (fun x => modify (g x)) s = (inr tt, fold_left (fun s x => g x s) l s).
Proof. induction l as [|x l IH]; intros s; simpl; [done|]. unfold bind. simpl. apply IH. Qed.

Lemma fold_delete_tree ids : forall s,
  fold_left (fun s i => set_tree (tv_delete i (tree s)) s) ids s =
  set_tree (delete_all ids (tree s)) s.
Proof.
  induction ids as [|i ids IH]; intros s; simpl.
  - by destruct s.
  - rewrite IH. by destruct s.
Qed.

(** After the first part of [search_processes] the widget is empty and no
    item id is remembered; the id counter is where it was. *)
Lemma clear_view_run s :
  exists sel, clear_view s = (inr tt, showing [] ∅ (tv_next (tree s)) sel s).
Proof.
  exists (tv_selection (delete_all (tv_get_children (tree s)) (tree s))).
  unfold clear_view, bind, gets. rewrite for_each_modify, fold_delete_tree.
  unfold modify, showing. simpl. f_equal.
  pose proof (delete_all_children (tree s)) as Hnil.
  pose proof (delete_all_next (tv_get_children (tree s)) (tree s)) as Hnext.
  destruct (delete_all (tv_get_children (tree s)) (tree s)) as [items next sel].
  simpl in *. subst. by destruct s.
Qed.

Lemma for_each_ext {A} (f g : A -> M unit) (l : list A) :
  (forall x s, f x s = g x s) -> forall s, for_each l f s = for_each l g s.
Proof.
  intros Hfg. induction l as [|x l IH]; intros s; simpl; [done|].
  unfold bind. rewrite Hfg. destruct (g x s) as [[e|[]] s']; [done | apply IH].
Qed.

(** [search_processes] empties the view and then hands the records that pass
    the test [matches], in table order, to [_insert_process_to_treeview]. *)
Lemma search_processes_clear_then_insert s :
  search_processes s =
  (clear_view ;;
   data <- gets process_data ;;
   for_each data
     (fun e => if matches (search_entry s) (snd e)
               then _insert_process_to_treeview (fst e) (snd e)
               else ret tt)) s.
Proof.
  unfold search_processes, clear_view, bind, gets, modify; simpl.
  destruct (for_each (tv_get_children (tree s)) _ s) as [[e|[]] s1]; [done|].
  apply for_each_ext. by intros [pid info] s2.
Qed.


(** *** Two-level forests *)

Lemma leaf_rows d parent (kids : list (ItemId * Values)) :
  flat_map (item_rows d parent) (map leaf kids) =
  map (fun k => values_row k d parent) (map snd kids).
Proof. induction kids as [|k kids IH]; simpl; [done|]. by rewrite IH. Qed.

Lemma rows_shape (l : list Tagged) :
  flat_map (item_rows 0 None) (shape l) = placed_rows (erase l).
Proof.
  induction l as [|x l IH]; [done|].
  change (item_rows 0 None (shape1 x) ++ flat_map (item_rows 0 None) (shape l) =
          (values_row (t_values x) 0 None
           :: map (fun k => values_row k 1 (Some (v_pid (t_values x)))) (map snd (t_kids x)))
          ++ placed_rows (erase l)).
  rewrite IH. f_equal. unfold shape1. cbn [item_rows]. by rewrite leaf_rows.
Qed.

Lemma shape_app l1 l2 : shape (l1 ++ l2) = shape l1 ++ shape l2.
Proof. apply map_app. Qed.

Lemma erase_app l1 l2 : erase (l1 ++ l2) = erase l1 ++ erase l2.
Proof. apply map_app. Qed.

Lemma all_ids_app l1 l2 : all_ids (l1 ++ l2) = all_ids l1 ++ all_ids l2.
Proof. apply flat_map_app. Qed.

Lemma root_tags_app l1 l2 : root_tags (l1 ++ l2) = root_tags l1 ++ root_tags l2.
Proof. apply map_app. Qed.

Lemma root_pids_erase l : root_pids (erase l) = map t_pid l.
Proof. unfold root_pids, erase. rewrite map_map. reflexivity. Qed.

Lemma root_id_in_all_ids p (l : list Tagged) : p ∈ map t_id l -> p ∈ all_ids l.
Proof.
  induction l as [|x l IH]; simpl; [done|].
  intros [->|H]%elem_of_cons; [apply list_elem_of_here|].
  apply list_elem_of_further, elem_of_app. right. by apply IH.
Qed.

Lemma insert_under_leaves p new (kids : list (ItemId * Values)) :
  p ∉ map fst kids -> first_update (insert_under p new) (map leaf kids) = None.
Proof.
  induction kids as [|[i v] kids IH]; simpl; [done|].
  intros H. apply not_elem_of_cons in H as [Hne H].
  destruct (Nat.eqb_spec i p) as [->|_]; [done|]. by rewrite IH.
Qed.

Lemma first_update_shape p k (l : list Tagged) :
  p ∈ map t_id l -> NoDup (all_ids l) ->
  first_update (insert_under p (leaf k)) (shape l) = Some (shape (add_kid_id p k l)).
Proof.
  induction l as [|x l IH]; simpl; [by intros ?%elem_of_nil|].
  intros Hin Hnd. destruct (Nat.eqb_spec (t_id x) p) as [Heq|Hne].
  - simpl. do 2 f_equal. unfold shape1; simpl. by rewrite map_app.
  - apply elem_of_cons in Hin as [?|Hin]; [congruence|].
    apply NoDup_cons in Hnd as [_ Hnd]. apply NoDup_app in Hnd as (_ & Hdisj & Hnd).
    rewrite insert_under_leaves.
    + by rewrite IH.
    + intros Hkid. apply (Hdisj p Hkid). by apply root_id_in_all_ids.
Qed.

Lemma all_ids_add_kid p k (l : list Tagged) :
  p ∈ map t_id l -> all_ids (add_kid_id p k l) ≡ₚ fst k :: all_ids l.
Proof.
  induction l as [|x l IH]; simpl; [by intros ?%elem_of_nil|].
  intros Hin. destruct (Nat.eqb_spec (t_id x) p) as [Heq|Hne]; simpl.
  - rewrite map_app. simpl. rewrite <- app_assoc. simpl.
    rewrite <- Permutation_middle. apply perm_swap.
  - apply elem_of_cons in Hin as [?|Hin]; [congruence|].
    rewrite (IH Hin). rewrite <- Permutation_middle. apply perm_swap.
Qed.

Lemma root_tags_add_kid p k (l : list Tagged) :
  root_tags (add_kid_id p k l) = root_tags l.
Proof.
  induction l as [|x l IH]; simpl; [done|].
  destruct (Nat.eqb (t_id x) p); simpl; [done|]. by rewrite IH.
Qed.

Lemma pids_add_kid p k (l : list Tagged) :
  map t_pid (add_kid_id p k l) = map t_pid l.
Proof.
  induction l as [|x l IH]; simpl; [done|].
  destruct (Nat.eqb (t_id x) p); simpl; [done|]. by rewrite IH.
Qed.

Lemma erase_add_kid p pp k (l : list Tagged) :
  (forall x, x ∈ l -> t_id x = p <-> t_pid x = pp) ->
  erase (add_kid_id p k l) = add_kid pp (snd k) (erase l).
Proof.
  induction l as [|x l IH]; simpl; [done|]. intros H.
  fold (t_pid x).
  destruct (Nat.eqb_spec (t_id x) p) as [Heq|Hne];
    destruct (Z.eqb_spec (t_pid x) pp) as [Heq'|Hne']; simpl.
  - unfold erase1. simpl. by rewrite map_app.
  - destruct Hne'. apply H; [apply list_elem_of_here | done].
  - destruct Hne. apply H; [apply list_elem_of_here | done].
  - rewrite IH; [done|]. intros y Hy. apply H. by apply list_elem_of_further.
Qed.

Lemma root_tags_elem pid id (l : list Tagged) :
  (pid, id) ∈ root_tags l <-> exists x, x ∈ l /\ t_pid x = pid /\ t_id x = id.
Proof.
  unfold root_tags. rewrite list_elem_of_fmap. split.
  - intros (x & [= -> ->] & Hx). eauto.
  - intros (x & Hx & <- & <-). eauto.
Qed.

Lemma NoDup_map_eq {A B} (f : A -> B) (l : list A) x y :
  NoDup (map f l) -> x ∈ l -> y ∈ l -> f x = f y -> x = y.
Proof.
  induction l as [|a l IH]; simpl; [by intros _ ?%elem_of_nil|].
  intros [Hnot Hnd]%NoDup_cons [->|Hx]%elem_of_cons [->|Hy]%elem_of_cons Hf.
  - done.
  - destruct Hnot. rewrite Hf. by apply (list_elem_of_fmap_2 f).
  - destruct Hnot. rewrite <- Hf. by apply (list_elem_of_fmap_2 f).
  - by apply IH.
Qed.

Lemma root_ids_NoDup (l : list Tagged) : NoDup (all_ids l) -> NoDup (map t_id l).
Proof.
  induction l as [|x l IH]; simpl; [constructor|].
  intros [Hnot Hnd]%NoDup_cons. apply NoDup_app in Hnd as (_ & _ & Hnd).
  apply NoDup_cons. split; [|by apply IH].
  intros Hin. apply Hnot, elem_of_app. right. by apply root_id_in_all_ids.
Qed.

(** *** One round of the insertion loop *)

Lemma view_inv_empty n : view_inv [] ∅ n.
Proof.
  repeat split; simpl; try constructor.
  - by rewrite lookup_empty.
  - by intros ?%elem_of_nil.
Qed.

Lemma view_inv_add_root l ti n pid v :
  view_inv l ti n -> v_pid v = pid -> pid ∉ map t_pid l ->
  view_inv (l ++ [{| t_id := n; t_values := v; t_kids := [] |}]) (<[pid := n]> ti) (S n).
Proof.
  intros (Hids & Hlt & Hpids & Hti) Hv Hfresh. repeat split.
  - rewrite all_ids_app. simpl. apply NoDup_app. repeat split; [done| |apply NoDup_singleton].
    intros i Hi ->%list_elem_of_singleton.
    rewrite Forall_forall in Hlt. specialize (Hlt _ Hi). lia.
  - rewrite all_ids_app. apply Forall_app. split.
    + eapply Forall_impl; [exact Hlt|]. simpl. lia.
    + repeat constructor.
  - rewrite map_app. simpl. unfold t_pid at 2. simpl. rewrite Hv.
    apply NoDup_app. repeat split; [done| |apply NoDup_singleton].
    by intros q Hq ->%list_elem_of_singleton.
  - rewrite root_tags_app, elem_of_app. simpl. unfold t_pid at 1. simpl. rewrite Hv.
    rewrite list_elem_of_singleton. rewrite lookup_insert. case_decide as Hq.
    + subst pid0. intros [= <-]. by right.
    + intros H. left. by apply Hti.
  - rewrite root_tags_app, elem_of_app. simpl. unfold t_pid at 1. simpl. rewrite Hv.
    rewrite list_elem_of_singleton. rewrite lookup_insert. case_decide as Hq.
    + subst pid0. intros [H|H]; [|by simplify_eq].
      destruct Hfresh. apply root_tags_elem in H as (x & Hx & <- & _).
      by apply (list_elem_of_fmap_2 t_pid).
    + intros [H|H]; [by apply Hti | by simplify_eq].
Qed.

Lemma view_inv_add_kid l ti n p v :
  view_inv l ti n -> p ∈ map t_id l ->
  view_inv (add_kid_id p (n, v) l) ti (S n).
Proof.
  intros (Hids & Hlt & Hpids & Hti) Hp.
  assert (Hfresh : n ∉ all_ids l).
  { intros Hn. rewrite Forall_forall in Hlt. specialize (Hlt _ Hn). lia. }
  repeat split.
  - rewrite (all_ids_add_kid p (n, v) l Hp). simpl. by apply NoDup_cons.
  - rewrite (all_ids_add_kid p (n, v) l Hp). simpl. apply Forall_cons. split; [lia|].
    eapply Forall_impl; [exact Hlt|]. simpl. lia.
  - by rewrite pids_add_kid.
  - rewrite root_tags_add_kid. apply Hti.
  - rewrite root_tags_add_kid. apply Hti.
Qed.

(** The remembered item of a pid is the top-level row of that pid. *)
Lemma view_inv_lookup l ti n pp p :
  view_inv l ti n -> ti !! pp = Some p ->
  p ∈ map t_id l /\ (forall x, x ∈ l -> t_id x = p <-> t_pid x = pp).
Proof.
  intros (Hids & _ & _ & Hti) Hlook.
  apply Hti, root_tags_elem in Hlook as (x0 & Hx0 & Hpid0 & Hid0).
  split.
  - rewrite <- Hid0. by apply (list_elem_of_fmap_2 t_id).
  - intros x Hx. split.
    + intros Hid. rewrite <- Hid0 in Hid.
      by rewrite (NoDup_map_eq t_id l x x0 (root_ids_NoDup l Hids) Hx Hx0 Hid).
    + intros Hpid.
      assert (H1 : ti !! pp = Some (t_id x))
        by (apply Hti, root_tags_elem; eauto).
      assert (H2 : ti !! pp = Some p)
        by (apply Hti, root_tags_elem; eauto).
      congruence.
Qed.

Lemma view_inv_root_test l ti n pp :
  view_inv l ti n ->
  existsb (Z.eqb pp) (root_pids (erase l)) = true <-> is_Some (ti !! pp).
Proof.
  intros (_ & _ & _ & Hti). rewrite root_pids_erase, existsb_exists. split.
  - intros (q & Hq & ->%Z.eqb_eq). apply list_elem_of_In, list_elem_of_fmap in Hq
      as (x & -> & Hx).
    exists (t_id x). apply Hti, root_tags_elem. eauto.
  - intros [p Hp]. apply Hti, root_tags_elem in Hp as (x & Hx & <- & _).
    exists (t_pid x). split; [|apply Z.eqb_refl].
    by apply list_elem_of_In, (list_elem_of_fmap_2 t_pid).
Qed.

Lemma showing_fields l ti n sel s :
  process_data (showing l ti n sel s) = process_data s /\
  children_visible (showing l ti n sel s) = children_visible s /\
  search_entry (showing l ti n sel s) = search_entry s /\
  trace (showing l ti n sel s) = trace s /\
  tree_items (showing l ti n sel s) = ti /\
  tree (showing l ti n sel s) = {| tv_items := shape l; tv_next := n; tv_selection := sel |}.
Proof. done. Qed.

(** One call of [_insert_process_to_treeview] on a record that passed the
    search test extends the layout by [place]. *)
Lemma insert_run l ti n sel s term pid info :
  view_inv l ti n -> pid ∉ map t_pid l -> matches term info = true ->
  exists l' ti' n',
    _insert_process_to_treeview pid info (showing l ti n sel s) =
      (inr tt, showing l' ti' n' sel s) /\
    view_inv l' ti' n' /\
    erase l' = place (process_data s) term (children_visible s) (erase l) (pid, info) /\
    (forall q, q ∈ map t_pid l' -> q = pid \/ q ∈ map t_pid l).
Proof.
  intros Hinv Hfresh Hmatch.
  assert (Hroot : exists l' ti' n',
    (item <- tree_insert None (values_of pid info) ;; remember_item pid item)
      (showing l ti n sel s) = (inr tt, showing l' ti' n' sel s) /\
    view_inv l' ti' n' /\
    erase l' = erase l ++ [(values_of pid info, [])] /\
    (forall q, q ∈ map t_pid l' -> q = pid \/ q ∈ map t_pid l)).
  { exists (l ++ [{| t_id := n; t_values := values_of pid info; t_kids := [] |}]),
           (<[pid := n]> ti), (S n).
    split; [|split; [|split]].
    - unfold bind, tree_insert, remember_item, modify, showing. simpl.
      by rewrite shape_app.
    - by apply view_inv_add_root.
    - by rewrite erase_app.
    - intros q. rewrite map_app, elem_of_app. simpl. rewrite list_elem_of_singleton.
      intros [?|?]; [by right | by left]. }
  unfold _insert_process_to_treeview, place. simpl. rewrite Hmatch.
  unfold try_except. unfold bind at 1. unfold gets at 1.
  destruct (showing_fields l ti n sel s) as (-> & Hvis & _ & _ & Hitems & Htree).
  fold (display_root (process_data s) info).
  destruct (display_root (process_data s) info).
  - destruct Hroot as (l' & ti' & n' & -> & ? & ? & ?). eauto 10.
  - unfold bind at 1. unfold gets at 1. rewrite Hvis.
    destruct (children_visible s).
    + unfold bind at 1. unfold gets at 1. rewrite Hitems.
      pose proof (view_inv_root_test l ti n (ppid info) Hinv) as Htest.
      destruct (ti !! ppid info) as [p|] eqn:Hlook.
      * destruct (view_inv_lookup l ti n (ppid info) p Hinv Hlook) as [Hp Hsame].
        exists (add_kid_id p (n, values_of pid info) l), ti, (S n).
        split; [|split; [|split]].
        -- unfold bind, tree_insert. rewrite Htree. unfold tv_insert. simpl.
           change (Node n (values_of pid info) []) with (leaf (n, values_of pid info)).
           rewrite first_update_shape; [done | done | apply Hinv].
        -- by apply view_inv_add_kid.
        -- rewrite (proj2 Htest) by eauto.
           by apply (erase_add_kid p (ppid info) (n, values_of pid info)).
        -- intros q. rewrite pids_add_kid. by right.
      * assert (Hex : existsb (Z.eqb (ppid info)) (root_pids (erase l)) = false).
        { apply not_true_iff_false. rewrite Htest. by intros [? ?]. }
        rewrite Hex.
        destruct Hroot as (l' & ti' & n' & -> & ? & ? & ?). eauto 10.
    + exists l, ti, n. split; [done|]. split; [done|]. split; [done|]. by right.
Qed.

(** *** The whole loop *)

Lemma layout_snoc d term show pre e :
  layout d term show (pre ++ [e]) = place d term show (layout d term show pre) e.
Proof. unfold layout. by rewrite fold_left_app. Qed.

Lemma keys_app (d1 d2 : ProcessTable) : keys (d1 ++ d2) = keys d1 ++ keys d2.
Proof. apply map_app. Qed.

Lemma insert_loop term sel s rest : forall pre l ti n,
  NoDup (keys (pre ++ rest)) ->
  view_inv l ti n ->
  (forall q, q ∈ map t_pid l -> q ∈ keys pre) ->
  erase l = layout (process_data s) term (children_visible s) pre ->
  exists l' ti' n',
    for_each rest
      (fun e => if matches term (snd e)
                then _insert_process_to_treeview (fst e) (snd e)
                else ret tt)
      (showing l ti n sel s) = (inr tt, showing l' ti' n' sel s) /\
    view_inv l' ti' n' /\
    erase l' = layout (process_data s) term (children_visible s) (pre ++ rest).
Proof.
  induction rest as [|[pid info] rest IH]; intros pre l ti n Hnd Hinv Hsub Herase.
  - exists l, ti, n. by rewrite app_nil_r.
  - assert (Hnd' : NoDup (keys ((pre ++ [(pid, info)]) ++ rest)))
      by (by rewrite <- app_assoc).
    assert (Hfresh : pid ∉ map t_pid l).
    { intros Hin%Hsub. rewrite keys_app in Hnd. simpl in Hnd.
      apply NoDup_app in Hnd as (_ & Hdisj & _).
      apply (Hdisj pid Hin), list_elem_of_here. }
    simpl. destruct (matches term info) eqn:Hmatch.
    + destruct (insert_run l ti n sel s term pid info Hinv Hfresh Hmatch)
        as (l1 & ti1 & n1 & Hrun & Hinv1 & Herase1 & Hsub1).
      unfold bind. rewrite Hrun.
      destruct (IH (pre ++ [(pid, info)]) l1 ti1 n1 Hnd' Hinv1)
        as (l' & ti' & n' & Hloop & Hinv' & Herase').
      * intros q [->|Hq]%Hsub1; rewrite keys_app, elem_of_app; simpl.
        -- right. apply list_elem_of_here.
        -- left. by apply Hsub.
      * by rewrite layout_snoc, Herase1, Herase.
      * exists l', ti', n'. by rewrite <- app_assoc in Herase'.
    + unfold bind. simpl.
      destruct (IH (pre ++ [(pid, info)]) l ti n Hnd' Hinv)
        as (l' & ti' & n' & Hloop & Hinv' & Herase').
      * intros q Hq%Hsub. rewrite keys_app, elem_of_app. by left.
      * rewrite layout_snoc. unfold place. simpl. by rewrite Hmatch.
      * exists l', ti', n'. by rewrite <- app_assoc in Herase'.
Qed.

(** [search_processes] returns with the widget showing the layout of the
    whole table. *)
Lemma search_processes_layout s :
  NoDup (keys (process_data s)) ->
  exists l ti n sel,
    search_processes s = (inr tt, showing l ti n sel s) /\
    view_inv l ti n /\
    erase l = layout (process_data s) (search_entry s) (children_visible s) (process_data s).
Proof.
  intros Hnd. rewrite search_processes_clear_then_insert.
  destruct (clear_view_run s) as [sel Hclear].
  unfold bind at 1. rewrite Hclear. unfold bind, gets. simpl.
  destruct (insert_loop (search_entry s) sel s (process_data s) []
              [] ∅ (tv_next (tree s)) Hnd (view_inv_empty _))
    as (l & ti & n & Hloop & Hinv & Herase); [by intros ? ?%elem_of_nil | done |].
  exists l, ti, n, sel. eauto.
Qed.

Lemma render_rows_layout s :
  NoDup (keys (process_data s)) ->
  render_rows s =
  placed_rows (layout (process_data s) (search_entry s) (children_visible s)
                 (process_data s)).
Proof.
  intros Hnd. destruct (search_processes_layout s Hnd) as (l & ti & n & sel & Hrun & _ & <-).
  unfold render_rows. rewrite Hrun. apply rows_shape.
Qed.

(** A table without repeated keys is rendered without an exception. *)
Lemma search_processes_returns s :
  NoDup (keys (process_data s)) -> returned (search_processes s) = true.
Proof.
  intros Hnd. by destruct (search_processes_layout s Hnd) as (l & ti & n & sel & -> & _).
Qed.

(** A refresh renders the view anew and records its timing. *)
Lemma refresh_processes_run s :
  NoDup (keys (process_data s)) ->
  refresh_processes s =
  (inr tt, add_events [refresh_event] (state_after (search_processes s))).
Proof.
  intros Hnd. unfold refresh_processes, bind.
  destruct (returned_inv _ (search_processes_returns s Hnd)) as ([] & s' & ->).
  reflexivity.
Qed.

(** A refresh writes nothing to the log but its timing record. *)
Lemma search_processes_trace s :
  NoDup (keys (process_data s)) ->
  trace (state_after (search_processes s)) = trace s.
Proof.
  intros Hnd. destruct (search_processes_layout s Hnd) as (l & ti & n & sel & -> & _).
  reflexivity.
Qed.

(** ** The layout *)

Lemma placed_rows_app af1 af2 :
  placed_rows (af1 ++ af2) = placed_rows af1 ++ placed_rows af2.
Proof. apply flat_map_app. Qed.

Lemma placed_rows_add_kid p v (af : list Placed) :
  existsb (Z.eqb p) (root_pids af) = true ->
  placed_rows (add_kid p v af) ≡ₚ placed_rows af ++ [values_row v 1 (Some p)].
Proof.
  induction af as [|[r kids] af IH]; simpl; [discriminate|].
  rewrite Z.eqb_sym. destruct (Z.eqb_spec (v_pid r) p) as [Heq|Hne]; simpl.
  - intros _. subst p. rewrite map_app. simpl. rewrite <- !app_assoc. simpl.
    apply perm_skip. apply Permutation_app_head.
    change (values_row v 1 (Some (v_pid r)) :: placed_rows af)
      with ([values_row v 1 (Some (v_pid r))] ++ placed_rows af).
    apply Permutation_app_comm.
  - intros H. rewrite (IH H). by rewrite <- !app_assoc.
Qed.

(** One round of the loop adds the row it emits and keeps the others. *)
Lemma place_rows d term show af e :
  placed_rows (place d term show af e) ≡ₚ
  placed_rows af ++ option_list (emitted_row d term show af e).
Proof.
  unfold place, emitted_row.
  destruct (matches term (snd e)); [|by rewrite app_nil_r].
  destruct (display_root d (snd e)); [by rewrite placed_rows_app|].
  destruct show; [|by rewrite app_nil_r].
  destruct (existsb _ _) eqn:E; [|by rewrite placed_rows_app].
  by rewrite placed_rows_add_kid.
Qed.

Lemma layout_rows_snoc d term show pre e :
  placed_rows (layout d term show (pre ++ [e])) ≡ₚ
  placed_rows (layout d term show pre) ++
  option_list (emitted_row d term show (layout d term show pre) e).
Proof. rewrite layout_snoc. apply place_rows. Qed.

Lemma emitted_row_source d term show af e r :
  emitted_row d term show af e = Some r ->
  row_pid r = fst e /\ row_name r = name (snd e) /\ matches term (snd e) = true.
Proof.
  unfold emitted_row. destruct (matches term (snd e)); [|discriminate].
  destruct (display_root d (snd e)); [by intros [= <-]|].
  destruct show; [|discriminate].
  destruct (existsb _ _); by intros [= <-].
Qed.

(** Rows stay on display while the loop goes on. *)
Lemma layout_rows_mono d term show r more : forall pre,
  r ∈ placed_rows (layout d term show pre) ->
  r ∈ placed_rows (layout d term show (pre ++ more)).
Proof.
  induction more as [|e more IH] using rev_ind; intros pre Hr.
  - by rewrite app_nil_r.
  - rewrite app_assoc, layout_rows_snoc, elem_of_app. left. by apply IH.
Qed.

(** Every row shows a record of the table that passes the search test. *)
Lemma layout_rows_source d term show pre : forall r,
  r ∈ placed_rows (layout d term show pre) ->
  exists info, (row_pid r, info) ∈ pre /\ row_name r = name info /\
               matches term info = true.
Proof.
  induction pre as [|e pre IH] using rev_ind; intros r.
  - by intros ?%elem_of_nil.
  - rewrite layout_rows_snoc, elem_of_app. intros [Hr|Hr].
    + destruct (IH r Hr) as (info & Hin & ?). exists info.
      split; [|done]. apply elem_of_app. by left.
    + destruct (emitted_row _ _ _ _ e) as [r'|] eqn:E; simpl in Hr;
        [|by apply elem_of_nil in Hr].
      apply list_elem_of_singleton in Hr as ->.
      destruct (emitted_row_source _ _ _ _ _ _ E) as (Hpid & Hname & Hm).
      exists (snd e). split; [|done]. apply elem_of_app. right.
      rewrite Hpid. destruct e. apply list_elem_of_here.
Qed.

(** With unique keys no process is shown twice. *)
Lemma layout_rows_NoDup d term show pre :
  NoDup (keys pre) -> NoDup (map row_pid (placed_rows (layout d term show pre))).
Proof.
  induction pre as [|e pre IH] using rev_ind; intros Hnd; [constructor|].
  rewrite keys_app in Hnd. apply NoDup_app in Hnd as (Hpre & Hdisj & _).
  change (map row_pid) with (fmap (M := list) row_pid).
  rewrite layout_rows_snoc, fmap_app. apply NoDup_app. split; [by apply IH|]. split.
  - intros q Hq Hq'.
    apply list_elem_of_fmap in Hq as (r & -> & Hr).
    apply layout_rows_source in Hr as (info & Hin & _).
    destruct (emitted_row _ _ _ _ e) as [r'|] eqn:E; simpl in Hq';
      [|by apply elem_of_nil in Hq'].
    apply list_elem_of_singleton in Hq'.
    destruct (emitted_row_source _ _ _ _ _ _ E) as (Hpid & _).
    apply (Hdisj (row_pid r)).
    + by apply (list_elem_of_fmap_2 fst) in Hin.
    + simpl. rewrite Hq', Hpid. apply list_elem_of_here.
  - destruct (emitted_row _ _ _ _ e); simpl; [apply NoDup_singleton | constructor].
Qed.

(** The top-level rows are those at depth 0, and they hang under nothing. *)
Lemma root_pids_rows p (af : list Placed) :
  p ∈ root_pids af <->
  exists r, r ∈ placed_rows af /\ row_pid r = p /\ row_depth r = 0%nat.
Proof.
  induction af as [|[v kids] af IH]; simpl.
  - split; [by intros ?%elem_of_nil | by intros (r & ?%elem_of_nil & _)].
  - rewrite elem_of_cons, IH. split.
    + intros [->|(r & Hr & ?)].
      * exists (values_row v 0 None). split; [apply list_elem_of_here | done].
      * exists r. split; [|done]. apply list_elem_of_further, elem_of_app. by right.
    + intros (r & Hr & Hpid & Hdepth).
      apply elem_of_cons in Hr as [->|Hr]; [by left|].
      apply elem_of_app in Hr as [Hr|Hr]; [|right; eauto].
      apply list_elem_of_fmap in Hr as (k & -> & _). discriminate.
Qed.

Lemma placed_rows_depth (af : list Placed) r :
  r ∈ placed_rows af ->
  (row_depth r = 0%nat /\ row_parent r = None) \/
  (row_depth r = 1%nat /\ exists p, row_parent r = Some p /\ p ∈ root_pids af).
Proof.
  induction af as [|[v kids] af IH]; simpl; [by intros ?%elem_of_nil|].
  intros [->|Hr]%elem_of_cons; [by left|].
  apply elem_of_app in Hr as [Hr|Hr].
  - apply list_elem_of_fmap in Hr as (k & -> & _). right. split; [done|].
    exists (v_pid v). split; [done | apply list_elem_of_here].
  - destruct (IH Hr) as [?|(? & p & ? & ?)]; [by left|].
    right. split; [done|]. exists p. split; [done | by apply list_elem_of_further].
Qed.

(** *** Children hidden *)

Lemma layout_flat d term pre :
  layout d term false pre =
  map (fun e => (values_of (fst e) (snd e), []))
      (List.filter (fun e => matches term (snd e) && display_root d (snd e)) pre).
Proof.
  induction pre as [|e pre IH] using rev_ind; [done|].
  rewrite layout_snoc, IH, List.filter_app, map_app. unfold place. simpl.
  destruct (matches term (snd e)); simpl; [|by rewrite app_nil_r].
  destruct (display_root d (snd e)); simpl; [done | by rewrite app_nil_r].
Qed.

Lemma placed_rows_flat (l : ProcessTable) :
  placed_rows (map (fun e => (values_of (fst e) (snd e), [])) l) =
  map (fun e => row_of (fst e) (snd e) 0 None) l.
Proof. induction l as [|e l IH]; simpl; [done|]. by rewrite IH. Qed.

(** With the children hidden the view lists the matching display roots, in
    table order. *)
Lemma render_rows_flat s :
  NoDup (keys (process_data s)) -> children_visible s = false ->
  render_rows s =
  map (fun e => row_of (fst e) (snd e) 0 None)
      (List.filter (fun e => matches (search_entry s) (snd e)
                             && display_root (process_data s) (snd e))
         (process_data s)).
Proof.
  intros Hnd Hvis. rewrite (render_rows_layout s Hnd), Hvis, layout_flat.
  apply placed_rows_flat.
Qed.

(** *** Children shown *)

Lemma count_rows_none pid (rows : list Row) :
  (forall r, r ∈ rows -> row_pid r <> pid) -> count_rows pid rows = 0%nat.
Proof.
  intros H. unfold count_rows. rewrite filter_none; [done|].
  intros r Hr%list_elem_of_In. apply Z.eqb_neq. by apply H.
Qed.

Lemma count_rows_one (rows : list Row) r :
  NoDup (map row_pid rows) -> r ∈ rows -> count_rows (row_pid r) rows = 1%nat.
Proof.
  induction rows as [|a rows IH]; simpl; [by intros _ ?%elem_of_nil|].
  intros [Hnot Hnd]%NoDup_cons Hr. unfold count_rows. simpl.
  destruct (Z.eqb_spec (row_pid a) (row_pid r)) as [Heq|Hne]; simpl.
  - f_equal. apply count_rows_none. intros r' Hr' Hpid. apply Hnot.
    rewrite Heq, <- Hpid. by apply (list_elem_of_fmap_2 row_pid).
  - apply elem_of_cons in Hr as [->|Hr]; [done|]. by apply IH.
Qed.

(** With the children shown, the round of a matching record emits a row. *)
Lemma emitted_row_shown d term af pid info :
  matches term info = true ->
  emitted_row d term true af (pid, info) =
  Some (if display_root d info || negb (existsb (Z.eqb (ppid info)) (root_pids af))
        then row_of pid info 0 None
        else row_of pid info 1 (Some (ppid info))).
Proof.
  intros Hm. unfold emitted_row. simpl. rewrite Hm.
  destruct (display_root d info); [done|]. by destruct (existsb _ _).
Qed.

Lemma layout_rows_has d term pre pid info :
  (pid, info) ∈ pre -> matches term info = true ->
  exists r, r ∈ placed_rows (layout d term true pre) /\ row_pid r = pid.
Proof.
  intros (p1 & p2 & ->)%list_elem_of_split Hm.
  pose proof (emitted_row_shown d term (layout d term true p1) pid info Hm) as E.
  eexists. split.
  - rewrite (cons_middle _ p1 p2), app_assoc. apply layout_rows_mono.
    rewrite layout_rows_snoc, E, elem_of_app. right. apply list_elem_of_here.
  - by destruct (_ || _).
Qed.

Lemma display_root_false d info :
  display_root d info = false <-> ppid info <> 0 /\ ppid info ∈ keys d.
Proof.
  unfold display_root. rewrite orb_false_iff, negb_false_iff, Z.eqb_neq, dict_mem_elem.
  done.
Qed.

Lemma keys_lookup (d : ProcessTable) i pid info :
  d !! i = Some (pid, info) -> pid ∈ keys d.
Proof. intros H. apply (list_elem_of_fmap_2 fst _ (pid, info)). by eapply list_elem_of_lookup_2. Qed.

Lemma NoDup_keys_same (d : ProcessTable) pid info1 info2 :
  NoDup (keys d) -> (pid, info1) ∈ d -> (pid, info2) ∈ d -> info1 = info2.
Proof.
  intros Hnd H1 H2.
  assert (H : (pid, info1) = (pid, info2))
    by (by apply (NoDup_map_eq fst d _ _ Hnd H1 H2)).
  congruence.
Qed.

Lemma NoDup_keys_index (d : ProcessTable) i j pid info1 info2 :
  NoDup (keys d) -> d !! i = Some (pid, info1) -> d !! j = Some (pid, info2) -> i = j.
Proof.
  intros Hnd Hi Hj. eapply NoDup_lookup; [exact Hnd | |].
  - unfold keys. change (map fst d) with (fst <$> d). by rewrite list_lookup_fmap, Hi.
  - unfold keys. change (map fst d) with (fst <$> d). by rewrite list_lookup_fmap, Hj.
Qed.

(** With the children shown: where the row of the [i]-th record goes. *)
Lemma nested_rows_spec d term i pid info :
  NoDup (keys d) -> d !! i = Some (pid, info) -> matches term info = true ->
  let rows := placed_rows (layout d term true d) in
  let above :=
    ppid info <> 0 /\
    exists j pinfo, (j < i)%nat /\ d !! j = Some (ppid info, pinfo) /\
                    row_of (ppid info) pinfo 0 None ∈ rows in
  count_rows pid rows = 1%nat /\
  (above -> row_of pid info 1 (Some (ppid info)) ∈ rows) /\
  (~ above -> row_of pid info 0 None ∈ rows).
Proof.
  intros Hnd Hi Hm rows above.
  pose proof (take_drop_middle d i _ Hi) as Hd.
  set (pre := take i d) in *. set (post := drop (S i) d) in *.
  set (af := layout d term true pre).
  set (r := if display_root d info || negb (existsb (Z.eqb (ppid info)) (root_pids af))
            then row_of pid info 0 None
            else row_of pid info 1 (Some (ppid info))).
  assert (Hmono : forall r', r' ∈ placed_rows (layout d term true pre) -> r' ∈ rows).
  { intros r' Hr'. subst rows. rewrite <- Hd at 2. by apply layout_rows_mono. }
  assert (Hr : r ∈ rows).
  { subst rows. rewrite <- Hd at 2. rewrite (cons_middle _ pre post), app_assoc.
    apply layout_rows_mono. rewrite layout_rows_snoc, (emitted_row_shown _ _ _ _ _ Hm).
    apply elem_of_app. right. apply list_elem_of_here. }
  assert (Hrows : NoDup (map row_pid rows)) by (by apply layout_rows_NoDup).
  assert (Hrpid : row_pid r = pid) by (subst r; by destruct (_ || _)).
  assert (Habove : above <->
            display_root d info = false /\
            existsb (Z.eqb (ppid info)) (root_pids af) = true).
  { subst above. split.
    - intros (Hnz & j & pinfo & Hlt & Hj & Hrow). split.
      + apply display_root_false. split; [done | by eapply keys_lookup].
      + apply existsb_exists. exists (ppid info). split; [|apply Z.eqb_refl].
        apply list_elem_of_In, root_pids_rows.
        assert (Hpre : (ppid info, pinfo) ∈ pre)
          by (apply elem_of_take; eauto).
        destruct (layout_rows_source _ _ _ _ _ Hrow) as (info' & Hin' & _ & Hm').
        simpl in Hin'.
        assert (info' = pinfo) as ->.
        { apply (NoDup_keys_same d (ppid info)); [done | done |].
          by eapply list_elem_of_lookup_2. }
        destruct (layout_rows_has d term pre _ _ Hpre Hm') as (r' & Hr' & Hpid').
        assert (r' = row_of (ppid info) pinfo 0 None) as ->.
        { apply (NoDup_map_eq row_pid rows); auto. }
        exists (row_of (ppid info) pinfo 0 None). done.
    - intros [[Hnz Hkey]%display_root_false Hex]. split; [done|].
      apply existsb_exists in Hex as (q & Hq & <-%Z.eqb_eq).
      apply list_elem_of_In, root_pids_rows in Hq as (r' & Hr' & Hpid' & Hdepth').
      destruct (layout_rows_source _ _ _ _ _ Hr') as (pinfo & Hin & Hname & _).
      rewrite Hpid' in Hin.
      apply elem_of_take in Hin as (j & Hj & Hlt).
      exists j, pinfo. split; [done|]. split; [done|].
      assert (r' = row_of (ppid info) pinfo 0 None) as <-; [|by apply Hmono].
      destruct (placed_rows_depth _ _ Hr') as [[_ Hparent]|[? _]]; [|congruence].
      destruct r'; simpl in *. unfold row_of. congruence. }
  split; [|split].
  - rewrite <- Hrpid. by apply count_rows_one.
  - intros [Hroot Hex]%Habove. subst r. by rewrite Hroot, Hex in Hr.
  - intros Hnot. subst r.
    destruct (display_root d info) eqn:Hroot; [done|].
    destruct (existsb _ _) eqn:Hex; [|done].
    destruct Hnot. by apply Habove.
Qed.

(** ** The search test *)

Example lower_example : lower "Google Chrome [42]" = "google chrome [42]".
Proof. reflexivity. Qed.

Example str_in_examples :
  str_in "chrome" "google chrome" = true /\ str_in "chrome" "chromium" = false /\
  str_in "" "" = true /\ str_in "a" "" = false.
Proof. repeat split. Qed.

Lemma startswith_spec a : forall b,
  startswith a b = true <-> exists post, b = (a ++ post)%string.
Proof.
  induction a as [|c a IH]; intros b; simpl.
  - split; [eauto | done].
  - destruct b as [|c' b].
    + split; [discriminate | by intros (post & ?)].
    + rewrite andb_true_iff, Ascii.eqb_eq, IH. split.
      * intros (-> & post & ->). eauto.
      * intros (post & [= -> ->]). eauto.
Qed.

Lemma str_in_spec a : forall b,
  str_in a b = true <-> exists pre post, b = (pre ++ a ++ post)%string.
Proof.
  induction b as [|c b IH]; simpl.
  - rewrite orb_false_r, startswith_spec. split.
    + intros (post & ->). by exists ""%string, post.
    + intros ([|c pre] & post & H); [eauto | discriminate].
  - rewrite orb_true_iff, startswith_spec, IH. split.
    + intros [(post & ->)|(pre & post & ->)].
      * by exists ""%string, post.
      * by exists (String c pre), post.
    + intros ([|c' pre] & post & H); simpl in H.
      * left. eauto.
      * right. injection H as -> ->. eauto.
Qed.




Lemma render_rows_source s r :
  NoDup (keys (process_data s)) -> r ∈ render_rows s ->
  exists info, (row_pid r, info) ∈ process_data s /\ row_name r = name info /\
               matches (search_entry s) info = true.
Proof.
  intros Hnd. rewrite (render_rows_layout s Hnd). apply layout_rows_source.
Qed.


Lemma render_rows_hidden_count s pid info :
  NoDup (keys (process_data s)) -> children_visible s = false ->
  (pid, info) ∈ process_data s ->
  count_rows pid (render_rows s) =
  if matches (search_entry s) info && display_root (process_data s) info
  then 1%nat else 0%nat.
Proof.
  intros Hnd Hvis Hin.
  pose proof (layout_rows_NoDup (process_data s) (search_entry s) false _ Hnd) as Hrows.
  rewrite (render_rows_layout s Hnd), Hvis in *. rewrite layout_flat, placed_rows_flat in *.
  destruct (matches _ _ && display_root _ _) eqn:Hc.
  - change pid with (row_pid (row_of pid info 0 None)).
    apply count_rows_one; [done|].
    apply (list_elem_of_fmap_2 (fun e => row_of (fst e) (snd e) 0 None) _ (pid, info)).
    apply list_elem_of_In, filter_In. split; [by apply list_elem_of_In | done].
  - apply count_rows_none. intros r Hr Hpid.
    apply list_elem_of_fmap in Hr as ([pid' info'] & -> & Hin').
    apply list_elem_of_In, filter_In in Hin' as [Hin'%list_elem_of_In Hc'].
    simpl in *. subst pid'.
    rewrite (NoDup_keys_same _ _ _ _ Hnd Hin' Hin) in Hc'. congruence.
Qed.

(** ** The view: what the claims say *)

Lemma NoDup_keys_decide (d : ProcessTable) : bool_decide (NoDup (keys d)) = true -> NoDup (keys d).
Proof. intros H. by apply bool_decide_eq_true in H. Qed.

(** C1, as stated, fails: with the children hidden, the child 2 of the
    process 1 passes the (empty) search test and yet has no row. *)
Lemma flat_view_omits_children :
  let d := [proc 1 "init" 0; proc 2 "sh" 1] in
  let s := app_with d "" false in
  NoDup (keys d) /\
  selected (search_entry s) d = d /\
  count_rows 2 (render_rows s) = 0%nat /\
  render_rows s <>
    map (fun e => row_of (fst e) (snd e) 0 None) (selected (search_entry s) d).
Proof.
  intros d s. split; [by apply NoDup_keys_decide|].
  split; [reflexivity|]. split; [by vm_compute|].
  vm_compute. discriminate.
Qed.

(** C1, amended.  With the children hidden, the view is a flat list with one
    row at depth 0 for every process whose name passes the search test and
    whose ppid is 0 or is not a pid of the table, in table order; a matching
    process whose ppid is a non-zero pid of the table has no row. *)
Theorem flat_view_lists_display_roots (s : App) :
  NoDup (keys (process_data s)) -> children_visible s = false ->
  render_rows s =
    map (fun e => row_of (fst e) (snd e) 0 None)
        (List.filter (fun e => matches (search_entry s) (snd e)
                               && display_root (process_data s) (snd e))
           (process_data s)) /\
  (forall pid info, (pid, info) ∈ process_data s ->
     count_rows pid (render_rows s) =
     if matches (search_entry s) info && display_root (process_data s) info
     then 1%nat else 0%nat).
Proof.
  intros Hnd Hvis. split.
  - by apply render_rows_flat.
  - intros pid info. by apply render_rows_hidden_count.
Qed.

Lemma flat_view_lists_display_roots_witness :
  NoDup (keys family) /\ children_visible (app_with family "" false) = false /\
  render_rows (app_with family "" false) =
    map (fun e => row_of (fst e) (snd e) 0 None)
        (List.filter (fun e => matches "" (snd e) && display_root family (snd e)) family).
Proof.
  assert (Hnd : NoDup (keys family)) by (by apply NoDup_keys_decide).
  split; [exact Hnd|]. split; [reflexivity|].
  exact (proj1 (flat_view_lists_display_roots (app_with family "" false) Hnd eq_refl)).
Defined.

(** C4, as stated, fails on its own example: the parent 2 of the process 3 is
    in the table and its row is on display above, and yet 3 is not nested
    under it. *)
Lemma nesting_rule_counterexample :
  let rows := render_rows (app_with family "" true) in
  ~ ((dict_mem 2 family = true /\
      exists j r, (j < 2)%nat /\ rows !! j = Some r /\ row_pid r = 2)
     <->
     (exists r, r ∈ rows /\ row_pid r = 3 /\ row_depth r = 1%nat /\ row_parent r = Some 2)).
Proof.
  intros rows.
  assert (Hrows : rows =
    [row_of 1 (snd (proc 1 "root" 0)) 0 None;
     row_of 2 (snd (proc 2 "child" 1)) 1 (Some 1);
     row_of 3 (snd (proc 3 "grandchild" 2)) 0 None]) by (by vm_compute).
  rewrite Hrows. clear Hrows rows. intros [H _].
  destruct H as (r & Hr & Hpid & Hdepth & _).
  - split; [reflexivity|].
    exists 1%nat, (row_of 2 (snd (proc 2 "child" 1)) 1 (Some 1)).
    split; [lia|]. split; reflexivity.
  - repeat (apply elem_of_cons in Hr as [->|Hr]); try discriminate.
    by apply elem_of_nil in Hr.
Qed.

(** C4, amended.  With the children shown, every process whose name passes
    the search test has exactly one row.  The row is nested, at depth 1,
    under the row of its parent exactly when its ppid is not 0 and the
    parent comes earlier in the table and has itself a top-level row (depth
    0); otherwise the row is a top-level row.  No row is deeper than 1, and
    for the table {1: root, 2: ppid 1, 3: ppid 2} with the empty search text
    2 is nested under 1 and 3 is a top-level row. *)
Theorem nesting_is_one_level :
  (forall s, NoDup (keys (process_data s)) -> children_visible s = true ->
     forall i pid info,
       process_data s !! i = Some (pid, info) ->
       matches (search_entry s) info = true ->
       let parent_is_root_above :=
         ppid info <> 0 /\
         exists j pinfo, (j < i)%nat /\ process_data s !! j = Some (ppid info, pinfo) /\
                         row_of (ppid info) pinfo 0 None ∈ render_rows s in
       count_rows pid (render_rows s) = 1%nat /\
       (parent_is_root_above -> row_of pid info 1 (Some (ppid info)) ∈ render_rows s) /\
       (~ parent_is_root_above -> row_of pid info 0 None ∈ render_rows s)) /\
  (forall s, NoDup (keys (process_data s)) ->
     forall r, r ∈ render_rows s -> (row_depth r <= 1)%nat) /\
  render_rows (app_with family "" true) =
    [row_of 1 (snd (proc 1 "root" 0)) 0 None;
     row_of 2 (snd (proc 2 "child" 1)) 1 (Some 1);
     row_of 3 (snd (proc 3 "grandchild" 2)) 0 None].
Proof.
  split; [|split].
  - intros s Hnd Hvis i pid info Hi Hm.
    rewrite (render_rows_layout s Hnd), Hvis.
    by apply nested_rows_spec.
  - intros s Hnd r. rewrite (render_rows_layout s Hnd).
    intros [[-> _]|[-> _]]%placed_rows_depth; lia.
  - by vm_compute.
Qed.

Lemma nesting_is_one_level_witness :
  NoDup (keys family) /\
  row_of 2 (snd (proc 2 "child" 1)) 1 (Some 1) ∈ render_rows (app_with family "" true).
Proof.
  assert (Hnd : NoDup (keys family)) by (by apply NoDup_keys_decide).
  split; [exact Hnd|].
  destruct nesting_is_one_level as [H _].
  destruct (H (app_with family "" true) Hnd eq_refl 1%nat 2 (snd (proc 2 "child" 1))
              eq_refl eq_refl) as (_ & Hnested & _).
  apply Hnested. split; [done|].
  exists 0%nat, (snd (proc 1 "root" 0)). split; [lia|]. split; [reflexivity|].
  vm_compute. apply list_elem_of_here.
Defined.

(** C5, as stated, fails twice: with the children hidden, a process that is
    its own parent has no row at all; with the children shown, the second
    of two processes that are each other's parent is nested under the first
    instead of being a top-level row. *)
Lemma cyclic_parents_counterexample :
  count_rows 5 (render_rows (app_with own_parent "" false)) = 0%nat /\
  render_rows (app_with mutual_parents "" true) =
    [row_of 1 (snd (proc 1 "ping" 2)) 0 None;
     row_of 2 (snd (proc 2 "pong" 1)) 1 (Some 1)].
Proof. split; by vm_compute. Qed.

(** C5, amended.  Rendering is one pass over the table and always returns.
    With the children shown, a process that passes the search test and whose
    parent does not come earlier in the table (in particular a process that
    is its own parent, and the first member of a cycle in table order) has
    exactly one row, a top-level row at depth 0.  With the children hidden, a
    process whose ppid is a non-zero pid of the table (every member of a
    cycle of non-zero pids is one) has no row. *)
Theorem cyclic_parents_render (s : App) :
  NoDup (keys (process_data s)) ->
  returned (search_processes s) = true /\
  (children_visible s = true ->
   forall i pid info,
     process_data s !! i = Some (pid, info) ->
     matches (search_entry s) info = true ->
     (forall j pinfo, process_data s !! j = Some (ppid info, pinfo) -> (i <= j)%nat) ->
     count_rows pid (render_rows s) = 1%nat /\
     row_of pid info 0 None ∈ render_rows s) /\
  (children_visible s = true ->
   forall pid info,
     (pid, info) ∈ process_data s ->
     matches (search_entry s) info = true ->
     ppid info = pid ->
     count_rows pid (render_rows s) = 1%nat /\
     row_of pid info 0 None ∈ render_rows s) /\
  (children_visible s = false ->
   forall pid info,
     (pid, info) ∈ process_data s ->
     ppid info <> 0 -> ppid info ∈ keys (process_data s) ->
     count_rows pid (render_rows s) = 0%nat).
Proof.
  intros Hnd.
  assert (Hfirst : children_visible s = true ->
    forall i pid info,
      process_data s !! i = Some (pid, info) ->
      matches (search_entry s) info = true ->
      (forall j pinfo, process_data s !! j = Some (ppid info, pinfo) -> (i <= j)%nat) ->
      count_rows pid (render_rows s) = 1%nat /\
      row_of pid info 0 None ∈ render_rows s).
  { intros Hvis i pid info Hi Hm Hlate.
    rewrite (render_rows_layout s Hnd), Hvis.
    destruct (nested_rows_spec (process_data s) (search_entry s) i pid info Hnd Hi Hm)
      as (Hcount & _ & Hroot).
    split; [done|]. apply Hroot.
    intros (_ & j & pinfo & Hlt & Hj & _). specialize (Hlate j pinfo Hj). lia. }
  split; [by apply search_processes_returns|]. split; [exact Hfirst|]. split.
  - intros Hvis pid info Hin Hm Hself.
    apply list_elem_of_lookup in Hin as [i Hi].
    apply (Hfirst Hvis i pid info Hi Hm).
    intros j pinfo Hj. rewrite Hself in Hj.
    by rewrite (NoDup_keys_index _ _ _ _ _ _ Hnd Hi Hj).
  - intros Hvis pid info Hin Hnz Hkey.
    rewrite (render_rows_hidden_count s pid info Hnd Hvis Hin).
    assert (Hroot : display_root (process_data s) info = false)
      by (by apply display_root_false).
    by rewrite Hroot, andb_false_r.
Qed.

Lemma cyclic_parents_render_witness :
  NoDup (keys own_parent) /\
  row_of 5 (snd (proc 5 "loop" 5)) 0 None ∈ render_rows (app_with own_parent "" true).
Proof.
  assert (Hnd : NoDup (keys own_parent)) by (by apply NoDup_keys_decide).
  split; [exact Hnd|].
  destruct (cyclic_parents_render (app_with own_parent "" true) Hnd) as (_ & _ & Hself & _).
  refine (proj2 (Hself eq_refl 5 (snd (proc 5 "loop" 5)) _ eq_refl eq_refl)).
  apply list_elem_of_here.
Defined.



(** ** Diagnostics *)

Lemma database_fields s db :
  database s = Some db -> cursor s = Some (fst db) /\ conn s = Some (snd db).
Proof. unfold database. destruct (cursor s), (conn s); intros [= <-]; done. Qed.

Lemma database_without s : database (without_database s) = None.
Proof. reflexivity. Qed.

Lemma database_with db s : database (with_database db s) = Some db.
Proof. by destruct db. Qed.

Lemma length_add_events evs s :
  length (trace (add_events evs s)) = (length (trace s) + length evs)%nat.
Proof. unfold add_events. simpl. apply length_app. Qed.

(** Without a cursor nothing is written and [AttributeError] is raised. *)
Lemma log_error_to_db_raises l m s :
  cursor s = None -> log_error_to_db l m s = (inl AttributeError, s).
Proof.
  intros Hc. unfold log_error_to_db, attribute, try_except, bind, gets. by rewrite Hc.
Qed.

(** With the database in place the statement is sent, and a refusal is
    logged and swallowed. *)
Lemma log_error_to_db_sends l m s db :
  database s = Some db -> sqlite_errors_only db ->
  log_error_to_db l m s =
  (inr tt, add_events (ev_log_error_to_db l m :: db_complaint db (length (trace s)) l m) s).
Proof.
  intros [Hc Hn]%database_fields [Hexec Hcommit].
  unfold log_error_to_db, attribute, db_complaint, db_answer.
  unfold try_except, bind, gets, os_unit, raise, ret. rewrite Hc. rewrite !emit_run.
  destruct (cursor_execute (fst db) _ l m) as [e|] eqn:He.
  - rewrite (Hexec _ _ _ _ He), emit_run, add_events_app. reflexivity.
  - change (conn (add_events [ev_log_error_to_db l m] s)) with (conn s). rewrite Hn.
    destruct (conn_commit (snd db) _) as [e|] eqn:Hcm; [|reflexivity].
    rewrite (Hcommit _ _ Hcm), emit_run, add_events_app. reflexivity.
Qed.

Lemma report_run l m s db :
  database s = Some db -> sqlite_errors_only db ->
  bind (emit (ev_logging l m)) (fun _ => log_error_to_db l m) s =
  (inr tt, add_events (logged db (length (trace s)) l m) s).
Proof.
  intros Hdb Hsql. unfold bind. rewrite emit_run. cbv beta iota.
  rewrite (log_error_to_db_sends l m (add_events [ev_logging l m] s) db Hdb Hsql).
  rewrite add_events_app, length_add_events.
  simpl. by rewrite Nat.add_1_r.
Qed.

Lemma report_no_cursor l m s :
  cursor s = None ->
  bind (emit (ev_logging l m)) (fun _ => log_error_to_db l m) s =
  (inl AttributeError, add_events [ev_logging l m] s).
Proof.
  intros Hc. unfold bind. rewrite emit_run. cbv beta iota.
  by rewrite log_error_to_db_raises.
Qed.

Lemma warn_run m s db :
  database s = Some db -> sqlite_errors_only db ->
  warn m s = (inr tt, add_events (logged db (length (trace s)) WARNING m) s).
Proof. apply report_run. Qed.

Lemma error_run m s db :
  database s = Some db -> sqlite_errors_only db ->
  error m s = (inr tt, add_events (logged db (length (trace s)) ERROR m) s).
Proof. apply report_run. Qed.

Lemma warn_no_cursor m s :
  cursor s = None -> warn m s = (inl AttributeError, add_events [ev_logging WARNING m] s).
Proof. apply report_no_cursor. Qed.

Lemma error_no_cursor m s :
  cursor s = None -> error m s = (inl AttributeError, add_events [ev_logging ERROR m] s).
Proof. apply report_no_cursor. Qed.

Lemma bind_warn {B} m (k : unit -> M B) s db :
  database s = Some db -> sqlite_errors_only db ->
  bind (warn m) k s = k tt (add_events (logged db (length (trace s)) WARNING m) s).
Proof. intros Hdb Hsql. by apply bind_run, warn_run. Qed.

Lemma bind_error {B} m (k : unit -> M B) s db :
  database s = Some db -> sqlite_errors_only db ->
  bind (error m) k s = k tt (add_events (logged db (length (trace s)) ERROR m) s).
Proof. intros Hdb Hsql. by apply bind_run, error_run. Qed.

Lemma length_logged db t l m :
  length (logged db t l m) = (2 + length (db_complaint db (S t) l m))%nat.
Proof. reflexivity. Qed.

(** ** Methods that only write records *)

Lemma quiet_nil : quiet [].
Proof. reflexivity. Qed.

Lemma quiet_app evs1 evs2 : quiet evs1 -> quiet evs2 -> quiet (evs1 ++ evs2).
Proof. unfold quiet. rewrite forallb_app. by intros -> ->. Qed.

Lemma quiet_process_events evs : quiet evs -> process_events evs = [].
Proof.
  unfold quiet. induction evs as [|e evs IH]; simpl; [done|].
  intros [He Hevs]%andb_prop. destruct e; try discriminate; by apply IH.
Qed.

Lemma quiet_opened_folders evs : quiet evs -> opened_folders evs = [].
Proof.
  unfold quiet. induction evs as [|e evs IH]; simpl; [done|].
  intros [He Hevs]%andb_prop. destruct e; try discriminate; by apply IH.
Qed.

Lemma quiet_posted evs : quiet evs -> posted evs = [].
Proof.
  unfold quiet. induction evs as [|e evs IH]; simpl; [done|].
  intros [He Hevs]%andb_prop. destruct e; try discriminate; by apply IH.
Qed.

Lemma quiet_logged db t l m : quiet (logged db t l m).
Proof. unfold logged, db_complaint. by destruct (db_answer db (S t) l m). Qed.

Lemma quiet_logged_all db ds : forall t, quiet (logged_all db t ds).
Proof.
  induction ds as [|[l m] ds IH]; intros t; simpl; [done|].
  apply quiet_app; [apply quiet_logged | apply IH].
Qed.

Lemma logs_only_ret {A} (x : A) : logs_only (ret x).
Proof. intros s. exists []. by rewrite app_nil_r. Qed.

Lemma logs_only_raise {A} e : logs_only (@raise A e).
Proof. intros s. exists []. by rewrite app_nil_r. Qed.

Lemma logs_only_gets {A} (f : App -> A) : logs_only (gets f).
Proof. intros s. exists []. by rewrite app_nil_r. Qed.

Lemma logs_only_modify f :
  (forall s, trace (f s) = trace s /\ cursor (f s) = cursor s /\ conn (f s) = conn s) ->
  logs_only (modify f).
Proof.
  intros H s. exists []. destruct (H s) as (Ht & Hc & Hn). simpl.
  by rewrite app_nil_r.
Qed.

Lemma logs_only_emit e : is_record e = true -> logs_only (emit e).
Proof. intros He s. exists [e]. unfold quiet. simpl. by rewrite He. Qed.

Lemma logs_only_bind {A B} (m : M A) (k : A -> M B) :
  logs_only m -> (forall x, logs_only (k x)) -> logs_only (bind m k).
Proof.
  intros Hm Hk s. unfold bind. destruct (Hm s) as (evs & Ht & Hq & Hc & Hn).
  destruct (m s) as [[e|x] s']; simpl in *; [by exists evs|].
  destruct (Hk x s') as (evs' & Ht' & Hq' & Hc' & Hn').
  exists (evs ++ evs'). rewrite Ht', Ht, Hc', Hc, Hn', Hn, app_assoc.
  split; [done|]. split; [by apply quiet_app | done].
Qed.

Lemma logs_only_try_except {A} (body : M A) handler :
  logs_only body ->
  (forall e h, handler e = Some h -> logs_only h) ->
  logs_only (try_except body handler).
Proof.
  intros Hb Hh s. unfold try_except. destruct (Hb s) as (evs & Ht & Hq & Hc & Hn).
  destruct (body s) as [[e|x] s']; simpl in *; [|by exists evs].
  destruct (handler e) as [h|] eqn:E; [|by exists evs].
  destruct (Hh e h E s') as (evs' & Ht' & Hq' & Hc' & Hn').
  exists (evs ++ evs'). rewrite Ht', Ht, Hc', Hc, Hn', Hn, app_assoc.
  split; [done|]. split; [by apply quiet_app | done].
Qed.

Lemma logs_only_try_local {L A} (first : M L) (rest : L -> M A) handler :
  logs_only first ->
  (forall l, logs_only (rest l)) ->
  (forall l e h, handler l e = Some h -> logs_only h) ->
  logs_only (try_local first rest handler).
Proof.
  intros Hf Hr Hh s. unfold try_local. destruct (Hf s) as (evs & Ht & Hq & Hc & Hn).
  destruct (first s) as [[e|l] s']; simpl in *.
  - destruct (handler None e) as [h|] eqn:E; [|by exists evs].
    destruct (Hh None e h E s') as (evs' & Ht' & Hq' & Hc' & Hn').
    exists (evs ++ evs'). rewrite Ht', Ht, Hc', Hc, Hn', Hn, app_assoc.
    split; [done|]. split; [by apply quiet_app | done].
  - destruct (logs_only_try_except (rest l) (handler (Some l)) (Hr l) (Hh (Some l)) s')
      as (evs' & Ht' & Hq' & Hc' & Hn').
    exists (evs ++ evs'). rewrite Ht', Ht, Hc', Hc, Hn', Hn, app_assoc.
    split; [done|]. split; [by apply quiet_app | done].
Qed.

Lemma logs_only_for_each {A} (l : list A) (body : A -> M unit) :
  (forall x, logs_only (body x)) -> logs_only (for_each l body).
Proof.
  intros Hb. induction l as [|x l IH]; simpl.
  - apply logs_only_ret.
  - apply logs_only_bind; [apply Hb | intros _; apply IH].
Qed.

Lemma logs_only_os_unit r : logs_only (os_unit r).
Proof. destruct r; [apply logs_only_raise | apply logs_only_ret]. Qed.

Lemma logs_only_os_value {A} (r : Exn + A) : logs_only (os_value r).
Proof. destruct r; [apply logs_only_raise | apply logs_only_ret]. Qed.

Lemma logs_only_tree_insert parent v : logs_only (tree_insert parent v).
Proof.
  intros s. exists []. unfold tree_insert.
  destruct (tv_insert parent v (tree s)) as [[i t]|]; simpl; by rewrite app_nil_r.
Qed.

Lemma logs_only_remember_item pid item : logs_only (remember_item pid item).
Proof. intros s. exists []. simpl. by rewrite app_nil_r. Qed.

Lemma logs_only_local_pid p : logs_only (local_pid p).
Proof. destruct p; [apply logs_only_ret | apply logs_only_raise]. Qed.

#[local] Hint Resolve logs_only_ret logs_only_raise logs_only_gets logs_only_os_unit
  logs_only_os_value logs_only_tree_insert logs_only_remember_item logs_only_local_pid : py.

(** Breaks a method down to its primitive steps. *)
Ltac logs_step :=
  match goal with
  | |- logs_only (bind _ _) => apply logs_only_bind; [|intros ?]
  | |- logs_only (try_except _ _) =>
      apply logs_only_try_except; [|intros e ? ?; destruct e; simplify_eq]
  | |- logs_only (try_local _ _ _) =>
      apply logs_only_try_local; [| intros ? | intros ? e ? ?; destruct e; simplify_eq]
  | |- logs_only (for_each _ _) => apply logs_only_for_each; intros ?
  | |- logs_only (modify _) => apply logs_only_modify; intros ?; done
  | |- logs_only (emit _) => apply logs_only_emit; reflexivity
  | |- logs_only (if ?b then _ else _) => destruct b
  | |- logs_only (match ?x with Some _ => _ | None => _ end) => destruct x
  | |- logs_only (match ?x with [] => _ | _ :: _ => _ end) => destruct x
  | |- logs_only (let '(_, _) := ?p in _) => destruct p
  | |- logs_only _ => solve [auto with py]
  end.

Lemma logs_only_attribute {A} (field : App -> option A) : logs_only (attribute field).
Proof. unfold attribute. repeat logs_step. Qed.

#[local] Hint Resolve logs_only_attribute : py.

Lemma logs_only_log_error_to_db l m : logs_only (log_error_to_db l m).
Proof.
  unfold log_error_to_db.
  apply logs_only_try_except; [repeat logs_step|].
  intros e h. destruct (is_sqlite_error e); [|done]. intros [= <-]. logs_step.
Qed.

#[local] Hint Resolve logs_only_log_error_to_db : py.

Lemma logs_only_warn m : logs_only (warn m).
Proof. unfold warn. repeat logs_step. Qed.

Lemma logs_only_error m : logs_only (error m).
Proof. unfold error. repeat logs_step. Qed.

#[local] Hint Resolve logs_only_warn logs_only_error : py.

Lemma logs_only_insert pid info : logs_only (_insert_process_to_treeview pid info).
Proof. unfold _insert_process_to_treeview. repeat logs_step. Qed.

Lemma logs_only_search : logs_only search_processes.
Proof. unfold search_processes. repeat logs_step. apply logs_only_insert. Qed.

Lemma logs_only_refresh : logs_only refresh_processes.
Proof. unfold refresh_processes. repeat logs_step. apply logs_only_search. Qed.

#[local] Hint Resolve logs_only_insert logs_only_search logs_only_refresh : py.

(** ** Control actions *)

Lemma selected_pid_empty s :
  tv_selection (tree s) = [] -> selected_pid s = (inl IndexError, s).
Proof. intros H. unfold selected_pid, bind, gets. by rewrite H. Qed.

Lemma selected_pid_run s pid : selects s pid -> selected_pid s = (inr pid, s).
Proof.
  intros (item & rest & v & Hsel & Hv & <-).
  unfold selected_pid, bind, gets. by rewrite Hsel, Hv.
Qed.

Lemma selected_pid_raises s e s' :
  selected_pid s = (inl e, s') -> e = IndexError \/ e = TclError.
Proof.
  unfold selected_pid, bind, gets.
  destruct (tv_selection (tree s)) as [|item rest]; [intros [= <- _]; by left|].
  destruct (tv_item_values item (tree s)); [discriminate|].
  intros [= <- _]. by right.
Qed.

Lemma selected_pid_cases s :
  (exists pid, selects s pid /\ selected_pid s = (inr pid, s)) \/
  (tv_selection (tree s) = [] /\ selected_pid s = (inl IndexError, s)) \/
  (tv_selection (tree s) <> [] /\ selected_pid s = (inl TclError, s)).
Proof.
  unfold selected_pid, bind, gets, selects.
  destruct (tv_selection (tree s)) as [|item rest] eqn:Hsel; [by right; left|].
  destruct (tv_item_values item (tree s)) as [v|] eqn:Hv.
  - left. exists (v_pid v). split; [|done]. by exists item, rest, v.
  - right. right. done.
Qed.

Lemma cached_handle_run s pid info :
  dict_get pid (process_data s) = Some info ->
  cached_handle pid s = (inr (process_obj info), s).
Proof. intros H. unfold cached_handle, bind, gets. by rewrite H. Qed.

(** A [try] whose body returns is the body. *)
Lemma try_except_returns {A} (body : M A) handler s :
  returned (body s) = true -> try_except body handler s = body s.
Proof.
  intros H. unfold try_except.
  destruct (body s) as [[e|x] s']; [discriminate | reflexivity].
Qed.

Lemma try_except_raises {A} (body : M A) handler s e s' h :
  body s = (inl e, s') -> handler e = Some h ->
  try_except body handler s = h s'.
Proof. intros Hb Hh. unfold try_except. by rewrite Hb, Hh. Qed.

Lemma refresh_processes_returns s :
  NoDup (keys (process_data s)) -> returned (refresh_processes s) = true.
Proof. intros Hnd. by rewrite refresh_processes_run. Qed.

Section Control.

Variable os : OS.

Lemma bind_local_pid {B} p (k : Z -> M B) s : bind (local_pid (Some p)) k s = k p s.
Proof. reflexivity. Qed.

(** The handler of an action is a diagnostic, followed by a refresh when
    the process has gone. *)
Lemma control_handler_run failed pid e :
  (match e with
   | IndexError => Some (warn (translate "no_process_selected" []))
   | NoSuchProcess | ZombieProcess =>
       Some (p <- local_pid (Some pid) ;;
             warn (translate "process_not_found" [a_pid p]) ;;
             refresh_processes)
   | AccessDenied =>
       Some (p <- local_pid (Some pid) ;;
             warn (translate "access_denied" [a_pid p]))
   | _ => Some (error (translate failed [a_exn e]))
   end : option (M unit)) =
  Some (fun s =>
          let d := control_failure failed pid e in
          let report := bind (emit (ev_logging (fst d) (snd d)))
                          (fun _ => log_error_to_db (fst d) (snd d)) in
          if is_NoSuchProcess e then bind report (fun _ => refresh_processes) s
          else report s).
Proof. by destruct e. Qed.

(** The first steps of an action on a selected row whose pid is in the
    table: the handle is taken from the table and the operation is sent. *)
Lemma control_body_found op done s pid info :
  dict_get pid (process_data s) = Some info ->
  (data <- gets process_data ;;
   if dict_mem pid data then
     process <- cached_handle pid ;;
     emit (ev_process op process) ;;
     os_unit (os_signal os op process) ;;
     emit (ev_logging INFO (fmt done [a_pid pid])) ;;
     refresh_processes
   else
     warn (fmt "Process with PID {pid} not found." [a_pid pid]) ;;
     refresh_processes) s =
  match os_signal os op (process_obj info) with
  | None =>
      refresh_processes
        (add_events [ev_process op (process_obj info);
                     ev_logging INFO (fmt done [a_pid pid])] s)
  | Some e => (inl e, add_events [ev_process op (process_obj info)] s)
  end.
Proof.
  intros Hget.
  assert (Hmem : dict_mem pid (process_data s) = true) by (apply dict_mem_get; eauto).
  unfold bind at 1. unfold gets. rewrite Hmem.
  unfold bind at 1. rewrite (cached_handle_run _ _ _ Hget).
  unfold bind at 1. rewrite emit_run.
  unfold bind at 1. unfold os_unit.
  destruct (os_signal os op (process_obj info)) as [e|]; [reflexivity|].
  unfold ret. unfold bind at 1. by rewrite emit_run, add_events_app.
Qed.

Lemma control_body_missing op done s pid :
  dict_get pid (process_data s) = None ->
  (data <- gets process_data ;;
   if dict_mem pid data then
     process <- cached_handle pid ;;
     emit (ev_process op process) ;;
     os_unit (os_signal os op process) ;;
     emit (ev_logging INFO (fmt done [a_pid pid])) ;;
     refresh_processes
   else
     warn (fmt "Process with PID {pid} not found." [a_pid pid]) ;;
     refresh_processes) s =
  (warn (fmt "Process with PID {pid} not found." [a_pid pid]) ;; refresh_processes) s.
Proof.
  intros Hget%dict_mem_false_get. unfold bind at 1. unfold gets. by rewrite Hget.
Qed.

(** What an action does on a selected row, case by case, with the database
    in place. *)
Lemma control_run op done failed s pid db :
  selects s pid -> database s = Some db -> sqlite_errors_only db ->
  NoDup (keys (process_data s)) ->
  control_selected_process os op done failed s =
  match dict_get pid (process_data s) with
  | None =>
      refresh_processes
        (add_events
           (logged db (length (trace s)) WARNING
              (fmt "Process with PID {pid} not found." [a_pid pid])) s)
  | Some info =>
      let h := process_obj info in
      match os_signal os op h with
      | None =>
          refresh_processes
            (add_events [ev_process op h; ev_logging INFO (fmt done [a_pid pid])] s)
      | Some e =>
          let d := control_failure failed pid e in
          let s' :=
            add_events (ev_process op h :: logged db (S (length (trace s))) (fst d) (snd d)) s in
          if is_NoSuchProcess e then refresh_processes s' else (inr tt, s')
      end
  end.
Proof.
  intros Hsel Hdb Hsql Hnd. unfold control_selected_process, try_local.
  rewrite (selected_pid_run _ _ Hsel).
  destruct (dict_get pid (process_data s)) as [info|] eqn:Hget.
  - cbv zeta. unfold try_except. rewrite (control_body_found op done s pid info Hget).
    destruct (os_signal os op (process_obj info)) as [e|] eqn:Hos.
    + rewrite control_handler_run. cbv zeta.
      set (s1 := add_events [ev_process op (process_obj info)] s).
      assert (Hlen : length (trace s1) = S (length (trace s))).
      { subst s1. rewrite length_add_events. simpl. lia. }
      rewrite <- Hlen.
      destruct (is_NoSuchProcess e).
      * unfold bind at 1. rewrite (report_run _ _ s1 db Hdb Hsql).
        subst s1. by rewrite add_events_app.
      * rewrite (report_run _ _ s1 db Hdb Hsql). subst s1. by rewrite add_events_app.
    + destruct (refresh_processes _) as [[e|[]] s1] eqn:Hr; [|done].
      pose proof (refresh_processes_returns
                    (add_events [ev_process op (process_obj info);
                                 ev_logging INFO (fmt done [a_pid pid])] s) Hnd) as Hret.
      rewrite Hr in Hret. discriminate.
  - unfold try_except. rewrite (control_body_missing op done s pid Hget).
    rewrite (bind_warn _ _ s db Hdb Hsql).
    destruct (refresh_processes _) as [[e|[]] s1] eqn:Hr; [|done].
    pose proof (refresh_processes_returns
                  (add_events (logged db (length (trace s)) WARNING
                     (fmt "Process with PID {pid} not found." [a_pid pid])) s) Hnd) as Hret.
    rewrite Hr in Hret. discriminate.
Qed.

(** The same without a cursor: whatever needs a diagnostic ends in
    [AttributeError], before any refresh. *)
Lemma control_run_no_cursor op done failed s pid :
  selects s pid -> cursor s = None ->
  let r := control_selected_process os op done failed s in
  (dict_get pid (process_data s) = None ->
   r = (inl AttributeError,
        add_events
          [ev_logging WARNING (fmt "Process with PID {pid} not found." [a_pid pid]);
           ev_logging ERROR (translate failed [a_exn AttributeError])] s)) /\
  (forall info e,
     dict_get pid (process_data s) = Some info ->
     os_signal os op (process_obj info) = Some e ->
     let d := control_failure failed pid e in
     r = (inl AttributeError,
          add_events [ev_process op (process_obj info); ev_logging (fst d) (snd d)] s)).
Proof.
  intros Hsel Hc r. subst r. unfold control_selected_process, try_local.
  rewrite (selected_pid_run _ _ Hsel). split.
  - intros Hget. unfold try_except. rewrite (control_body_missing op done s pid Hget).
    unfold bind at 1. rewrite warn_no_cursor by done.
    change (error (translate failed [a_exn AttributeError])
              (add_events [ev_logging WARNING
                             (fmt "Process with PID {pid} not found." [a_pid pid])] s) =
            (inl AttributeError,
             add_events
               [ev_logging WARNING (fmt "Process with PID {pid} not found." [a_pid pid]);
                ev_logging ERROR (translate failed [a_exn AttributeError])] s)).
    rewrite error_no_cursor by done. by rewrite add_events_app.
  - intros info e Hget Hos. cbv zeta.
    unfold try_except. rewrite (control_body_found op done s pid info Hget), Hos.
    rewrite control_handler_run. cbv zeta.
    set (s1 := add_events [ev_process op (process_obj info)] s).
    assert (Hraise : bind (emit (ev_logging (fst (control_failure failed pid e))
                                   (snd (control_failure failed pid e))))
                       (fun _ => log_error_to_db (fst (control_failure failed pid e))
                                   (snd (control_failure failed pid e))) s1 =
                     (inl AttributeError,
                      add_events [ev_process op (process_obj info);
                                  ev_logging (fst (control_failure failed pid e))
                                    (snd (control_failure failed pid e))] s)).
    { rewrite report_no_cursor by done. subst s1. by rewrite add_events_app. }
    destruct (is_NoSuchProcess e); [unfold bind at 1|]; by rewrite Hraise.
Qed.

(** With no row selected an action is the warning alone. *)
Lemma control_no_selection op done failed s :
  tv_selection (tree s) = [] ->
  control_selected_process os op done failed s =
  warn (translate "no_process_selected" []) s.
Proof.
  intros H. unfold control_selected_process, try_local.
  by rewrite (selected_pid_empty s H).
Qed.

Lemma open_file_location_no_selection s :
  tv_selection (tree s) = [] ->
  open_file_location os s = warn (translate "no_process_selected" []) s.
Proof.
  intros H. unfold open_file_location, try_local.
  by rewrite (selected_pid_empty s H).
Qed.

End Control.

(** A [try] whose body and handlers only write records, after the events
    [pre]. *)
Lemma try_except_trace {A} (body : M A) handler s pre :
  (exists evs, quiet evs /\ trace (state_after (body s)) = trace s ++ pre ++ evs) ->
  (forall e h, handler e = Some h -> logs_only h) ->
  exists evs, quiet evs /\
    trace (state_after (try_except body handler s)) = trace s ++ pre ++ evs.
Proof.
  intros (evs & Hq & Ht) Hh. unfold try_except.
  destruct (body s) as [[e|x] s1]; simpl in *; [|by exists evs].
  destruct (handler e) as [h|] eqn:E; [|by exists evs].
  destruct (Hh e h E s1) as (evs' & Ht' & Hq' & _).
  exists (evs ++ evs'). split; [by apply quiet_app|].
  by rewrite Ht', Ht, <- !app_assoc.
Qed.

(** What an action appends to the trace, in any state: the operation on the
    handle cached for the selected pid, if there is one, and records. *)
Lemma control_events os op done failed s :
  exists evs,
    quiet evs /\
    trace (state_after (control_selected_process os op done failed s)) =
    trace s ++
    match selected_pid s with
    | (inr pid, _) =>
        match dict_get pid (process_data s) with
        | Some info => [ev_process op (process_obj info)]
        | None => []
        end
    | _ => []
    end ++ evs.
Proof.
  unfold control_selected_process, try_local.
  destruct (selected_pid_cases s) as [(pid & Hsel & ->)|[[_ ->]|[_ ->]]].
  - apply try_except_trace.
    + destruct (dict_get pid (process_data s)) as [info|] eqn:Hget.
      * rewrite (control_body_found os op done s pid info Hget).
        destruct (os_signal os op (process_obj info)) as [e|].
        -- exists []. split; [done|]. unfold add_events, set_trace. simpl.
           by rewrite ?app_nil_r.
        -- destruct (logs_only_refresh
                       (add_events [ev_process op (process_obj info);
                                    ev_logging INFO (fmt done [a_pid pid])] s))
             as (evs & Ht & Hq & _).
           exists (ev_logging INFO (fmt done [a_pid pid]) :: evs).
           split; [by apply (quiet_app [_])|].
           rewrite Ht. simpl. by rewrite <- app_assoc.
      * rewrite (control_body_missing os op done s pid Hget).
        assert (Hl : logs_only (warn (fmt "Process with PID {pid} not found." [a_pid pid]) ;;
                                refresh_processes)) by repeat logs_step.
        destruct (Hl s) as (evs & Ht & Hq & _). by exists evs.
    + intros e h H. destruct e; simplify_eq; repeat logs_step.
  - destruct (logs_only_warn (translate "no_process_selected" []) s) as (evs & Ht & Hq & _).
    by exists evs.
  - destruct (logs_only_error (translate failed [a_exn TclError]) s) as (evs & Ht & Hq & _).
    by exists evs.
Qed.
(** * Further properties *)

(** ** The view as a function of the table, the search text and the toggle *)

Lemma place_ext d t1 t2 show af e :
  matches t1 (snd e) = matches t2 (snd e) ->
  place d t1 show af e = place d t2 show af e.
Proof. intros H. unfold place. by rewrite H. Qed.

Lemma layout_ext d t1 t2 show pre :
  (forall info, matches t1 info = matches t2 info) ->
  layout d t1 show pre = layout d t2 show pre.
Proof.
  intros H. induction pre as [|e pre IH] using rev_ind; [done|].
  by rewrite !layout_snoc, IH, (place_ext d t1 t2 show _ e (H (snd e))).
Qed.

Lemma matches_lower t1 t2 info : lower t1 = lower t2 -> matches t1 info = matches t2 info.
Proof. intros H. unfold matches. by rewrite H. Qed.

Lemma render_rows_ext s1 s2 :
  NoDup (keys (process_data s1)) ->
  process_data s1 = process_data s2 ->
  children_visible s1 = children_visible s2 ->
  lower (search_entry s1) = lower (search_entry s2) ->
  render_rows s1 = render_rows s2.
Proof.
  intros Hnd Hd Hv Ht.
  rewrite (render_rows_layout s1 Hnd), (render_rows_layout s2) by (by rewrite <- Hd).
  rewrite <- Hd, <- Hv. f_equal. apply layout_ext. intros info. by apply matches_lower.
Qed.

(** What a refresh leaves of the state, beside the widget. *)
Lemma search_processes_fields s :
  NoDup (keys (process_data s)) ->
  let s' := state_after (search_processes s) in
  process_data s' = process_data s /\ children_visible s' = children_visible s /\
  search_entry s' = search_entry s /\ trace s' = trace s.
Proof.
  intros Hnd. destruct (search_processes_layout s Hnd) as (l & ti & n & sel & -> & _).
  done.
Qed.

Lemma refresh_processes_fields s :
  NoDup (keys (process_data s)) ->
  let s' := state_after (refresh_processes s) in
  process_data s' = process_data s /\ children_visible s' = children_visible s /\
  search_entry s' = search_entry s /\ trace s' = trace s ++ [refresh_event] /\
  tv_rows (tree s') = render_rows s.
Proof.
  intros Hnd. rewrite refresh_processes_run by done.
  destruct (search_processes_fields s Hnd) as (Hd & Hv & Ht & Htr).
  simpl. unfold add_events. simpl. by rewrite Htr.
Qed.

(** X1. What a refresh puts on display is determined by the table, the
    lower-cased search text and the children toggle: neither the letter case
    of the search text nor what the widget showed before matters. *)
Theorem view_depends_on_table_text_toggle (s1 s2 : App) :
  NoDup (keys (process_data s1)) ->
  process_data s1 = process_data s2 ->
  children_visible s1 = children_visible s2 ->
  lower (search_entry s1) = lower (search_entry s2) ->
  render_rows s1 = render_rows s2.
Proof. apply render_rows_ext. Qed.

Lemma view_depends_on_table_text_toggle_witness :
  NoDup (keys browsers) /\
  render_rows (app_with browsers "CHROME" true) =
  render_rows (set_search_entry "chrome"
                 (state_after (search_processes (app_with browsers "vim" true)))).
Proof.
  assert (Hnd : NoDup (keys browsers)) by (by apply NoDup_keys_decide).
  split; [exact Hnd|].
  apply (view_depends_on_table_text_toggle (app_with browsers "CHROME" true)
           (set_search_entry "chrome"
              (state_after (search_processes (app_with browsers "vim" true)))) Hnd).
  - by vm_compute.
  - by vm_compute.
  - reflexivity.
Defined.

(** X2. Refreshing is idempotent: a refresh of a freshly refreshed view shows
    the same rows, and leaves the table, the search text and the toggle as
    they were. *)
Theorem refresh_is_idempotent (s : App) :
  NoDup (keys (process_data s)) ->
  let s1 := state_after (refresh_processes s) in
  let s2 := state_after (refresh_processes s1) in
  tv_rows (tree s2) = tv_rows (tree s1) /\
  process_data s2 = process_data s /\
  children_visible s2 = children_visible s /\
  search_entry s2 = search_entry s.
Proof.
  intros Hnd s1 s2.
  destruct (refresh_processes_fields s Hnd) as (Hd & Hv & Ht & _ & Hrows).
  fold s1 in Hd, Hv, Ht, Hrows.
  assert (Hnd1 : NoDup (keys (process_data s1))) by (by rewrite Hd).
  destruct (refresh_processes_fields s1 Hnd1) as (Hd' & Hv' & Ht' & _ & Hrows').
  fold s2 in Hd', Hv', Ht', Hrows'.
  rewrite Hrows', Hrows, Hd', Hv', Ht'. repeat split; try done.
  apply render_rows_ext; [done | done | done | by rewrite Ht].
Qed.

Lemma refresh_is_idempotent_witness :
  NoDup (keys family) /\
  tv_rows (tree (state_after (refresh_processes
                   (state_after (refresh_processes (app_with family "" true)))))) =
  tv_rows (tree (state_after (refresh_processes (app_with family "" true)))).
Proof.
  assert (Hnd : NoDup (keys family)) by (by apply NoDup_keys_decide).
  split; [exact Hnd|].
  exact (proj1 (refresh_is_idempotent (app_with family "" true) Hnd)).
Defined.

(** *** Which processes are on display *)

Lemma shown_pids_iff s pid :
  NoDup (keys (process_data s)) ->
  pid ∈ shown_pids s <->
  exists info, (pid, info) ∈ process_data s /\
               matches (search_entry s) info = true /\
               (children_visible s = true \/ display_root (process_data s) info = true).
Proof.
  intros Hnd. unfold shown_pids. split.
  - intros (r & -> & Hr)%list_elem_of_fmap.
    destruct (render_rows_source s r Hnd Hr) as (info & Hin & _ & Hm).
    exists info. split; [done|]. split; [done|].
    destruct (children_visible s) eqn:Hv; [by left | right].
    pose proof (render_rows_hidden_count s _ info Hnd Hv Hin) as Hc.
    rewrite Hm in Hc. simpl in Hc.
    destruct (display_root _ _); [done|].
    unfold count_rows in Hc. apply length_zero_iff_nil in Hc.
    assert (Hr' : In r (List.filter (fun r0 => Z.eqb (row_pid r0) (row_pid r)) (render_rows s))).
    { apply filter_In. split; [by apply list_elem_of_In | apply Z.eqb_refl]. }
    by rewrite Hc in Hr'.
  - intros (info & Hin & Hm & Hshow).
    destruct (children_visible s) eqn:Hv.
    + rewrite (render_rows_layout s Hnd), Hv.
      destruct (layout_rows_has (process_data s) _ _ _ _ Hin Hm) as (r & Hr & <-).
      by apply (list_elem_of_fmap_2 row_pid).
    + destruct Hshow as [?|Hroot]; [done|].
      rewrite (render_rows_flat s Hnd Hv).
      apply list_elem_of_fmap. exists (row_of pid info 0 None). split; [done|].
      apply (list_elem_of_fmap_2 (fun e => row_of (fst e) (snd e) 0 None) _ (pid, info)).
      apply list_elem_of_In, filter_In. split; [by apply list_elem_of_In|].
      simpl. by rewrite Hm, Hroot.
Qed.

Lemma string_append_assoc (a b c : string) :
  ((a ++ b) ++ c)%string = (a ++ (b ++ c))%string.
Proof.
  induction a as [|x a IH]; [done|].
  change (String x ((a ++ b) ++ c) = String x (a ++ (b ++ c)))%string.
  by f_equal.
Qed.

Lemma str_in_trans a b c :
  str_in a b = true -> str_in b c = true -> str_in a c = true.
Proof.
  rewrite !str_in_spec. intros (p & q & ->) (p' & q' & ->).
  exists (p' ++ p)%string, (q ++ q')%string.
  by rewrite !string_append_assoc.
Qed.

(** X3. Typing a longer search text never brings a process onto the display:
    when the lower-cased text of [s1] is contained in that of [s2], every
    process shown for [s2] is shown for [s1]. *)
Theorem narrowing_the_search_adds_nothing (s1 s2 : App) :
  NoDup (keys (process_data s1)) ->
  process_data s1 = process_data s2 ->
  children_visible s1 = children_visible s2 ->
  str_in (lower (search_entry s1)) (lower (search_entry s2)) = true ->
  forall pid, pid ∈ shown_pids s2 -> pid ∈ shown_pids s1.
Proof.
  intros Hnd Hd Hv Hsub pid.
  rewrite (shown_pids_iff s1 pid Hnd), (shown_pids_iff s2 pid) by (by rewrite <- Hd).
  rewrite <- Hd, <- Hv. intros (info & Hin & Hm & Hshow).
  exists info. split; [done|]. split; [|done].
  unfold matches in *. by apply (str_in_trans _ (lower (search_entry s2))).
Qed.

Lemma narrowing_the_search_adds_nothing_witness :
  NoDup (keys browsers) /\
  (12 ∈ shown_pids (app_with browsers "Chrome_C" true) ->
   12 ∈ shown_pids (app_with browsers "chrome" true)).
Proof.
  assert (Hnd : NoDup (keys browsers)) by (by apply NoDup_keys_decide).
  split; [exact Hnd|].
  exact (narrowing_the_search_adds_nothing (app_with browsers "chrome" true)
           (app_with browsers "Chrome_C" true) Hnd eq_refl eq_refl eq_refl 12).
Defined.

(** *** Order of the top-level rows *)

Lemma root_pids_app af1 af2 : root_pids (af1 ++ af2) = root_pids af1 ++ root_pids af2.
Proof. apply map_app. Qed.

Lemma root_pids_add_kid p v af : root_pids (add_kid p v af) = root_pids af.
Proof.
  induction af as [|[r kids] af IH]; simpl; [done|].
  destruct (Z.eqb (v_pid r) p); simpl; [done|]. by rewrite IH.
Qed.

Lemma root_pids_sublist d term show pre :
  root_pids (layout d term show pre) `sublist_of` keys pre.
Proof.
  induction pre as [|e pre IH] using rev_ind; [done|].
  rewrite layout_snoc, keys_app. unfold place.
  destruct (matches term (snd e)); [|by apply sublist_inserts_r].
  destruct (display_root d (snd e)).
  { rewrite root_pids_app. by apply sublist_app. }
  destruct show; [|by apply sublist_inserts_r].
  destruct (existsb _ _).
  - rewrite root_pids_add_kid. by apply sublist_inserts_r.
  - rewrite root_pids_app. by apply sublist_app.
Qed.

Lemma top_level_rows (af : list Placed) :
  map row_pid (List.filter (fun r => Nat.eqb (row_depth r) 0) (placed_rows af)) =
  root_pids af.
Proof.
  induction af as [|[v kids] af IH]; simpl; [done|].
  rewrite List.filter_app, map_app, IH. f_equal.
  rewrite filter_none; [done|].
  by intros r (k & <- & _)%in_map_iff.
Qed.

(** X4. The top-level rows follow the table: their pids, read top to bottom,
    are a subsequence of the keys of the table in iteration order, with the
    children shown as well as hidden. *)
Theorem top_level_rows_keep_table_order (s : App) :
  NoDup (keys (process_data s)) ->
  top_level_pids s `sublist_of` keys (process_data s).
Proof.
  intros Hnd. unfold top_level_pids.
  rewrite (render_rows_layout s Hnd), top_level_rows. apply root_pids_sublist.
Qed.

Lemma top_level_rows_keep_table_order_witness :
  NoDup (keys family) /\
  top_level_pids (app_with family "" true) `sublist_of` keys family.
Proof.
  assert (Hnd : NoDup (keys family)) by (by apply NoDup_keys_decide).
  split; [exact Hnd|].
  exact (top_level_rows_keep_table_order (app_with family "" true) Hnd).
Defined.

(** ** The children toggle *)

Lemma toggle_children_run s :
  toggle_children s =
  refresh_processes (set_children_visible (negb (children_visible s)) s).
Proof. reflexivity. Qed.

(** X5. [toggle_children] flips the toggle and shows the view of the flipped
    toggle; toggling twice brings back the toggle and the rows of a plain
    refresh, and never touches the table. *)
Theorem toggle_children_twice (s : App) :
  NoDup (keys (process_data s)) ->
  let s1 := state_after (toggle_children s) in
  let s2 := state_after (toggle_children s1) in
  children_visible s1 = negb (children_visible s) /\
  tv_rows (tree s1) = render_rows (set_children_visible (negb (children_visible s)) s) /\
  children_visible s2 = children_visible s /\
  tv_rows (tree s2) = render_rows s /\
  process_data s2 = process_data s.
Proof.
  intros Hnd s1 s2. subst s1 s2. rewrite !toggle_children_run.
  set (t1 := set_children_visible (negb (children_visible s)) s).
  destruct (refresh_processes_fields t1 Hnd) as (Hd & Hv & Ht & _ & Hrows).
  set (s1 := state_after (refresh_processes t1)) in *.
  set (t2 := set_children_visible (negb (children_visible s1)) s1).
  assert (Hnd2 : NoDup (keys (process_data t2))) by (simpl; by rewrite Hd).
  destruct (refresh_processes_fields t2 Hnd2) as (Hd' & Hv' & Ht' & _ & Hrows').
  rewrite Hv, Hrows, Hv', Hrows', Hd'. simpl. rewrite Hv, Hd. simpl.
  split; [done|]. split; [done|]. split; [by destruct (children_visible s)|].
  split; [|done].
  apply render_rows_ext; simpl; [by rewrite Hd | done | | by rewrite Ht].
  rewrite Hv. simpl. by destruct (children_visible s).
Qed.

Lemma toggle_children_twice_witness :
  NoDup (keys family) /\
  tv_rows (tree (state_after (toggle_children
                   (state_after (toggle_children (app_with family "" false)))))) =
  render_rows (app_with family "" false).
Proof.
  assert (Hnd : NoDup (keys family)) by (by apply NoDup_keys_decide).
  split; [exact Hnd|].
  exact (proj1 (proj2 (proj2 (proj2
           (toggle_children_twice (app_with family "" false) Hnd))))).
Defined.

(** ** Items, pids and the table *)

Lemma find_leaves_none i (kids : list (ItemId * Values)) :
  i ∉ map fst kids -> first_some (find_item i) (map leaf kids) = None.
Proof.
  induction kids as [|[j v] kids IH]; simpl; [done|].
  intros H. apply not_elem_of_cons in H as [Hne H].
  destruct (Nat.eqb_spec j i) as [->|_]; [done|]. by apply IH.
Qed.

Lemma find_leaves_some i v (kids : list (ItemId * Values)) :
  first_some (find_item i) (map leaf kids) = Some v -> (i, v) ∈ kids.
Proof.
  induction kids as [|[j w] kids IH]; simpl; [done|].
  destruct (Nat.eqb_spec j i) as [->|_].
  - intros [= ->]. apply list_elem_of_here.
  - intros H. by apply list_elem_of_further, IH.
Qed.

(** The values of an item of the widget are those of a row of the layout. *)
Lemma find_shape_some i v (l : list Tagged) :
  first_some (find_item i) (shape l) = Some v -> (i, v) ∈ tagged_items l.
Proof.
  induction l as [|x l IH]; simpl; [done|].
  destruct (Nat.eqb_spec (t_id x) i) as [<-|_].
  - intros [= <-]. apply list_elem_of_here.
  - destruct (first_some (find_item i) (map leaf (t_kids x))) as [w|] eqn:E.
    + intros [= ->]. apply list_elem_of_further, elem_of_app. left.
      by apply find_leaves_some.
    + intros H. apply list_elem_of_further, elem_of_app. right. by apply IH.
Qed.

Lemma find_shape_root x (l : list Tagged) :
  x ∈ l -> NoDup (all_ids l) ->
  first_some (find_item (t_id x)) (shape l) = Some (t_values x).
Proof.
  induction l as [|y l IH]; simpl; [by intros ?%elem_of_nil|].
  intros Hx Hnd. apply NoDup_cons in Hnd as [Hy Hnd].
  apply NoDup_app in Hnd as (_ & Hdisj & Hnd).
  destruct (Nat.eqb_spec (t_id y) (t_id x)) as [Heq|Hne].
  - apply elem_of_cons in Hx as [->|Hx]; [done|].
    destruct Hy. rewrite Heq. apply elem_of_app. right.
    by apply root_id_in_all_ids, (list_elem_of_fmap_2 t_id).
  - apply elem_of_cons in Hx as [->|Hx]; [done|].
    rewrite find_leaves_none; [by apply IH|].
    intros Hkid. apply (Hdisj _ Hkid).
    by apply root_id_in_all_ids, (list_elem_of_fmap_2 t_id).
Qed.

Lemma tagged_items_values i v (l : list Tagged) :
  (i, v) ∈ tagged_items l -> v ∈ all_values (erase l).
Proof.
  induction l as [|x l IH]; simpl; [by intros ?%elem_of_nil|].
  intros [Heq|H]%elem_of_cons; [injection Heq as -> ->; apply list_elem_of_here|].
  apply list_elem_of_further. apply elem_of_app in H as [H|H]; apply elem_of_app.
  - left. by apply (list_elem_of_fmap_2 snd) in H.
  - right. by apply IH.
Qed.

Lemma all_values_app af1 af2 : all_values (af1 ++ af2) = all_values af1 ++ all_values af2.
Proof. apply flat_map_app. Qed.

Lemma all_values_add_kid p k af v :
  v ∈ all_values (add_kid p k af) -> v = k \/ v ∈ all_values af.
Proof.
  induction af as [|[r kids] af IH]; simpl; [by intros ?%elem_of_nil|].
  destruct (Z.eqb (v_pid r) p); simpl.
  - intros [->|H]%elem_of_cons; [right; apply list_elem_of_here|].
    rewrite <- app_assoc in H. apply elem_of_app in H as [H|H].
    + right. apply list_elem_of_further, elem_of_app. by left.
    + apply elem_of_cons in H as [->|H]; [by left|].
      right. apply list_elem_of_further, elem_of_app. by right.
  - intros [->|H]%elem_of_cons; [right; apply list_elem_of_here|].
    apply elem_of_app in H as [H|H].
    + right. apply list_elem_of_further, elem_of_app. by left.
    + destruct (IH H) as [?|?]; [by left|].
      right. apply list_elem_of_further, elem_of_app. by right.
Qed.

(** Every value on display is the value of a matching record of the table. *)
Lemma layout_values d term show pre v :
  v ∈ all_values (layout d term show pre) ->
  exists pid info, (pid, info) ∈ pre /\ v = values_of pid info /\
                   matches term info = true.
Proof.
  revert v. induction pre as [|[pid info] pre IH] using rev_ind; intros v.
  - by intros ?%elem_of_nil.
  - assert (Hold : v ∈ all_values (layout d term show pre) ->
      exists pid0 info0, (pid0, info0) ∈ pre ++ [(pid, info)] /\
                         v = values_of pid0 info0 /\ matches term info0 = true).
    { intros (pid0 & info0 & Hin & ?)%IH. exists pid0, info0.
      split; [|done]. apply elem_of_app. by left. }
    assert (Hnew : matches term info = true ->
      exists pid0 info0, (pid0, info0) ∈ pre ++ [(pid, info)] /\
                         values_of pid info = values_of pid0 info0 /\
                         matches term info0 = true).
    { intros Hm. exists pid, info. split; [|done].
      apply elem_of_app. right. apply list_elem_of_here. }
    rewrite layout_snoc. unfold place. simpl.
    destruct (matches term info) eqn:Hm; [|done].
    destruct (display_root d info).
    { rewrite all_values_app. simpl.
      intros [?|Hv%list_elem_of_singleton]%elem_of_app; [auto | subst; auto]. }
    destruct show; [|done].
    destruct (existsb _ _).
    + intros [->|?]%all_values_add_kid; auto.
    + rewrite all_values_app. simpl.
      intros [?|Hv%list_elem_of_singleton]%elem_of_app; [auto | subst; auto].
Qed.

(** Every id of an item either goes with the deletion of [i] or is still
    there afterwards. *)
Lemma item_ids_split i : forall it j,
  In j (item_ids it) ->
  In j (removed_ids i it) \/
  (Nat.eqb (item_id it) i = false /\ In j (item_ids (delete_item i it))).
Proof.
  fix IH 1. intros [k v kids] j. simpl.
  destruct (Nat.eqb k i) eqn:E; [by left|].
  intros [->|H]; [right; split; [done | by left]|].
  assert (Hkids : In j (flat_map (removed_ids i) kids) \/
                  In j (flat_map item_ids
                          (keep_map (fun k => negb (Nat.eqb (item_id k) i))
                             (delete_item i) kids))).
  { induction kids as [|kid kids IHk]; simpl in *; [done|].
    apply in_app_or in H as [H|H].
    - destruct (IH kid j H) as [Hr|[Hne Hd]].
      + left. apply in_or_app. by left.
      + right. rewrite Hne. simpl. apply in_or_app. by left.
    - destruct (IHk H) as [Hr|Hd].
      + left. apply in_or_app. by right.
      + right. destruct (negb (Nat.eqb (item_id kid) i)); simpl; [|done].
        apply in_or_app. by right. }
  destruct Hkids as [Hr|Hd]; [by left|]. right. split; [done | by right].
Qed.

Lemma forest_ids_split i (f : list Item) j :
  In j (flat_map item_ids f) ->
  In j (flat_map (removed_ids i) f) \/ In j (flat_map item_ids (forest_delete i f)).
Proof.
  unfold forest_delete. induction f as [|it f IH]; simpl; [done|].
  intros [H|H]%in_app_or.
  - destruct (item_ids_split i it j H) as [Hr|[Hne Hd]].
    + left. apply in_or_app. by left.
    + right. rewrite Hne. simpl. apply in_or_app. by left.
  - destruct (IH H) as [Hr|Hd].
    + left. apply in_or_app. by right.
    + right. destruct (negb (Nat.eqb (item_id it) i)); simpl; [|done].
      apply in_or_app. by right.
Qed.

(** An id that stays selected when [i] is deleted was selected, and is
    still an item if it was one. *)
Lemma tv_delete_selection i t j :
  In j (tv_selection (tv_delete i t)) ->
  In j (tv_selection t) /\ (In j (tv_all_ids t) -> In j (tv_all_ids (tv_delete i t))).
Proof.
  unfold tv_delete, tv_all_ids. simpl. intros [Hsel Hkeep]%filter_In.
  split; [done|]. intros Hid.
  destruct (forest_ids_split i (tv_items t) j Hid) as [Hgone|Hstays]; [|done].
  apply negb_true_iff in Hkeep.
  assert (Hex : existsb (Nat.eqb j) (flat_map (removed_ids i) (tv_items t)) = true).
  { apply existsb_exists. exists j. split; [done | apply Nat.eqb_refl]. }
  congruence.
Qed.

Lemma delete_all_selection ids : forall t j,
  In j (tv_selection (delete_all ids t)) ->
  In j (tv_selection t) /\ (In j (tv_all_ids t) -> In j (tv_all_ids (delete_all ids t))).
Proof.
  induction ids as [|i ids IH]; intros t j; simpl; [done|].
  intros [Hsel Hid]%IH. apply tv_delete_selection in Hsel as [Hsel Hid'].
  split; [done|]. auto.
Qed.

(** Emptying the widget empties the selection, when every selected id is an
    item. *)
Lemma delete_all_deselects t :
  (forall j, In j (tv_selection t) -> In j (tv_all_ids t)) ->
  tv_selection (delete_all (tv_get_children t) t) = [].
Proof.
  intros Hitems.
  destruct (tv_selection (delete_all (tv_get_children t) t)) as [|j sel] eqn:E; [done|].
  exfalso.
  destruct (delete_all_selection (tv_get_children t) t j) as [Hsel Hid].
  { rewrite E. by left. }
  specialize (Hid (Hitems j Hsel)).
  unfold tv_all_ids in Hid. by rewrite delete_all_children in Hid.
Qed.

Lemma clear_view_exact s :
  clear_view s =
  (inr tt,
   showing [] ∅ (tv_next (tree s))
     (tv_selection (delete_all (tv_get_children (tree s)) (tree s))) s).
Proof.
  unfold clear_view, bind, gets. rewrite for_each_modify, fold_delete_tree.
  unfold modify, showing. simpl. f_equal.
  pose proof (delete_all_children (tree s)) as Hnil.
  pose proof (delete_all_next (tv_get_children (tree s)) (tree s)) as Hnext.
  destruct (delete_all (tv_get_children (tree s)) (tree s)) as [items next sel].
  simpl in *. subst. by destruct s.
Qed.

(** The state a refresh of the view leaves, in full. *)
Lemma search_processes_view s :
  NoDup (keys (process_data s)) ->
  exists l ti n,
    search_processes s =
      (inr tt,
       showing l ti n
         (tv_selection (delete_all (tv_get_children (tree s)) (tree s))) s) /\
    view_inv l ti n /\
    erase l = layout (process_data s) (search_entry s) (children_visible s) (process_data s).
Proof.
  intros Hnd. rewrite search_processes_clear_then_insert.
  unfold bind at 1. rewrite clear_view_exact.
  unfold bind, gets. simpl.
  destruct (insert_loop (search_entry s)
              (tv_selection (delete_all (tv_get_children (tree s)) (tree s)))
              s (process_data s) [] [] ∅ (tv_next (tree s)) Hnd (view_inv_empty _))
    as (l & ti & n & Hloop & Hinv & Herase); [by intros ? ?%elem_of_nil | done |].
  exists l, ti, n. eauto.
Qed.

Lemma dict_get_elem (d : ProcessTable) k v :
  NoDup (keys d) -> (k, v) ∈ d -> dict_get k d = Some v.
Proof.
  induction d as [|[k' v'] d IH]; simpl; [by intros _ ?%elem_of_nil|].
  intros [Hnot Hnd]%NoDup_cons [Heq|Hin]%elem_of_cons.
  - injection Heq as -> ->. by rewrite Z.eqb_refl.
  - destruct (Z.eqb_spec k k') as [->|_]; [|by apply IH].
    destruct Hnot. by apply (list_elem_of_fmap_2 fst _ (k', v)).
Qed.

Lemma dict_get_Some_elem (d : ProcessTable) k v :
  dict_get k d = Some v -> (k, v) ∈ d.
Proof.
  induction d as [|[k' v'] d IH]; simpl; [done|].
  destruct (Z.eqb_spec k k') as [->|_].
  - intros [= ->]. apply list_elem_of_here.
  - intros H. by apply list_elem_of_further, IH.
Qed.

(** X6. After a refresh, [tree_items] knows exactly the processes shown at
    top level: a pid has an entry exactly when it has a top-level row, the
    item the entry names exists and shows that pid, and no two pids share an
    item. *)
Theorem tree_items_index_the_top_level_rows (s : App) :
  NoDup (keys (process_data s)) ->
  let s' := state_after (search_processes s) in
  (forall pid, is_Some (tree_items s' !! pid) <-> pid ∈ top_level_pids s) /\
  (forall pid item, tree_items s' !! pid = Some item ->
     exists values, tv_item_values item (tree s') = Some values /\ v_pid values = pid) /\
  (forall pid1 pid2 item,
     tree_items s' !! pid1 = Some item -> tree_items s' !! pid2 = Some item ->
     pid1 = pid2).
Proof.
  intros Hnd s'. subst s'.
  unfold top_level_pids. rewrite (render_rows_layout s Hnd), top_level_rows.
  destruct (search_processes_view s Hnd) as (l & ti & n & -> & Hinv & <-).
  rewrite root_pids_erase. simpl.
  destruct Hinv as (Hids & _ & _ & Hti). split; [|split].
  - intros pid. split.
    + intros [item (x & Hx & <- & _)%Hti%root_tags_elem].
      by apply (list_elem_of_fmap_2 t_pid).
    + intros (x & -> & Hx)%list_elem_of_fmap. exists (t_id x).
      apply Hti, root_tags_elem. eauto.
  - intros pid item (x & Hx & <- & <-)%Hti%root_tags_elem.
    exists (t_values x). split; [|done].
    unfold tv_item_values. simpl. by apply find_shape_root.
  - intros pid1 pid2 item (x1 & Hx1 & <- & <-)%Hti%root_tags_elem
      (x2 & Hx2 & <- & Hid)%Hti%root_tags_elem.
    by rewrite (NoDup_map_eq t_id l x2 x1 (root_ids_NoDup l Hids) Hx2 Hx1 Hid).
Qed.

Lemma tree_items_index_the_top_level_rows_witness :
  NoDup (keys family) /\
  (is_Some (tree_items (state_after (search_processes (app_with family "" true))) !! 3)
   <-> 3 ∈ top_level_pids (app_with family "" true)).
Proof.
  assert (Hnd : NoDup (keys family)) by (by apply NoDup_keys_decide).
  split; [exact Hnd|].
  exact (proj1 (tree_items_index_the_top_level_rows (app_with family "" true) Hnd) 3).
Defined.

(** ** The control actions and the cached table *)

Lemma keeps_table_local_pid p : keeps_table (local_pid p).
Proof. destruct p; [apply keeps_table_ret | apply keeps_table_raise]. Qed.

#[local] Hint Resolve keeps_table_local_pid : py.

Ltac keeps_more :=
  match goal with
  | |- keeps_table (try_local _ _ _) =>
      apply keeps_table_try_local; [| intros ? | intros ? e ? ?; destruct e; simplify_eq]
  | |- keeps_table (match ?x with [] => _ | _ :: _ => _ end) => destruct x
  | |- _ => keeps_step
  end.

Lemma keeps_table_control os op done failed :
  keeps_table (control_selected_process os op done failed).
Proof.
  unfold control_selected_process, selected_pid, cached_handle.
  repeat keeps_more.
Qed.

Lemma keeps_table_open_file_location os : keeps_table (open_file_location os).
Proof.
  unfold open_file_location, selected_pid, cached_handle, open_folder.
  repeat keeps_more.
Qed.

(** C8. A control action (kill, suspend, resume, locate executable) leaves the
    cached process table exactly as it was, whatever is selected and whatever
    the operating system answers: the action reaches the process only
    through its handle. *)
Theorem control_actions_keep_table (os : OS) (s : App) :
  process_data (state_after (kill_selected_process os s)) = process_data s /\
  process_data (state_after (suspend_selected_process os s)) = process_data s /\
  process_data (state_after (resume_selected_process os s)) = process_data s /\
  process_data (state_after (open_file_location os s)) = process_data s.
Proof.
  repeat split; first [apply keeps_table_control | apply keeps_table_open_file_location].
Qed.

(** ** What a refresh after some events leaves *)

Lemma trace_appended {A} s (r : (Exn + A) * App) evs :
  trace (state_after r) = trace s ++ evs -> appended s r = evs.
Proof. intros H. unfold appended. rewrite H. apply drop_app_length. Qed.

Lemma appended_add_events {A} s (x : Exn + A) evs :
  appended s (x, add_events evs s) = evs.
Proof. apply trace_appended. reflexivity. Qed.

Lemma refresh_after_events s evs :
  NoDup (keys (process_data s)) ->
  refreshed_after s evs (refresh_processes (add_events evs s)).
Proof.
  intros Hnd.
  assert (Hnd' : NoDup (keys (process_data (add_events evs s)))) by done.
  destruct (refresh_processes_fields (add_events evs s) Hnd') as (Hd & _ & _ & Ht & Hrows).
  split; [by rewrite refresh_processes_run|].
  split; [rewrite Ht; simpl; by rewrite <- app_assoc|].
  split; [|done].
  rewrite Hrows. by rewrite (render_rows_layout _ Hnd').
Qed.

Lemma run_action_control os a :
  run_action os a =
  control_selected_process os (action_op a) (action_done a) (action_failed a).
Proof. by destruct a. Qed.

(** ** Actions and the diagnostics database *)

Lemma db_quiet_sqlite : sqlite_errors_only db_quiet.
Proof. split; intros; discriminate. Qed.

Lemma db_full_sqlite : sqlite_errors_only db_full.
Proof. split; [intros t l m e [= <-]; reflexivity | intros; discriminate]. Qed.

(** C10 (the code departs from it).  With no row selected, each control
    action (kill, suspend, resume, locate executable) catches the
    [IndexError] and logs the warning "no_process_selected"; but when
    [_create_database] could not set [self.cursor], the [log_error_to_db]
    call of that handler raises [AttributeError], which no clause catches:
    the exception reaches the caller.  Nothing else has happened by then: no
    handle operation, no refresh, the table and the widget as they were. *)
Theorem no_selection_escapes_without_the_database (os : OS) (s : App) :
  tv_selection (tree s) = [] -> cursor s = None ->
  let escaped :=
    (inl AttributeError,
     add_events [ev_logging WARNING (translate "no_process_selected" [])] s) in
  kill_selected_process os s = escaped /\
  suspend_selected_process os s = escaped /\
  resume_selected_process os s = escaped /\
  open_file_location os s = escaped.
Proof.
  intros Hsel Hc escaped. subst escaped.
  rewrite <- (warn_no_cursor (translate "no_process_selected" []) s Hc).
  repeat split;
    first [by apply control_no_selection | by apply open_file_location_no_selection].
Qed.

Lemma no_selection_escapes_without_the_database_witness :
  let s := without_database (app_with [proc 1 "init" 0] "" false) in
  tv_selection (tree s) = [] /\ cursor s = None /\
  kill_selected_process os_quiet s =
    (inl AttributeError,
     add_events [ev_logging WARNING (translate "no_process_selected" [])] s).
Proof.
  intros s. split; [reflexivity|]. split; [reflexivity|].
  exact (proj1 (no_selection_escapes_without_the_database os_quiet s eq_refl eq_refl)).
Defined.

(** X31. With no row selected and the diagnostics database in place, each
    control action (kill, suspend, resume, locate executable) returns
    normally having done nothing but report the warning
    "no_process_selected" on the log and to the database: no handle
    operation is attempted, the table and the widget are untouched and
    nothing is refreshed. *)
Theorem no_selection_is_handled_with_the_database (os : OS) (s : App) (db : Database) :
  tv_selection (tree s) = [] -> database s = Some db -> sqlite_errors_only db ->
  kill_selected_process os s = no_selection_result db s /\
  suspend_selected_process os s = no_selection_result db s /\
  resume_selected_process os s = no_selection_result db s /\
  open_file_location os s = no_selection_result db s.
Proof.
  intros Hsel Hdb Hsql. unfold no_selection_result.
  rewrite <- (warn_run (translate "no_process_selected" []) s db Hdb Hsql).
  repeat split;
    first [by apply control_no_selection | by apply open_file_location_no_selection].
Qed.

Lemma no_selection_is_handled_with_the_database_witness :
  let s := app_with [proc 1 "init" 0] "" false in
  tv_selection (tree s) = [] /\ database s = Some db_quiet /\
  sqlite_errors_only db_quiet /\
  kill_selected_process os_quiet s =
    (inr tt, add_events (log_pair WARNING (translate "no_process_selected" [])) s).
Proof.
  intros s. split; [reflexivity|]. split; [reflexivity|]. split; [exact db_quiet_sqlite|].
  exact (proj1 (no_selection_is_handled_with_the_database os_quiet s db_quiet eq_refl eq_refl
                  db_quiet_sqlite)).
Defined.

(** C7 (the code departs from it).  A control action (kill, suspend, resume)
    on a selected row showing [pid] raises [AttributeError] whenever a
    diagnostic is due and [_create_database] could not set [self.cursor]:
    when [pid] is not in the table, the warning "not found" is logged, its
    [log_error_to_db] raises, the last [except] clause logs the error and its
    own [log_error_to_db] raises again; when the handle operation raises
    (the process has exited, or the privilege is missing), the clause of that
    exception logs its diagnostic and the [log_error_to_db] after it
    raises.  In both cases the exception reaches the caller and the view is
    not refreshed. *)
Theorem control_action_escapes_without_the_database
    (os : OS) (a : Action) (s : App) (pid : Z) :
  selects s pid -> cursor s = None ->
  let r := run_action os a s in
  (dict_get pid (process_data s) = None ->
   r = (inl AttributeError,
        add_events
          [ev_logging WARNING (fmt "Process with PID {pid} not found." [a_pid pid]);
           ev_logging ERROR (translate (action_failed a) [a_exn AttributeError])] s)) /\
  (forall info e,
     dict_get pid (process_data s) = Some info ->
     os_signal os (action_op a) (process_obj info) = Some e ->
     let d := control_failure (action_failed a) pid e in
     r = (inl AttributeError,
          add_events [ev_process (action_op a) (process_obj info);
                      ev_logging (fst d) (snd d)] s)).
Proof.
  intros Hsel Hc. rewrite run_action_control.
  exact (control_run_no_cursor os (action_op a) (action_done a) (action_failed a)
           s pid Hsel Hc).
Qed.

Lemma app_selected_selects : selects app_selected 7.
Proof. exists 0%nat, [], (values_of 7 (snd (proc 7 "editor" 0))). repeat split. Qed.

Lemma without_database_selects s pid : selects s pid -> selects (without_database s) pid.
Proof. intros H. exact H. Qed.

Lemma control_action_escapes_without_the_database_witness :
  let s := without_database app_selected in
  selects s 7 /\ cursor s = None /\
  run_action os_denied Kill s =
    (inl AttributeError,
     add_events [ev_process op_kill (Process 7);
                 ev_logging WARNING (translate "access_denied" [a_pid 7])] s).
Proof.
  intros s.
  assert (Hsel : selects s 7) by exact (without_database_selects _ _ app_selected_selects).
  split; [exact Hsel|]. split; [reflexivity|].
  exact (proj2 (control_action_escapes_without_the_database os_denied Kill s 7 Hsel eq_refl)
           (snd (proc 7 "editor" 0)) AccessDenied eq_refl eq_refl).
Defined.

(** X30. With the diagnostics database in place, a control action (kill,
    suspend, resume) on a selected row showing [pid] returns normally in
    every case.  When [pid] is not in the table it reports the warning "not
    found" and refreshes the view; when the handle operation succeeds it
    logs the success and refreshes; when the operation raises
    [NoSuchProcess] (or its subclass [ZombieProcess]) it reports the warning
    "process_not_found" and refreshes; when it raises [AccessDenied] it
    reports the warning "access_denied" and does not refresh; any other
    failure is reported and nothing is refreshed.  After a refresh the rows
    on display are those the table, the search text and the toggle
    determine. *)
Theorem control_action_outcomes_with_the_database
    (os : OS) (a : Action) (s : App) (pid : Z) (db : Database) :
  selects s pid -> NoDup (keys (process_data s)) ->
  database s = Some db -> sqlite_errors_only db ->
  let r := run_action os a s in
  let t := length (trace s) in
  returned r = true /\
  (dict_get pid (process_data s) = None ->
   refreshed_after s
     (logged db t WARNING (fmt "Process with PID {pid} not found." [a_pid pid])) r) /\
  (forall info, dict_get pid (process_data s) = Some info ->
     let sent := ev_process (action_op a) (process_obj info) in
     let answer := os_signal os (action_op a) (process_obj info) in
     (answer = None ->
      refreshed_after s [sent; ev_logging INFO (fmt (action_done a) [a_pid pid])] r) /\
     (forall e, answer = Some e -> is_NoSuchProcess e = true ->
      refreshed_after s
        (sent :: logged db (S t) WARNING (translate "process_not_found" [a_pid pid])) r) /\
     (answer = Some AccessDenied ->
      r = (inr tt,
           add_events
             (sent :: logged db (S t) WARNING (translate "access_denied" [a_pid pid])) s)) /\
     (forall e, answer = Some e -> is_NoSuchProcess e = false ->
      let d := control_failure (action_failed a) pid e in
      r = (inr tt, add_events (sent :: logged db (S t) (fst d) (snd d)) s))).
Proof.
  intros Hsel Hnd Hdb Hsql r t. subst r t. rewrite run_action_control.
  rewrite (control_run os _ _ _ s pid db Hsel Hdb Hsql Hnd).
  split.
  { destruct (dict_get pid (process_data s)) as [info|]; cbv zeta.
    - destruct (os_signal os (action_op a) (process_obj info)) as [e|].
      + destruct (is_NoSuchProcess e); [|done].
        by destruct (refresh_after_events s
                       (ev_process (action_op a) (process_obj info)
                        :: logged db (S (length (trace s)))
                             (fst (control_failure (action_failed a) pid e))
                             (snd (control_failure (action_failed a) pid e))) Hnd)
          as (Hr & _); unfold returned; rewrite Hr.
      + by destruct (refresh_after_events s
                       [ev_process (action_op a) (process_obj info);
                        ev_logging INFO (fmt (action_done a) [a_pid pid])] Hnd)
          as (Hr & _); unfold returned; rewrite Hr.
    - by destruct (refresh_after_events s
                     (logged db (length (trace s)) WARNING
                        (fmt "Process with PID {pid} not found." [a_pid pid])) Hnd)
        as (Hr & _); unfold returned; rewrite Hr. }
  split.
  - intros ->. by apply refresh_after_events.
  - intros info ->. cbv zeta. split; [|split; [|split]].
    + intros ->. by apply refresh_after_events.
    + intros e -> He. rewrite He.
      destruct e; try discriminate; by apply refresh_after_events.
    + by intros ->.
    + intros e -> He. by rewrite He.
Qed.

Lemma control_action_outcomes_with_the_database_witness :
  selects app_selected 7 /\ NoDup (keys (process_data app_selected)) /\
  database app_selected = Some db_quiet /\ sqlite_errors_only db_quiet /\
  returned (run_action os_quiet Kill app_selected) = true.
Proof.
  assert (Hnd : NoDup (keys (process_data app_selected)))
    by (by apply NoDup_keys_decide).
  split; [exact app_selected_selects|]. split; [exact Hnd|].
  split; [reflexivity|]. split; [exact db_quiet_sqlite|].
  exact (proj1 (control_action_outcomes_with_the_database os_quiet Kill app_selected 7 db_quiet
                  app_selected_selects Hnd eq_refl db_quiet_sqlite)).
Defined.

(** With the database in place an action on a selected row returns. *)
Lemma control_returns os op done failed s pid db :
  selects s pid -> NoDup (keys (process_data s)) ->
  database s = Some db -> sqlite_errors_only db ->
  returned (control_selected_process os op done failed s) = true.
Proof.
  intros Hsel Hnd Hdb Hsql.
  rewrite (control_run os op done failed s pid db Hsel Hdb Hsql Hnd).
  destruct (dict_get pid (process_data s)) as [info|]; cbv zeta;
    [destruct (os_signal os op (process_obj info)) as [e|];
       [destruct (is_NoSuchProcess e); [|done]|]|];
    by apply refresh_processes_returns.
Qed.


(** ** What the control actions do to the outside world *)

Lemma process_events_app evs1 evs2 :
  process_events (evs1 ++ evs2) = process_events evs1 ++ process_events evs2.
Proof. apply omap_app. Qed.

Lemma opened_folders_app evs1 evs2 :
  opened_folders (evs1 ++ evs2) = opened_folders evs1 ++ opened_folders evs2.
Proof. apply omap_app. Qed.

Lemma posted_app evs1 evs2 : posted (evs1 ++ evs2) = posted evs1 ++ posted evs2.
Proof. apply omap_app. Qed.

(** The events of a control action on a selected row whose pid is in the
    table begin with the operation on the cached handle. *)
Lemma control_appended os op done failed s pid info :
  selects s pid -> dict_get pid (process_data s) = Some info ->
  exists evs,
    quiet evs /\
    appended s (control_selected_process os op done failed s) =
    ev_process op (process_obj info) :: evs.
Proof.
  intros Hsel Hget.
  destruct (control_events os op done failed s) as (evs & Hq & Ht).
  rewrite (selected_pid_run _ _ Hsel), Hget in Ht.
  exists evs. split; [done|]. by apply trace_appended.
Qed.

(** X7. A control action (kill, suspend, resume) sends at most one operation
    to a process handle: its own operation, to the handle cached under the
    pid of the selected row.  It never opens a folder, and what the trace held
    before stays in front. *)
Theorem control_action_reaches_only_the_selected_process (os : OS) (a : Action) (s : App) :
  NoDup (keys (process_data s)) ->
  let r := run_action os a s in
  trace (state_after r) = trace s ++ appended s r /\
  opened_folders (appended s r) = [] /\
  (process_events (appended s r) = [] \/
   exists pid info,
     selects s pid /\ dict_get pid (process_data s) = Some info /\
     process_events (appended s r) = [(action_op a, process_obj info)]).
Proof.
  intros Hnd r. subst r. rewrite run_action_control.
  destruct (control_events os (action_op a) (action_done a) (action_failed a) s)
    as (evs & Hq & Ht).
  rewrite (trace_appended _ _ _ Ht). split; [done|].
  rewrite opened_folders_app, process_events_app.
  rewrite (quiet_opened_folders _ Hq), (quiet_process_events _ Hq), !app_nil_r.
  destruct (selected_pid_cases s) as [(pid & Hsel & ->)|[[_ ->]|[_ ->]]];
    [|by split; [|left] ..].
  destruct (dict_get pid (process_data s)) as [info|] eqn:Hget; [|by split; [|left]].
  split; [done|]. right. by exists pid, info.
Qed.

Lemma control_action_reaches_only_the_selected_process_witness :
  NoDup (keys (process_data app_selected)) /\
  opened_folders (appended app_selected (run_action os_quiet Kill app_selected)) = [].
Proof.
  assert (Hnd : NoDup (keys (process_data app_selected)))
    by (by apply NoDup_keys_decide).
  split; [exact Hnd|].
  exact (proj1 (proj2
           (control_action_reaches_only_the_selected_process os_quiet Kill app_selected Hnd))).
Defined.

Example kill_reaches_process_7 :
  process_events (appended app_selected (run_action os_quiet Kill app_selected)) =
  [(op_kill, Process 7)].
Proof. by vm_compute. Qed.

(** ** Locating the executable *)

Section Locate.

Variable os : OS.

(** The inner handler of [open_file_location] is the diagnostic of
    [locate_failure]. *)
Lemma locate_handler_run pid e :
  (match e with
   | AccessDenied => Some (warn (translate "access_denied_location" [a_pid pid]))
   | FileNotFoundError => Some (warn (translate "file_not_found" [a_pid pid]))
   | _ => Some (error (translate "error_opening_location" [a_exn e]))
   end : option (M unit)) =
  Some (bind (emit (ev_logging (fst (locate_failure pid e)) (snd (locate_failure pid e))))
          (fun _ => log_error_to_db (fst (locate_failure pid e))
                      (snd (locate_failure pid e)))).
Proof. by destruct e. Qed.

(** The steps of [open_file_location] up to the first failure. *)
Lemma locate_body_run s pid info :
  dict_get pid (process_data s) = Some info ->
  let h := process_obj info in
  let s1 := add_events [ev_process op_exe h] s in
  (process <- cached_handle pid ;;
   emit (ev_process op_exe process) ;;
   exe_path <- os_value (os_exe os process) ;;
   if String.eqb (os_platform os) "Windows" then
     open_folder os (os_dirname os exe_path)
   else if String.eqb (os_platform os) "Linux"
           || String.eqb (os_platform os) "Darwin" then
     open_folder os (os_dirname os exe_path)
   else
     warn (fmt "Opening folder not supported on this OS." [])) s =
  match os_exe os h with
  | inl e => (inl e, s1)
  | inr exe_path =>
      if platform_supported os then
        let s2 := add_events [ev_process op_exe h; ev_open_folder (os_dirname os exe_path)] s in
        match os_open os (os_dirname os exe_path) with
        | Some e => (inl e, s2)
        | None => (inr tt, s2)
        end
      else warn (fmt "Opening folder not supported on this OS." []) s1
  end.
Proof.
  intros Hget h s1.
  unfold bind at 1. rewrite (cached_handle_run _ _ _ Hget).
  unfold bind at 1. rewrite emit_run. cbv beta iota.
  unfold bind at 1. unfold os_value. fold h. fold s1.
  destruct (os_exe os h) as [e|exe_path]; [reflexivity|].
  unfold ret, platform_supported.
  assert (Hopen : open_folder os (os_dirname os exe_path) s1 =
                  match os_open os (os_dirname os exe_path) with
                  | Some e =>
                      (inl e,
                       add_events [ev_process op_exe h;
                                   ev_open_folder (os_dirname os exe_path)] s)
                  | None =>
                      (inr tt,
                       add_events [ev_process op_exe h;
                                   ev_open_folder (os_dirname os exe_path)] s)
                  end).
  { unfold open_folder, bind. rewrite emit_run. subst s1. rewrite add_events_app.
    unfold os_unit. by destruct (os_open os (os_dirname os exe_path)). }
  destruct (String.eqb (os_platform os) "Windows"); [exact Hopen|].
  destruct (String.eqb (os_platform os) "Linux"); [exact Hopen|].
  destruct (String.eqb (os_platform os) "Darwin"); [exact Hopen | reflexivity].
Qed.

(** What [open_file_location] does on a selected row whose pid is in the
    table, with the database in place. *)
Lemma open_file_location_run s pid info db :
  selects s pid -> dict_get pid (process_data s) = Some info ->
  database s = Some db -> sqlite_errors_only db ->
  let h := process_obj info in
  let t := S (length (trace s)) in
  open_file_location os s =
  (inr tt,
   add_events
     (ev_process op_exe h ::
      match os_exe os h with
      | inl e => reported db t (locate_failure pid e)
      | inr exe_path =>
          if platform_supported os then
            ev_open_folder (os_dirname os exe_path) ::
            match os_open os (os_dirname os exe_path) with
            | None => []
            | Some e => reported db (S t) (locate_failure pid e)
            end
          else logged db t WARNING (fmt "Opening folder not supported on this OS." [])
      end) s).
Proof.
  intros Hsel Hget Hdb Hsql h t. unfold open_file_location, try_local.
  rewrite (selected_pid_run _ _ Hsel).
  assert (Hmem : dict_mem pid (process_data s) = true) by (apply dict_mem_get; eauto).
  rewrite try_except_returns; unfold bind at 1; unfold gets at 1; rewrite Hmem.
  all: unfold try_except; rewrite (locate_body_run s pid info Hget); fold h.
  all: set (s1 := add_events [ev_process op_exe h] s).
  all: assert (Hlen1 : length (trace s1) = t)
         by (subst s1 t; rewrite length_add_events; simpl; lia).
  all: destruct (os_exe os h) as [e|exe_path].
  all: try (rewrite locate_handler_run, (report_run _ _ s1 db Hdb Hsql), Hlen1;
            subst s1; rewrite add_events_app; reflexivity).
  all: destruct (platform_supported os).
  all: try (rewrite (warn_run _ s1 db Hdb Hsql), Hlen1;
            subst s1; rewrite add_events_app; reflexivity).
  all: cbv zeta;
       set (s2 := add_events [ev_process op_exe h;
                              ev_open_folder (os_dirname os exe_path)] s).
  all: assert (Hlen2 : length (trace s2) = S t)
         by (subst s2 t; rewrite length_add_events; simpl; lia).
  all: destruct (os_open os (os_dirname os exe_path)) as [e|]; [|reflexivity].
  all: rewrite locate_handler_run, (report_run _ _ s2 db Hdb Hsql), Hlen2;
       subst s2; rewrite add_events_app; reflexivity.
Qed.

(** Without a cursor, a failure to read the path ends in [AttributeError]:
    the diagnostic of the inner handler raises it, and so does that of the
    outer handler which catches it. *)
Lemma open_file_location_no_cursor s pid info e :
  selects s pid -> dict_get pid (process_data s) = Some info ->
  cursor s = None -> os_exe os (process_obj info) = inl e ->
  open_file_location os s =
  (inl AttributeError,
   add_events
     [ev_process op_exe (process_obj info);
      ev_logging (fst (locate_failure pid e)) (snd (locate_failure pid e));
      ev_logging ERROR (translate "general_error" [a_exn AttributeError])] s).
Proof.
  intros Hsel Hget Hc Hexe. unfold open_file_location, try_local.
  rewrite (selected_pid_run _ _ Hsel).
  assert (Hmem : dict_mem pid (process_data s) = true) by (apply dict_mem_get; eauto).
  unfold try_except at 1. unfold bind at 1. unfold gets at 1. rewrite Hmem.
  unfold try_except. rewrite (locate_body_run s pid info Hget), Hexe.
  rewrite locate_handler_run, report_no_cursor by done.
  rewrite error_no_cursor by done. by rewrite !add_events_app.
Qed.

End Locate.

(** X8. With the diagnostics database in place, [open_file_location] on a
    selected row whose pid is in the table asks the cached handle for the
    executable path and then: opens the folder of the path on Windows, Linux
    and Darwin; on another platform opens nothing and reports a warning;
    when the path cannot be read or the folder cannot be opened, reports a
    warning for [AccessDenied] and [FileNotFoundError] and an error for
    anything else ([NoSuchProcess] included).  In every case it returns
    normally, refreshes nothing and leaves the rest of the state alone. *)
Theorem open_file_location_outcomes
    (os : OS) (s : App) (pid : Z) (info : ProcessInfo) (db : Database) :
  selects s pid -> dict_get pid (process_data s) = Some info ->
  database s = Some db -> sqlite_errors_only db ->
  let h := process_obj info in
  let r := open_file_location os s in
  let t := S (length (trace s)) in
  (forall e, os_exe os h = inl e ->
     r = (inr tt,
          add_events (ev_process op_exe h :: reported db t (locate_failure pid e)) s)) /\
  (forall exe_path, os_exe os h = inr exe_path -> platform_supported os = false ->
     r = (inr tt,
          add_events
            (ev_process op_exe h ::
             logged db t WARNING (fmt "Opening folder not supported on this OS." [])) s)) /\
  (forall exe_path, os_exe os h = inr exe_path -> platform_supported os = true ->
     os_open os (os_dirname os exe_path) = None ->
     r = (inr tt,
          add_events [ev_process op_exe h; ev_open_folder (os_dirname os exe_path)] s)) /\
  (forall exe_path e, os_exe os h = inr exe_path -> platform_supported os = true ->
     os_open os (os_dirname os exe_path) = Some e ->
     r = (inr tt,
          add_events
            (ev_process op_exe h :: ev_open_folder (os_dirname os exe_path)
             :: reported db (S t) (locate_failure pid e)) s)).
Proof.
  intros Hsel Hget Hdb Hsql h r t. subst r.
  rewrite (open_file_location_run os s pid info db Hsel Hget Hdb Hsql).
  cbv zeta. fold h. fold t. repeat split.
  - by intros e ->.
  - by intros exe_path -> ->.
  - by intros exe_path -> -> ->.
  - by intros exe_path e -> -> ->.
Qed.

Lemma open_file_location_outcomes_witness :
  selects app_selected 7 /\ database app_selected = Some db_quiet /\
  sqlite_errors_only db_quiet /\
  open_file_location os_plan9 app_selected =
  (inr tt,
   add_events
     (ev_process op_exe (Process 7) ::
      log_pair WARNING (fmt "Opening folder not supported on this OS." []))
     app_selected).
Proof.
  split; [exact app_selected_selects|]. split; [reflexivity|].
  split; [exact db_quiet_sqlite|].
  destruct (open_file_location_outcomes os_plan9 app_selected 7 (snd (proc 7 "editor" 0))
              db_quiet app_selected_selects eq_refl eq_refl db_quiet_sqlite)
    as (_ & Hplatform & _).
  exact (Hplatform "/sbin/init" eq_refl eq_refl).
Defined.

(** ** Rows, selection and the table *)

Lemma refresh_processes_view s :
  NoDup (keys (process_data s)) ->
  exists l ti n,
    state_after (refresh_processes s) =
      add_events [refresh_event]
        (showing l ti n
           (tv_selection (delete_all (tv_get_children (tree s)) (tree s))) s) /\
    view_inv l ti n /\
    erase l = layout (process_data s) (search_entry s) (children_visible s) (process_data s).
Proof.
  intros Hnd. rewrite refresh_processes_run by done.
  destruct (search_processes_view s Hnd) as (l & ti & n & -> & Hinv & Herase).
  exists l, ti, n. done.
Qed.

(** X9. Every row of a freshly refreshed view shows a record of the table:
    the values of the row are those of the record stored under the row's
    pid.  So a control action on a row the user clicks in that view finds the
    pid in the table and sends its operation to the cached handle of that
    record; it never takes the "not found" branch. *)
Theorem a_fresh_row_is_in_the_table (s : App) :
  NoDup (keys (process_data s)) ->
  let s' := state_after (refresh_processes s) in
  forall item values,
    tv_item_values item (tree s') = Some values ->
    exists info,
      dict_get (v_pid values) (process_data s') = Some info /\
      values = values_of (v_pid values) info /\
      forall os a, exists evs,
        appended (click_row item s') (run_action os a (click_row item s')) =
        ev_process (action_op a) (process_obj info) :: evs.
Proof.
  intros Hnd s' item values Hitem.
  destruct (refresh_processes_view s Hnd) as (l & ti & n & Hs' & Hinv & Herase).
  fold s' in Hs'.
  assert (Hd : process_data s' = process_data s) by (by rewrite Hs').
  assert (Hin : exists pid info,
            (pid, info) ∈ process_data s /\ values = values_of pid info).
  { unfold tv_item_values in Hitem. rewrite Hs' in Hitem. simpl in Hitem.
    apply find_shape_some, tagged_items_values in Hitem. rewrite Herase in Hitem.
    apply layout_values in Hitem as (pid & info & Hin & -> & _). eauto. }
  destruct Hin as (pid & info & Hin & ->).
  assert (Hget : dict_get pid (process_data s') = Some info)
    by (rewrite Hd; by apply dict_get_elem).
  exists info. simpl. split; [done|]. split; [done|].
  intros os a.
  assert (Hsel : selects (click_row item s') pid).
  { by exists item, [], (values_of pid info). }
  rewrite run_action_control.
  destruct (control_appended os (action_op a) (action_done a) (action_failed a)
              (click_row item s') pid info Hsel Hget) as (evs & _ & Happ).
  by exists evs.
Qed.

Lemma a_fresh_row_is_in_the_table_witness :
  NoDup (keys family) /\
  exists info,
    dict_get 2 (process_data (state_after (refresh_processes (app_with family "" true))))
    = Some info.
Proof.
  assert (Hnd : NoDup (keys family)) by (by apply NoDup_keys_decide).
  split; [exact Hnd|].
  destruct (a_fresh_row_is_in_the_table (app_with family "" true) Hnd 1%nat
              (values_of 2 (snd (proc 2 "child" 1))))
    as (info & Hget & _).
  - by vm_compute.
  - exists info. exact Hget.
Defined.

(** A refresh leaves the database attributes alone. *)
Lemma refresh_processes_database s :
  database (state_after (refresh_processes s)) = database s.
Proof.
  destruct (logs_only_refresh s) as (evs & _ & _ & Hc & Hn).
  unfold database. by rewrite Hc, Hn.
Qed.

(** X10. A refresh empties the selection: every selected id being an item of
    the widget, as Tk sees to, no row is selected after [refresh_processes],
    the rows having been deleted with all their descendants.  With the
    database in place, a control action invoked next only reports that no
    process is selected. *)
Theorem refresh_drops_the_selection (s : App) :
  NoDup (keys (process_data s)) ->
  (forall item, In item (tv_selection (tree s)) -> In item (tv_all_ids (tree s))) ->
  let s' := state_after (refresh_processes s) in
  tv_selection (tree s') = [] /\
  forall os db,
    database s = Some db -> sqlite_errors_only db ->
    kill_selected_process os s' = no_selection_result db s' /\
    suspend_selected_process os s' = no_selection_result db s' /\
    resume_selected_process os s' = no_selection_result db s' /\
    open_file_location os s' = no_selection_result db s'.
Proof.
  intros Hnd Hitems s'.
  assert (Hsel : tv_selection (tree s') = []).
  { destruct (refresh_processes_view s Hnd) as (l & ti & n & Hs' & _).
    fold s' in Hs'. rewrite Hs'. simpl. by apply delete_all_deselects. }
  split; [done|]. intros os db Hdb Hsql.
  assert (Hdb' : database s' = Some db) by (subst s'; by rewrite refresh_processes_database).
  unfold no_selection_result.
  rewrite <- (warn_run (translate "no_process_selected" []) s' db Hdb' Hsql).
  repeat split;
    first [by apply control_no_selection | by apply open_file_location_no_selection].
Qed.

Lemma refresh_drops_the_selection_witness :
  let s := click_row 1%nat (state_after (refresh_processes (app_with family "" true))) in
  NoDup (keys (process_data s)) /\
  (forall item, In item (tv_selection (tree s)) -> In item (tv_all_ids (tree s))) /\
  tv_selection (tree (state_after (refresh_processes s))) = [].
Proof.
  intros s.
  assert (Hnd : NoDup (keys (process_data s))) by (by apply NoDup_keys_decide).
  assert (Hitems : forall item, In item (tv_selection (tree s)) ->
                                In item (tv_all_ids (tree s))).
  { intros item [<-|[]]. vm_compute. auto. }
  split; [exact Hnd|]. split; [exact Hitems|].
  exact (proj1 (refresh_drops_the_selection s Hnd Hitems)).
Defined.

(** The selected row of that example is the nested one, of the child 2. *)
Example nested_row_selected :
  let s := click_row 1%nat (state_after (refresh_processes (app_with family "" true))) in
  selected_pid s = (inr 2%Z, s) /\
  tv_get_children (tree s) = [0%nat; 2%nat] /\
  tv_all_ids (tree s) = [0%nat; 1%nat; 2%nat].
Proof. by vm_compute. Qed.

(** ** Sampling *)

Lemma logged_all_app db ds1 : forall t ds2,
  logged_all db t (ds1 ++ ds2) =
  logged_all db t ds1 ++ logged_all db (t + length (logged_all db t ds1)) ds2.
Proof.
  induction ds1 as [|[l m] ds1 IH]; intros t ds2; cbn [logged_all app length].
  - by rewrite Nat.add_0_r.
  - by rewrite IH, <- app_assoc, length_app, Nat.add_assoc.
Qed.

Lemma logged_all_one db t l m : logged_all db t [(l, m)] = logged db t l m.
Proof. cbn [logged_all]. by rewrite app_nil_r. Qed.

Lemma logged_all_elem db ds l m : forall t,
  (l, m) ∈ ds -> ev_logging l m ∈ logged_all db t ds.
Proof.
  induction ds as [|[l' m'] ds IH]; intros t Hin; [by apply elem_of_nil in Hin|].
  cbn [logged_all]. apply elem_of_app.
  apply elem_of_cons in Hin as [[= <- <-]|Hin]; [left; apply list_elem_of_here|].
  right. by apply IH.
Qed.

Lemma posted_logged_all db t ds : posted (logged_all db t ds) = [].
Proof. apply quiet_posted, quiet_logged_all. Qed.

Lemma first_failure (iter : list (Exn + RawProcessInfo)) :
  (exists read, iter = map inr read) \/
  exists read e after, iter = map inr read ++ inl e :: after.
Proof.
  induction iter as [|[e|info] iter IH].
  - left. by exists [].
  - right. by exists [], e, iter.
  - destruct IH as [(read & ->)|(read & e & after & ->)].
    + left. by exists (info :: read).
    + right. by exists (info :: read), e, after.
Qed.

Lemma first_hard_failure (iter : list (Exn + RawProcessInfo)) :
  soft_failures_only iter \/
  exists before e after,
    iter = before ++ inl e :: after /\ soft_failures_only before /\
    is_process_error e = false.
Proof.
  induction iter as [|r iter IH]; [left; constructor|].
  destruct r as [e|info].
  - destruct (is_process_error e) eqn:He.
    + destruct IH as [IH|(before & e' & after & -> & Hsoft & He')].
      * left. by constructor.
      * right. exists (inl e :: before), e', after. split; [done|]. split; [|done].
        by constructor.
    + right. exists [], e, iter. split; [done|]. split; [constructor | done].
  - destruct IH as [IH|(before & e' & after & -> & Hsoft & He')].
    + left. by constructor.
    + right. exists (inr info :: before), e', after. split; [done|]. split; [|done].
      by constructor.
Qed.

Section Sampling.

Variable os : OS.

(** Entries that are read need no diagnostic, hence no database. *)
Lemma read_processes_read read : forall processes s,
  forall (k : list RawProcessInfo -> M unit) iter,
  bind (read_processes processes (map inr read ++ iter)) k s =
  bind (read_processes (processes ++ read) iter) k s.
Proof.
  induction read as [|info read IH]; intros processes s k iter; simpl.
  - by rewrite app_nil_r.
  - unfold bind at 1. unfold bind at 1. unfold read_process, try_except. simpl.
    specialize (IH (processes ++ [info]) s k iter). unfold bind at 1 in IH.
    rewrite IH. by rewrite <- app_assoc.
Qed.

Section Database.

Variable db : Database.
Hypothesis Hsql : sqlite_errors_only db.

Lemma read_processes_run iter : forall processes s,
  database s = Some db -> soft_failures_only iter ->
  read_processes processes iter s =
  (inr (processes ++ read_ok iter),
   add_events (logged_all db (length (trace s)) (read_warnings iter)) s).
Proof.
  induction iter as [|r iter IH]; intros processes s Hdb Hsoft; simpl.
  - by rewrite app_nil_r, add_events_nil.
  - apply Forall_cons in Hsoft as [Hr Hsoft].
    unfold bind at 1. unfold read_process, try_except.
    destruct r as [e|info]; simpl.
    + rewrite Hr. rewrite (bind_warn _ _ s db Hdb Hsql). unfold ret.
      rewrite IH by done. by rewrite add_events_app, length_add_events.
    + rewrite IH by done. by rewrite <- app_assoc.
Qed.

(** An enumeration that fails for another reason stops at that failure. *)
Lemma read_processes_hard_failure before e after : forall processes s,
  database s = Some db ->
  soft_failures_only before -> is_process_error e = false ->
  read_processes processes (before ++ inl e :: after) s =
  (inl e, add_events (logged_all db (length (trace s)) (read_warnings before)) s).
Proof.
  induction before as [|r before IH]; intros processes s Hdb Hsoft He; simpl.
  - unfold bind, read_process, try_except. simpl. by rewrite He, add_events_nil.
  - apply Forall_cons in Hsoft as [Hr Hsoft].
    unfold bind at 1. unfold read_process, try_except.
    destruct r as [e'|info]; simpl.
    + rewrite Hr. rewrite (bind_warn _ _ s db Hdb Hsql). unfold ret.
      rewrite IH by done. by rewrite add_events_app, length_add_events.
    + by rewrite IH.
Qed.

Lemma sampling_run s :
  database s = Some db -> soft_failures_only (os_process_iter os) ->
  _update_processes_thread os s =
  (inr tt,
   add_events
     (logged_all db (length (trace s)) (read_warnings (os_process_iter os)) ++
      [ev_logging DEBUG (fmt "Getting process data took: {t} seconds" []);
       ev_after 0 (cb_process_data_update (read_ok (os_process_iter os)));
       ev_after 2000 cb_update_processes]) s).
Proof.
  intros Hdb Hsoft. unfold _update_processes_thread, try_except.
  unfold bind at 1. rewrite read_processes_run by done.
  unfold bind. rewrite !emit_run, !add_events_app. reflexivity.
Qed.

Lemma update_processes_thread_hard_failure s before e after :
  database s = Some db ->
  os_process_iter os = before ++ inl e :: after ->
  soft_failures_only before -> is_process_error e = false ->
  _update_processes_thread os s =
  (inr tt,
   add_events
     (logged_all db (length (trace s))
        (read_warnings before ++
         [(ERROR, fmt "Error getting process list: {e}" [a_exn e])])) s).
Proof.
  intros Hdb Hiter Hsoft He. unfold _update_processes_thread, try_except.
  unfold bind at 1. rewrite Hiter, read_processes_hard_failure by done.
  rewrite (error_run _ _ db) by done.
  by rewrite add_events_app, length_add_events, logged_all_app, logged_all_one.
Qed.


End Database.

(** Without a cursor, the first process that cannot be read ends the pass:
    the diagnostic of the inner handler raises [AttributeError], and so does
    that of the outer handler which catches it. *)
Lemma sampling_no_cursor s read e after :
  cursor s = None ->
  os_process_iter os = map inr read ++ inl e :: after ->
  _update_processes_thread os s =
  (inl AttributeError,
   add_events
     (if is_process_error e
      then [ev_logging WARNING (fmt "Failed to get process {e}" [a_exn e]);
            ev_logging ERROR (fmt "Error getting process list: {e}"
                                  [a_exn AttributeError])]
      else [ev_logging ERROR (fmt "Error getting process list: {e}" [a_exn e])]) s).
Proof.
  intros Hc Hiter. unfold _update_processes_thread, try_except.
  rewrite Hiter, read_processes_read. simpl.
  unfold bind at 1. unfold bind at 1. unfold read_process, try_except. simpl.
  destruct (is_process_error e).
  - unfold bind at 1. rewrite warn_no_cursor by done.
    rewrite error_no_cursor by done. by rewrite add_events_app.
  - by rewrite error_no_cursor.
Qed.



End Sampling.

(** C9 (the code departs from it).  When [_create_database] could not set
    [self.cursor], the first process whose attributes cannot be read for one
    of the three per-process reasons ends the sampling pass: the warning is
    logged, the [log_error_to_db] call after it raises [AttributeError], the
    outer handler logs "Error getting process list" and its own
    [log_error_to_db] raises again.  The pass raises: the entries read so
    far are not handed over and the pass is not rescheduled. *)
Theorem sampling_escapes_without_the_database
    (os : OS) (s : App) (read : list RawProcessInfo) (e : Exn)
    (after : list (Exn + RawProcessInfo)) :
  cursor s = None ->
  os_process_iter os = map inr read ++ inl e :: after ->
  is_process_error e = true ->
  let r := _update_processes_thread os s in
  r = (inl AttributeError,
       add_events
         [ev_logging WARNING (fmt "Failed to get process {e}" [a_exn e]);
          ev_logging ERROR (fmt "Error getting process list: {e}" [a_exn AttributeError])]
         s) /\
  posted (appended s r) = [].
Proof.
  intros Hc Hiter He r. subst r.
  rewrite (sampling_no_cursor os s read e after Hc Hiter), He.
  split; [done|]. by rewrite appended_add_events.
Qed.

Lemma sampling_escapes_without_the_database_witness :
  let s := without_database (app_with [] "" false) in
  cursor s = None /\
  os_process_iter os_busy =
    map inr [raw_proc 1 "init" 0] ++ inl NoSuchProcess :: [inr (raw_proc 3 "sh" 1)] /\
  is_process_error NoSuchProcess = true /\
  fst (_update_processes_thread os_busy s) = inl AttributeError /\
  posted (appended s (_update_processes_thread os_busy s)) = [].
Proof.
  intros s. split; [reflexivity|]. split; [reflexivity|]. split; [reflexivity|].
  destruct (sampling_escapes_without_the_database os_busy s [raw_proc 1 "init" 0]
              NoSuchProcess [inr (raw_proc 3 "sh" 1)] eq_refl eq_refl eq_refl)
    as [Hr Hposted].
  split; [by rewrite Hr | exact Hposted].
Defined.

(** C3 (the code departs from it).  A gauge pass whose disk reading raises
    logs the error and returns without asking [master.after] to run
    [update_system_info] again; a sampling pass whose enumeration raises
    likewise returns without rescheduling [update_processes].  The
    removable-drive probe, whose [master.after] call follows its [try]
    statement, does reschedule itself on the same operating system. *)
Theorem failed_cycle_is_not_rescheduled :
  let s := app_with [] "" false in
  update_system_info os_disk_failure s =
    (inr tt,
     add_events
       (log_pair ERROR (fmt "Error updating system info: {e}" [a_exn (OtherError "OSError")]))
       s) /\
  reschedules cb_update_system_info
    (trace (state_after (update_system_info os_disk_failure s))) = false /\
  reschedules cb_update_processes
    (trace (state_after (update_processes os_disk_failure s))) = false /\
  reschedules cb_check_removable_drive
    (trace (state_after (check_removable_drive os_disk_failure s))) = true /\
  reschedules cb_update_system_info
    (trace (state_after (update_system_info os_quiet s))) = true.
Proof. repeat split. Qed.

(** X13. With the diagnostics database in place, a sampling pass returns
    normally, and it posts the new raw list and its own next run together or
    not at all.  When every failure met is one of the three per-process ones,
    each unreadable process is reported as a warning and skipped, and the
    list of all the entries that were read, in order, is handed to
    [process_data_update] before the pass reschedules itself; otherwise
    nothing is posted, so that the cached table stays as it is. *)
Theorem sampling_posts_all_or_nothing (os : OS) (s : App) (db : Database) :
  database s = Some db -> sqlite_errors_only db ->
  let r := _update_processes_thread os s in
  returned r = true /\
  trace (state_after r) = trace s ++ appended s r /\
  (soft_failures_only (os_process_iter os) ->
   r = (inr tt,
        add_events
          (logged_all db (length (trace s)) (read_warnings (os_process_iter os)) ++
           [ev_logging DEBUG (fmt "Getting process data took: {t} seconds" []);
            ev_after 0 (cb_process_data_update (read_ok (os_process_iter os)));
            ev_after 2000 cb_update_processes]) s)) /\
  (posted (appended s r) =
     [(0, cb_process_data_update (read_ok (os_process_iter os)));
      (2000, cb_update_processes)] /\ soft_failures_only (os_process_iter os)
   \/
   posted (appended s r) = [] /\ ~ soft_failures_only (os_process_iter os)).
Proof.
  intros Hdb Hsql r. subst r.
  destruct (first_hard_failure (os_process_iter os))
    as [Hsoft|(before & e & after & Hiter & Hsoft & He)].
  - rewrite (sampling_run os db Hsql s Hdb Hsoft).
    rewrite appended_add_events.
    split; [done|]. split; [done|]. split; [done|]. left. split; [|done].
    by rewrite posted_app, posted_logged_all.
  - rewrite (update_processes_thread_hard_failure os db Hsql s before e after
               Hdb Hiter Hsoft He).
    rewrite appended_add_events.
    assert (Hhard : ~ soft_failures_only (os_process_iter os)).
    { rewrite Hiter. intros Hall. apply Forall_app in Hall as [_ Hall].
      apply Forall_cons in Hall as [Hall _]. congruence. }
    split; [done|]. split; [done|]. split; [done|]. right. split; [|done].
    apply posted_logged_all.
Qed.

Lemma sampling_posts_all_or_nothing_witness :
  let s := with_database db_full (app_with [] "" false) in
  database s = Some db_full /\ sqlite_errors_only db_full /\
  trace (state_after (_update_processes_thread os_busy s)) =
  [ev_logging WARNING (fmt "Failed to get process {e}" [a_exn NoSuchProcess]);
   ev_log_error_to_db WARNING (fmt "Failed to get process {e}" [a_exn NoSuchProcess]);
   ev_logging ERROR (fmt "Database logging error: {e}"
                         [a_exn (OtherError "sqlite3.OperationalError")]);
   ev_logging DEBUG (fmt "Getting process data took: {t} seconds" []);
   ev_after 0 (cb_process_data_update [raw_proc 1 "init" 0; raw_proc 3 "sh" 1]);
   ev_after 2000 cb_update_processes].
Proof.
  intros s. split; [reflexivity|]. split; [exact db_full_sqlite|].
  assert (Hsoft : soft_failures_only (os_process_iter os_busy)) by repeat constructor.
  destruct (sampling_posts_all_or_nothing os_busy s db_full eq_refl db_full_sqlite)
    as (_ & _ & Hrun & _).
  by rewrite (Hrun Hsoft).
Defined.


Lemma find_first {A} (f : A -> bool) before x after :
  (forall p, p ∈ before -> f p = false) -> f x = true ->
  List.find f (before ++ x :: after) = Some x.
Proof.
  induction before as [|y before IH]; simpl; intros Hb Hx.
  - by rewrite Hx.
  - rewrite (Hb y) by apply list_elem_of_here.
    apply IH; [|done]. intros p Hp. by apply Hb, list_elem_of_further.
Qed.

Lemma find_nowhere {A} (f : A -> bool) (l : list A) :
  (forall p, p ∈ l -> f p = false) -> List.find f l = None.
Proof.
  induction l as [|y l IH]; simpl; intros Hl; [done|].
  rewrite (Hl y) by apply list_elem_of_here.
  apply IH. intros p Hp. by apply Hl, list_elem_of_further.
Qed.

(** X15. When the partitions are listed, the removable-drive probe returns
    having posted one label and its own next run: "Detected: m" for the
    mount point [m] of the first partition whose options contain
    "removable", and "Not detected" when there is none or when that mount
    point is the empty string.  When they cannot be listed, the error is
    logged; with the database in place the probe then posts the label
    "Error" and its next run and returns, and with [self.cursor] not set it
    raises [AttributeError], having posted nothing. *)
Theorem removable_drive_probe (os : OS) (s : App) :
  let r := _check_removable_drive_thread os s in
  match os_disk_partitions os with
  | inl e =>
      (forall db, database s = Some db -> sqlite_errors_only db ->
         r = (inr tt,
              add_events
                (logged db (length (trace s)) ERROR
                   (fmt "Error checking removable drive: {e}" [a_exn e]) ++
                 [ev_after 0 (cb_removable_drive_label "Error");
                  ev_after 5000 cb_check_removable_drive]) s)) /\
      (cursor s = None ->
         r = (inl AttributeError,
              add_events [ev_logging ERROR
                            (fmt "Error checking removable drive: {e}" [a_exn e])] s))
  | inr partitions =>
      exists label,
        r = (inr tt,
             add_events [ev_after 0 (cb_removable_drive_label label);
                         ev_after 5000 cb_check_removable_drive] s) /\
        ((forall p, p ∈ partitions -> str_in "removable" (snd p) = false) ->
         label = "Not detected") /\
        (forall before mountpoint opts after,
           partitions = before ++ (mountpoint, opts) :: after ->
           (forall p, p ∈ before -> str_in "removable" (snd p) = false) ->
           str_in "removable" opts = true ->
           label = if String.eqb mountpoint "" then "Not detected"
                   else ("Detected: " ++ mountpoint)%string)
  end.
Proof.
  intros r. subst r.
  unfold _check_removable_drive_thread, _find_removable_drive.
  destruct (os_disk_partitions os) as [e|partitions]; simpl.
  - split.
    + intros db Hdb Hsql. unfold try_except, bind at 1 2 3, os_value, raise.
      unfold bind at 1. rewrite (error_run _ s db Hdb Hsql).
      unfold bind. rewrite !emit_run, !add_events_app. reflexivity.
    + intros Hc. unfold try_except, bind at 1 2 3, os_value, raise.
      unfold bind at 1. by rewrite error_no_cursor.
  - unfold try_except, bind, os_value, ret.
    destruct (List.find _ partitions) as [[m o]|] eqn:Hfind; simpl.
    + destruct m as [|c m]; simpl.
      * exists "Not detected". repeat (rewrite emit_run; cbv beta iota).
        split; [trace_eq|]. split; [done|].
        intros before mountpoint opts after -> Hbefore Hopts.
        rewrite (find_first (fun p => str_in "removable" (snd p)) before
                   (mountpoint, opts) after Hbefore Hopts) in Hfind.
        by injection Hfind as -> ->.
      * exists ("Detected: " ++ String c m)%string. repeat (rewrite emit_run; cbv beta iota).
        split; [trace_eq|]. split.
        -- intros Hnone. by rewrite (find_nowhere _ _ Hnone) in Hfind.
        -- intros before mountpoint opts after -> Hbefore Hopts.
           rewrite (find_first (fun p => str_in "removable" (snd p)) before
                      (mountpoint, opts) after Hbefore Hopts) in Hfind.
           by injection Hfind as -> ->.
    + exists "Not detected". repeat (rewrite emit_run; cbv beta iota).
        split; [trace_eq|]. split; [done|].
      intros before mountpoint opts after -> Hbefore Hopts.
      by rewrite (find_first (fun p => str_in "removable" (snd p)) before
                    (mountpoint, opts) after Hbefore Hopts) in Hfind.
Qed.

(** ** Reconciliation *)

Lemma keys_dict_set k v (d : ProcessTable) :
  keys (dict_set k v d) = if dict_mem k d then keys d else keys d ++ [k].
Proof.
  unfold dict_mem, keys. induction d as [|[k' v'] d IH]; simpl; [done|].
  destruct (Z.eqb_spec k k') as [->|Hne]; simpl; [done|].
  rewrite IH. by destruct (existsb _ _).
Qed.

Lemma dict_get_set k' k v (d : ProcessTable) :
  dict_get k' (dict_set k v d) = if Z.eqb k' k then Some v else dict_get k' d.
Proof.
  induction d as [|[k0 v0] d IH]; simpl; [done|].
  destruct (Z.eqb_spec k k0) as [->|Hne]; simpl.
  - by destruct (Z.eqb k' k0).
  - rewrite IH. destruct (Z.eqb_spec k' k0) as [->|?]; [|done].
    destruct (Z.eqb_spec k0 k); congruence.
Qed.

Lemma NoDup_keys_dict_set k v (d : ProcessTable) :
  NoDup (keys d) -> NoDup (keys (dict_set k v d)).
Proof.
  intros Hd. rewrite keys_dict_set.
  destruct (dict_mem k d) eqn:E; [done|].
  apply NoDup_app. repeat split; [done| |apply NoDup_singleton].
  intros x Hx ->%list_elem_of_singleton.
  apply dict_mem_elem in Hx. congruence.
Qed.

Lemma elem_of_keys_dict_set k' k v (d : ProcessTable) :
  k' ∈ keys (dict_set k v d) <-> k' = k \/ k' ∈ keys d.
Proof.
  rewrite keys_dict_set. destruct (dict_mem k d) eqn:E.
  - apply dict_mem_elem in E. split; [by right | by intros [->|?]].
  - rewrite elem_of_app, list_elem_of_singleton. tauto.
Qed.

Lemma NoDup_Z_decide (l : list Z) : bool_decide (NoDup l) = true -> NoDup l.
Proof. intros H. by apply bool_decide_eq_true in H. Qed.

Lemma dict_set_fresh k v (d : ProcessTable) :
  k ∉ keys d -> dict_set k v d = d ++ [(k, v)].
Proof.
  induction d as [|[k' v'] d IH]; simpl; [done|].
  intros [Hne Hnot]%not_elem_of_cons.
  destruct (Z.eqb_spec k k'); [done|]. by rewrite IH.
Qed.

Section Reconciliation.

Variable os : OS.

(** The loop writes the table under construction only. *)
Lemma keeps_table_reconcile_process i acc raw : keeps_table (reconcile_process os i acc raw).
Proof.
  unfold reconcile_process.
  apply keeps_table_try_except; [repeat keeps_step|].
  intros e h. destruct (is_process_error e); intros [= <-]; repeat keeps_step.
Qed.

Lemma reconcile_from_keeps_table processes : forall i acc,
  keeps_table (reconcile_from os i acc processes).
Proof.
  induction processes as [|raw rest IH]; intros i acc; simpl.
  - apply keeps_table_ret.
  - apply keeps_table_bind; [apply keeps_table_reconcile_process | intros ?; apply IH].
Qed.

Lemma reconcile_step_keys i raw acc k :
  k ∈ keys (fst (reconcile_step os i raw acc)) <->
  k ∈ keys acc \/ (raw_pid raw = k /\ exists info, resolves os i raw info).
Proof.
  unfold reconcile_step, resolves.
  destruct (raw_memory_info raw) as [rss|] eqn:Hm; simpl.
  - destruct (os_Process os i (raw_pid raw)) as [e|] eqn:Hp; simpl.
    + split; [by left|]. intros [?|[_ (info & rss' & _ & ? & _)]]; [done | congruence].
    + rewrite elem_of_keys_dict_set. split.
      * intros [->|?]; [right | by left]. split; [done|]. eauto.
      * intros [?|[<- _]]; [by right | by left].
  - split; [by left|]. by intros [?|[_ (info & rss' & ? & _)]].
Qed.

Lemma reconcile_step_NoDup i raw acc :
  NoDup (keys acc) -> NoDup (keys (fst (reconcile_step os i raw acc))).
Proof.
  intros H. unfold reconcile_step.
  destruct (raw_memory_info raw) as [rss|]; simpl; [|done].
  destruct (os_Process os i (raw_pid raw)) as [e|]; simpl; [done|].
  by apply NoDup_keys_dict_set.
Qed.

Lemma reconcile_step_get i raw acc k info :
  dict_get k (fst (reconcile_step os i raw acc)) = Some info ->
  dict_get k acc = Some info \/ (raw_pid raw = k /\ resolves os i raw info).
Proof.
  unfold reconcile_step, resolves.
  destruct (raw_memory_info raw) as [rss|] eqn:Hm; simpl; [|by left].
  destruct (os_Process os i (raw_pid raw)) as [e|] eqn:Hp; simpl; [by left|].
  rewrite dict_get_set. destruct (Z.eqb_spec k (raw_pid raw)) as [->|?]; [|by left].
  intros [= <-]. right. split; [done|]. eauto.
Qed.

Lemma reconcile_all_NoDup processes : forall i acc,
  NoDup (keys acc) -> NoDup (keys (fst (reconcile_all os i acc processes))).
Proof.
  induction processes as [|raw rest IH]; intros i acc H; simpl; [done|].
  pose proof (reconcile_step_NoDup i raw acc H) as H1.
  destruct (reconcile_step os i raw acc) as [acc' evs]; simpl in *.
  specialize (IH (S i) acc' H1).
  by destruct (reconcile_all os (S i) acc' rest) as [final evs'].
Qed.

Lemma reconcile_all_keys processes : forall i acc k,
  k ∈ keys (fst (reconcile_all os i acc processes)) <->
  k ∈ keys acc \/
  exists j raw info, processes !! j = Some raw /\ raw_pid raw = k /\
                     resolves os (i + j) raw info.
Proof.
  induction processes as [|raw rest IH]; intros i acc k; simpl.
  - split; [by left|]. intros [?|(j & raw & info & Hj & _)]; [done|].
    by rewrite lookup_nil in Hj.
  - pose proof (reconcile_step_keys i raw acc k) as H1.
    destruct (reconcile_step os i raw acc) as [acc' evs]; simpl in *.
    specialize (IH (S i) acc' k).
    destruct (reconcile_all os (S i) acc' rest) as [final evs']; simpl in *.
    rewrite IH, H1. split.
    + intros [[?|[Hk (info & Hres)]]|(j & raw' & info & Hj & Hk & Hres)].
      * by left.
      * right. exists 0%nat, raw, info. by rewrite Nat.add_0_r.
      * right. exists (S j), raw', info. by rewrite Nat.add_succ_r.
    + intros [?|(j & raw' & info & Hj & Hk & Hres)]; [by left; left|].
      destruct j as [|j]; simpl in Hj.
      * injection Hj as <-. rewrite Nat.add_0_r in Hres. left; right. eauto.
      * right. exists j, raw', info. by rewrite Nat.add_succ_r in Hres.
Qed.

Lemma reconcile_all_get processes : forall i acc k info,
  dict_get k (fst (reconcile_all os i acc processes)) = Some info ->
  dict_get k acc = Some info \/
  exists j raw, processes !! j = Some raw /\ raw_pid raw = k /\
                resolves os (i + j) raw info.
Proof.
  induction processes as [|raw rest IH]; intros i acc k info; simpl; [by left|].
  pose proof (reconcile_step_get i raw acc k info) as H1.
  destruct (reconcile_step os i raw acc) as [acc' evs]; simpl in *.
  specialize (IH (S i) acc' k info).
  destruct (reconcile_all os (S i) acc' rest) as [final evs']; simpl in *.
  intros Hget. destruct (IH Hget) as [Hacc|(j & raw' & Hj & Hk & Hres)].
  - destruct (H1 Hacc) as [?|[Hk Hres]]; [by left|].
    right. exists 0%nat, raw. by rewrite Nat.add_0_r.
  - right. exists (S j), raw'. by rewrite Nat.add_succ_r.
Qed.

(** Every entry that is dropped leaves its diagnostic. *)
Lemma reconcile_all_failures processes : forall i acc j raw e,
  processes !! j = Some raw ->
  (raw_memory_info raw = None /\ e = AttributeError) \/
  (is_Some (raw_memory_info raw) /\ os_Process os (i + j) (raw_pid raw) = Some e) ->
  reconcile_failure raw e ∈ snd (reconcile_all os i acc processes).
Proof.
  induction processes as [|raw0 rest IH]; intros i acc j raw e Hj Hfail;
    [by rewrite lookup_nil in Hj|].
  simpl. destruct (reconcile_step os i raw0 acc) as [acc' evs] eqn:Hstep.
  specialize (IH (S i) acc').
  destruct (reconcile_all os (S i) acc' rest) as [final evs']; simpl in *.
  apply elem_of_app. destruct j as [|j]; simpl in Hj.
  - injection Hj as ->. left. rewrite Nat.add_0_r in Hfail.
    unfold reconcile_step in Hstep.
    destruct Hfail as [[Hm ->]|[[rss Hm] Hp]]; rewrite Hm in Hstep.
    + injection Hstep as _ <-. apply list_elem_of_here.
    + rewrite Hp in Hstep. injection Hstep as _ <-. apply list_elem_of_here.
  - right. rewrite <- Nat.add_succ_comm in Hfail. eapply IH; eauto.
Qed.

Section Database.

Variable db : Database.
Hypothesis Hsql : sqlite_errors_only db.

Lemma reconcile_process_run i acc raw s :
  database s = Some db ->
  reconcile_process os i acc raw s =
  (inr (fst (reconcile_step os i raw acc)),
   add_events (logged_all db (length (trace s)) (snd (reconcile_step os i raw acc))) s).
Proof.
  intros Hdb. unfold reconcile_process, reconcile_step, reconcile_failure, try_except.
  destruct (raw_memory_info raw) as [rss|].
  - unfold bind at 1. unfold ret at 1. cbv beta iota.
    unfold bind at 1. unfold os_unit at 1.
    destruct (os_Process os i (raw_pid raw)) as [e|].
    + unfold raise. cbv beta iota.
      destruct (is_process_error e); cbv beta iota; cbn [fst snd].
      * rewrite (bind_warn _ _ s db Hdb Hsql). by rewrite logged_all_one.
      * rewrite (bind_error _ _ s db Hdb Hsql). by rewrite logged_all_one.
    + unfold ret. cbv beta iota. cbn [fst snd logged_all]. by rewrite add_events_nil.
  - unfold bind at 1. unfold raise at 1. cbv beta iota.
    change (is_process_error AttributeError) with false. cbv beta iota. cbn [fst snd].
    rewrite (bind_error _ _ s db Hdb Hsql). by rewrite logged_all_one.
Qed.

Lemma reconcile_from_run processes : forall i acc s,
  database s = Some db ->
  reconcile_from os i acc processes s =
  (inr (fst (reconcile_all os i acc processes)),
   add_events (logged_all db (length (trace s)) (snd (reconcile_all os i acc processes))) s).
Proof.
  induction processes as [|raw rest IH]; intros i acc s Hdb; cbn [reconcile_from reconcile_all].
  - by rewrite add_events_nil.
  - unfold bind. rewrite reconcile_process_run by done.
    rewrite IH by done.
    destruct (reconcile_step os i raw acc) as [acc' evs]; cbn [fst snd].
    destruct (reconcile_all os (S i) acc' rest) as [final evs']; cbn [fst snd].
    by rewrite add_events_app, length_add_events, logged_all_app.
Qed.

Lemma process_data_update_run processes s :
  database s = Some db ->
  process_data_update os processes s =
  (inr tt,
   add_events
     (logged_all db (length (trace s)) (snd (reconcile_all os 0 [] processes)) ++
      [ev_logging DEBUG (fmt "Processing process data took: {t} seconds" []);
       ev_after 0 cb_refresh_processes])
     (set_process_data (fst (reconcile_all os 0 [] processes)) s)).
Proof.
  intros Hdb. unfold process_data_update. unfold bind at 1.
  rewrite reconcile_from_run by done.
  unfold bind, modify. repeat (rewrite emit_run; cbv beta iota). trace_eq.
Qed.

End Database.

(** Without a cursor, the first entry that has to be dropped ends the
    reconciliation: the table is not replaced. *)
Lemma reconcile_from_no_cursor kept raw rest : forall i acc s,
  cursor s = None ->
  (forall j raw', kept !! j = Some raw' -> exists info, resolves os (i + j) raw' info) ->
  (forall info, ~ resolves os (i + length kept) raw info) ->
  fst (reconcile_from os i acc (kept ++ raw :: rest) s) = inl AttributeError.
Proof.
  induction kept as [|raw0 kept IH]; intros i acc s Hc Hkept Hdrop; simpl.
  - rewrite Nat.add_0_r in Hdrop.
    assert (Hraw : fst (reconcile_process os i acc raw s) = inl AttributeError).
    { unfold reconcile_process, try_except.
      destruct (raw_memory_info raw) as [rss|] eqn:Hm.
      - unfold bind at 1. unfold ret at 1. cbv beta iota.
        unfold bind at 1. unfold os_unit at 1.
        destruct (os_Process os i (raw_pid raw)) as [e|] eqn:Hp;
          [|destruct (Hdrop (info_of raw rss)); by exists rss].
        unfold raise. cbv beta iota.
        destruct (is_process_error e); cbv beta iota; unfold bind at 1.
        + by rewrite warn_no_cursor.
        + by rewrite error_no_cursor.
      - unfold bind at 1. unfold raise at 1. cbv beta iota.
        change (is_process_error AttributeError) with false. cbv beta iota.
        unfold bind at 1. by rewrite error_no_cursor. }
    unfold bind. by destruct (reconcile_process os i acc raw s) as [[e|x] s'].
  - destruct (Hkept 0%nat raw0 eq_refl) as (info & rss & Hm & Hp & _).
    rewrite Nat.add_0_r in Hp.
    assert (Hstep : reconcile_process os i acc raw0 s =
                    (inr (dict_set (raw_pid raw0) (info_of raw0 rss) acc), s)).
    { unfold reconcile_process, try_except. rewrite Hm.
      unfold bind at 1. unfold ret at 1. cbv beta iota.
      unfold bind at 1. rewrite Hp. reflexivity. }
    unfold bind at 1. rewrite Hstep. apply IH; [done| |].
    + intros j raw' Hj. replace (S i + j)%nat with (i + S j)%nat by lia.
      by apply (Hkept (S j)).
    + replace (S i + length kept)%nat with (i + length (raw0 :: kept))%nat
        by (simpl; lia).
      done.
Qed.

End Reconciliation.

Lemma process_data_update_no_cursor os kept raw rest s :
  cursor s = None ->
  (forall j raw', kept !! j = Some raw' -> exists info, resolves os j raw' info) ->
  (forall info, ~ resolves os (length kept) raw info) ->
  let r := process_data_update os (kept ++ raw :: rest) s in
  fst r = inl AttributeError /\ process_data (state_after r) = process_data s.
Proof.
  intros Hc Hkept Hdrop r. subst r. unfold process_data_update.
  pose proof (reconcile_from_no_cursor os kept raw rest 0 [] s Hc Hkept Hdrop) as Hraise.
  pose proof (reconcile_from_keeps_table os (kept ++ raw :: rest) 0 [] s) as Hkeep.
  destruct (reconcile_from os 0 [] (kept ++ raw :: rest) s) as [[e|x] s'] eqn:E;
    [|discriminate].
  injection Hraise as ->. rewrite (bind_raise _ _ s AttributeError s' E).
  split; [reflexivity | exact Hkeep].
Qed.

(** Three raw entries and a repeated pid; the second has lost its process:
    the table gets the other two pids, and the later entry of pid 1 replaces
    the earlier one in place. *)
Example reconcile_example :
  let r := process_data_update os_busy
             [raw_proc 1 "init" 0; raw_proc 3 "sh" 1; raw_proc 4 "vim" 1; raw_proc 1 "systemd" 0]
             (app_with [proc 9 "old" 0] "" false) in
  map (fun e => (fst e, name (snd e))) (process_data (state_after r)) =
    [(1, "systemd"); (4, "vim")] /\
  trace (state_after r) =
    log_pair WARNING (fmt "Failed to get data about process with PID {pid}: {e}"
                          [a_pid 3; a_exn NoSuchProcess]) ++
    [ev_logging DEBUG (fmt "Processing process data took: {t} seconds" []);
     ev_after 0 cb_refresh_processes].
Proof. split; reflexivity. Qed.

(** C2 (counterexample).  An observed pid whose memory information was not
    read gets no record although a handle for it is obtained, and it is
    dropped with an error record, not with a warning; so is an entry whose
    handle is refused for a reason other than the three per-process ones. *)
Lemma unread_entry_is_dropped_with_an_error :
  let raw := raw_unread 5 "daemon" 1 in
  let s := app_with [] "" false in
  let r := process_data_update os_quiet [raw] s in
  let r' := process_data_update os_broken [raw_proc 6 "cron" 1] s in
  os_Process os_quiet 0 (raw_pid raw) = None /\
  returned r = true /\
  process_data (state_after r) = [] /\
  trace (state_after r) =
    (log_pair ERROR (fmt "Error processing process with PID {pid}: {e}"
                         [a_pid 5; a_exn AttributeError]) ++
     [ev_logging DEBUG (fmt "Processing process data took: {t} seconds" []);
      ev_after 0 cb_refresh_processes]) /\
  process_data (state_after r') = [] /\
  trace (state_after r') =
    (log_pair ERROR (fmt "Error processing process with PID {pid}: {e}"
                         [a_pid 6; a_exn (OtherError "OSError")]) ++
     [ev_logging DEBUG (fmt "Processing process data took: {t} seconds" []);
      ev_after 0 cb_refresh_processes]).
Proof. repeat split. Qed.

(** C2 (amended).  With the diagnostics database in place,
    [process_data_update] returns normally with a table built from the raw
    list alone, whatever the previous table was; the table in the state is
    not written while the new one is being built, and it is replaced in one
    step, after which the refresh is posted and nothing else has changed.
    The new table has unique pid keys; a pid is a key exactly when some raw
    entry with that pid resolves (its memory information was read and a
    handle is obtained), and the record stored under a pid is built from
    such an entry.  An entry whose handle is refused with a process error
    leaves a warning, an entry whose handle is refused otherwise or whose
    memory information is missing leaves an error record, and in each case
    the rest of the list is still processed. *)
Theorem reconciliation_swaps_in_a_fresh_table
    (os : OS) (processes : list RawProcessInfo) (s : App) (db : Database) :
  database s = Some db -> sqlite_errors_only db ->
  let r := process_data_update os processes s in
  let new := process_data (state_after r) in
  returned r = true /\
  state_after r = add_events (appended s r) (set_process_data new s) /\
  posted (appended s r) = [(0, cb_refresh_processes)] /\
  (forall s' db', database s' = Some db' -> sqlite_errors_only db' ->
     process_data (state_after (process_data_update os processes s')) = new) /\
  (forall i acc, process_data (state_after (reconcile_from os i acc processes s))
                 = process_data s) /\
  NoDup (keys new) /\
  (forall pid, pid ∈ keys new <->
     exists i raw info, processes !! i = Some raw /\ raw_pid raw = pid /\
                        resolves os i raw info) /\
  (forall pid info, dict_get pid new = Some info ->
     exists i raw, processes !! i = Some raw /\ raw_pid raw = pid /\
                   resolves os i raw info) /\
  (forall i raw rss e,
     processes !! i = Some raw -> raw_memory_info raw = Some rss ->
     os_Process os i (raw_pid raw) = Some e ->
     ev_logging (if is_process_error e then WARNING else ERROR)
       (if is_process_error e
        then fmt "Failed to get data about process with PID {pid}: {e}"
                 [a_pid (raw_pid raw); a_exn e]
        else fmt "Error processing process with PID {pid}: {e}"
                 [a_pid (raw_pid raw); a_exn e])
     ∈ appended s r) /\
  (forall i raw,
     processes !! i = Some raw -> raw_memory_info raw = None ->
     ev_logging ERROR (fmt "Error processing process with PID {pid}: {e}"
                           [a_pid (raw_pid raw); a_exn AttributeError])
     ∈ appended s r).
Proof.
  intros Hdb Hsql r new. subst r new.
  rewrite (process_data_update_run os db Hsql processes s Hdb).
  set (diagnostics := snd (reconcile_all os 0 [] processes)).
  set (final := fst (reconcile_all os 0 [] processes)).
  set (evs := logged_all db (length (trace s)) diagnostics ++
              [ev_logging DEBUG (fmt "Processing process data took: {t} seconds" []);
               ev_after 0 cb_refresh_processes]).
  assert (Happ : appended s (inr tt : Exn + unit, add_events evs (set_process_data final s))
                 = evs) by (by apply trace_appended).
  rewrite Happ. cbn [state_after snd].
  change (process_data (add_events evs (set_process_data final s))) with final.
  split; [done|]. split; [done|].
  split; [subst evs; by rewrite posted_app, posted_logged_all|].
  split; [intros s' db' Hdb' Hsql'; by rewrite (process_data_update_run os db' Hsql' _ _ Hdb')|].
  split; [intros i acc; apply reconcile_from_keeps_table|].
  split; [apply reconcile_all_NoDup; constructor|].
  split.
  { intros pid. split.
    - intros [H|H]%reconcile_all_keys; [by apply elem_of_nil in H | done].
    - intros H. apply reconcile_all_keys. by right. }
  split.
  { intros pid info [H|H]%reconcile_all_get; [discriminate | done]. }
  split.
  - intros i raw rss e Hi Hm Hp. subst evs. apply elem_of_app. left.
    apply logged_all_elem.
    pose proof (reconcile_all_failures os processes 0 [] i raw e Hi) as Hin.
    unfold reconcile_failure in Hin.
    destruct (is_process_error e); apply Hin; right; eauto.
  - intros i raw Hi Hm. subst evs. apply elem_of_app. left.
    apply logged_all_elem.
    apply (reconcile_all_failures os processes 0 [] i raw AttributeError Hi). by left.
Qed.

Lemma reconciliation_swaps_in_a_fresh_table_witness :
  let s := app_with [proc 9 "old" 0] "" false in
  database s = Some db_quiet /\ sqlite_errors_only db_quiet /\
  keys (process_data
          (state_after
             (process_data_update os_busy [raw_proc 1 "init" 0; raw_proc 3 "sh" 1] s)))
  = [1] /\
  ev_logging WARNING (fmt "Failed to get data about process with PID {pid}: {e}"
                          [a_pid 3; a_exn NoSuchProcess])
  ∈ appended s (process_data_update os_busy [raw_proc 1 "init" 0; raw_proc 3 "sh" 1] s).
Proof.
  intros s. split; [reflexivity|]. split; [exact db_quiet_sqlite|].
  split; [reflexivity|].
  destruct (reconciliation_swaps_in_a_fresh_table os_busy
              [raw_proc 1 "init" 0; raw_proc 3 "sh" 1] s db_quiet eq_refl db_quiet_sqlite)
    as (_ & _ & _ & _ & _ & _ & _ & _ & Hwarn & _).
  exact (Hwarn 1%nat (raw_proc 3 "sh" 1) 1048576 NoSuchProcess eq_refl eq_refl eq_refl).
Defined.

(** ** More on reconciliation *)

Lemma reconcile_all_distinct os processes : forall i acc,
  NoDup (map raw_pid processes) ->
  (forall raw, raw ∈ processes -> raw_pid raw ∉ keys acc) ->
  fst (reconcile_all os i acc processes) = acc ++ resolved_entries os i processes.
Proof.
  induction processes as [|raw rest IH]; intros i acc Hnd Hfresh; simpl.
  - by rewrite app_nil_r.
  - apply NoDup_cons in Hnd as [Hraw Hnd].
    assert (Hrest : forall acc', keys acc' = keys acc \/ keys acc' = keys acc ++ [raw_pid raw] ->
              forall raw', raw' ∈ rest -> raw_pid raw' ∉ keys acc').
    { intros acc' Hkeys raw' Hin' Hk.
      destruct Hkeys as [Hkeys|Hkeys]; rewrite Hkeys in Hk.
      - apply (Hfresh raw'); [by apply list_elem_of_further | done].
      - apply elem_of_app in Hk as [Hk|Hk%list_elem_of_singleton].
        + apply (Hfresh raw'); [by apply list_elem_of_further | done].
        + apply Hraw. rewrite <- Hk. by apply (list_elem_of_fmap_2 raw_pid). }
    unfold reconcile_step.
    destruct (raw_memory_info raw) as [rss|]; simpl.
    + destruct (os_Process os i (raw_pid raw)) as [e|]; simpl.
      * specialize (IH (S i) acc Hnd (Hrest acc (or_introl eq_refl))).
        destruct (reconcile_all os (S i) acc rest). simpl in *. done.
      * rewrite dict_set_fresh by (apply Hfresh, list_elem_of_here).
        specialize (IH (S i) (acc ++ [(raw_pid raw, info_of raw rss)]) Hnd).
        destruct (reconcile_all os (S i) _ rest). simpl in *.
        rewrite IH; [by rewrite <- app_assoc|].
        apply Hrest. right. by rewrite keys_app.
    + specialize (IH (S i) acc Hnd (Hrest acc (or_introl eq_refl))).
      destruct (reconcile_all os (S i) acc rest). simpl in *. done.
Qed.

Lemma reconciled_table_order os processes s db :
  database s = Some db -> sqlite_errors_only db ->
  NoDup (map raw_pid processes) ->
  process_data (state_after (process_data_update os processes s)) =
  resolved_entries os 0 processes.
Proof.
  intros Hdb Hsql Hnd. rewrite (process_data_update_run os db Hsql processes s Hdb).
  cbn [state_after snd].
  change (process_data (add_events ?evs (set_process_data ?d s))) with d.
  rewrite (reconcile_all_distinct os processes 0 [] Hnd); [done|].
  by intros raw _ ?%elem_of_nil.
Qed.

(** X11. With the diagnostics database in place and no pid occurring twice
    in the raw list (as in an enumeration of the running processes), the
    reconciled table is the list of the entries that resolve (memory
    information read, handle obtained), in the order of the raw list: the
    iteration order of the table, hence the order of the rows, is the order
    of the enumeration. *)
Theorem reconciled_table_follows_the_enumeration
    (os : OS) (processes : list RawProcessInfo) (s : App) (db : Database) :
  database s = Some db -> sqlite_errors_only db ->
  NoDup (map raw_pid processes) ->
  process_data (state_after (process_data_update os processes s)) =
  resolved_entries os 0 processes.
Proof. apply reconciled_table_order. Qed.

Lemma reconciled_table_follows_the_enumeration_witness :
  let s := app_with [proc 9 "old" 0] "" false in
  let processes := [raw_proc 4 "vim" 1; raw_proc 3 "sh" 1; raw_unread 5 "daemon" 1;
                    raw_proc 1 "init" 0] in
  database s = Some db_quiet /\ sqlite_errors_only db_quiet /\
  NoDup (map raw_pid processes) /\
  keys (process_data (state_after (process_data_update os_busy processes s))) = [4; 1].
Proof.
  intros s processes.
  assert (Hnd : NoDup (map raw_pid processes)) by (by apply NoDup_Z_decide).
  split; [reflexivity|]. split; [exact db_quiet_sqlite|]. split; [exact Hnd|].
  by rewrite (reconciled_table_follows_the_enumeration os_busy processes s db_quiet
                eq_refl db_quiet_sqlite Hnd).
Defined.

(** ** A whole sampling cycle *)

Lemma resolved_entries_keys os processes : forall i pid,
  pid ∈ keys (resolved_entries os i processes) -> pid ∈ map raw_pid processes.
Proof.
  induction processes as [|raw rest IH]; intros i pid; simpl; [done|].
  destruct (raw_memory_info raw) as [rss|]; [destruct (os_Process os i (raw_pid raw))|];
    simpl; intros H.
  - by apply list_elem_of_further, (IH (S i)).
  - apply elem_of_cons in H as [->|H]; [apply list_elem_of_here|].
    by apply list_elem_of_further, (IH (S i)).
  - by apply list_elem_of_further, (IH (S i)).
Qed.

(** X16. With the diagnostics database in place, a sampling pass, the
    reconciliation it posts and the refresh that this posts in turn compose:
    when every failure of the enumeration is a per-process one and no pid is
    enumerated twice, the table at the end lists the entries read that
    resolve, in enumeration order, and the view at the end is the view of
    that table under the search text and the toggle that were set before the
    cycle; every row shows a process that was read in this pass. *)
Theorem sampling_cycle_end_to_end (os : OS) (s : App) (db : Database) :
  database s = Some db -> sqlite_errors_only db ->
  soft_failures_only (os_process_iter os) ->
  NoDup (map raw_pid (read_ok (os_process_iter os))) ->
  let read := read_ok (os_process_iter os) in
  let s1 := state_after (_update_processes_thread os s) in
  let s2 := state_after (process_data_update os read s1) in
  let s3 := state_after (refresh_processes s2) in
  ev_after 0 (cb_process_data_update read) ∈ appended s (_update_processes_thread os s) /\
  ev_after 0 cb_refresh_processes ∈ appended s1 (process_data_update os read s1) /\
  process_data s3 = resolved_entries os 0 read /\
  tv_rows (tree s3) =
    render_rows (app_with (resolved_entries os 0 read) (search_entry s)
                   (children_visible s)) /\
  (forall r, r ∈ tv_rows (tree s3) -> row_pid r ∈ map raw_pid read).
Proof.
  intros Hdb Hsql Hsoft Hnd read s1 s2 s3.
  assert (Hs1 : s1 = add_events
            (logged_all db (length (trace s)) (read_warnings (os_process_iter os)) ++
             [ev_logging DEBUG (fmt "Getting process data took: {t} seconds" []);
              ev_after 0 (cb_process_data_update read);
              ev_after 2000 cb_update_processes]) s).
  { subst s1. by rewrite (sampling_run os db Hsql s Hdb Hsoft). }
  assert (Hdb1 : database s1 = Some db) by (by rewrite Hs1).
  assert (Hrun2 := process_data_update_run os db Hsql read s1 Hdb1).
  assert (Ht : process_data s2 = resolved_entries os 0 read).
  { subst s2. by apply (reconciled_table_order os read s1 db). }
  assert (Hnd2 : NoDup (keys (process_data s2))).
  { subst s2. rewrite Hrun2. cbn [state_after snd].
    change (process_data (add_events ?evs (set_process_data ?d s1))) with d.
    apply reconcile_all_NoDup. constructor. }
  destruct (refresh_processes_fields s2 Hnd2) as (Hd3 & _ & _ & _ & Hrows).
  fold s3 in Hd3, Hrows.
  assert (Hview : tv_rows (tree s3) =
            render_rows (app_with (resolved_entries os 0 read) (search_entry s)
                           (children_visible s))).
  { rewrite Hrows. apply render_rows_ext; [done | by rewrite Ht | |].
    - subst s2. rewrite Hrun2. simpl. by rewrite Hs1.
    - subst s2. rewrite Hrun2. simpl. by rewrite Hs1. }
  split; [|split; [|split; [|split]]].
  - rewrite (sampling_run os db Hsql s Hdb Hsoft), appended_add_events.
    apply elem_of_app. right. apply list_elem_of_further, list_elem_of_here.
  - rewrite Hrun2.
    rewrite (trace_appended s1 _
               (logged_all db (length (trace s1)) (snd (reconcile_all os 0 [] read)) ++
                [ev_logging DEBUG (fmt "Processing process data took: {t} seconds" []);
                 ev_after 0 cb_refresh_processes])) by done.
    apply elem_of_app. right. apply list_elem_of_further, list_elem_of_here.
  - by rewrite Hd3.
  - done.
  - intros r Hr. rewrite Hrows in Hr.
    destruct (render_rows_source s2 r Hnd2 Hr) as (info & Hin & _).
    apply (resolved_entries_keys os read 0). rewrite <- Ht.
    by apply (list_elem_of_fmap_2 fst) in Hin.
Qed.

Lemma sampling_cycle_end_to_end_witness :
  let s := app_with [] "" false in
  database s = Some db_quiet /\ sqlite_errors_only db_quiet /\
  soft_failures_only (os_process_iter os_busy) /\
  NoDup (map raw_pid (read_ok (os_process_iter os_busy))) /\
  process_data
    (state_after (refresh_processes
       (state_after (process_data_update os_busy (read_ok (os_process_iter os_busy))
          (state_after (_update_processes_thread os_busy s)))))) =
  resolved_entries os_busy 0 (read_ok (os_process_iter os_busy)).
Proof.
  intros s.
  assert (Hsoft : soft_failures_only (os_process_iter os_busy)) by repeat constructor.
  assert (Hnd : NoDup (map raw_pid (read_ok (os_process_iter os_busy))))
    by (apply NoDup_Z_decide; reflexivity).
  split; [reflexivity|]. split; [exact db_quiet_sqlite|].
  split; [exact Hsoft|]. split; [exact Hnd|].
  exact (proj1 (proj2 (proj2
           (sampling_cycle_end_to_end os_busy s db_quiet eq_refl db_quiet_sqlite
              Hsoft Hnd)))).
Defined.


(** * Window, language and diagnostics *)

(** X17. A window no larger than the screen is placed entirely on the
    screen, with its size unchanged and with margins on opposite sides that
    differ by at most one pixel. *)
Theorem center_window_centres (width height screen_width screen_height : Z) :
  0 <= width <= screen_width ->
  0 <= height <= screen_height ->
  let g := center_window width height screen_width screen_height in
  geo_width g = width /\ geo_height g = height /\
  0 <= geo_x g /\ geo_x g + width <= screen_width /\
  0 <= geo_y g /\ geo_y g + height <= screen_height /\
  -1 <= (screen_width - (geo_x g + width)) - geo_x g <= 1 /\
  -1 <= (screen_height - (geo_y g + height)) - geo_y g <= 1.
Proof.
  intros Hw Hh g. subst g. unfold center_window. simpl.
  pose proof (Z.div_mod width 2 ltac:(lia)).
  pose proof (Z.div_mod height 2 ltac:(lia)).
  pose proof (Z.div_mod screen_width 2 ltac:(lia)).
  pose proof (Z.div_mod screen_height 2 ltac:(lia)).
  pose proof (Z.mod_pos_bound width 2 ltac:(lia)).
  pose proof (Z.mod_pos_bound height 2 ltac:(lia)).
  pose proof (Z.mod_pos_bound screen_width 2 ltac:(lia)).
  pose proof (Z.mod_pos_bound screen_height 2 ltac:(lia)).
  repeat split; lia.
Qed.

Lemma center_window_centres_witness :
  0 <= geo_x (center_window 800 600 1921 1080) /\
  geo_x (center_window 800 600 1921 1080) + 800 <= 1921.
Proof.
  destruct (center_window_centres 800 600 1921 1080 ltac:(lia) ltac:(lia))
    as (_ & _ & Hx & Hfit & _).
  exact (conj Hx Hfit).
Defined.

Section ShellFacts.

Import Mx.
Import Shell.

Variable env : Env.

Local Open Scope mx_scope.

Lemma log_error_to_db_no_cursor level message s :
  cursor s = false ->
  log_error_to_db env level message s = (inl AttributeError, s).
Proof.
  intros Hc. unfold log_error_to_db, attribute, try_except, bind, gets. simpl.
  rewrite Hc. reflexivity.
Qed.

Lemma log_error_to_db_run level message s :
  cursor s = true -> conn s = true ->
  let q := sql_insert level message in
  let s1 := add_event (ev_execute q) s in
  log_error_to_db env level message s =
    match env_execute env (length (events s)) q with
    | Some e =>
        if is_sqlite_error e
        then (inr tt, add_event (ev_logging ERROR (fmt "Database logging error: {e}" [a_exn e])) s1)
        else (inl e, s1)
    | None =>
        match env_commit env (length (events s1)) with
        | Some e =>
            if is_sqlite_error e
            then (inr tt, add_event (ev_logging ERROR (fmt "Database logging error: {e}" [a_exn e]))
                            (add_event ev_commit s1))
            else (inl e, add_event ev_commit s1)
        | None => (inr tt, add_event ev_commit s1)
        end
    end.
Proof.
  intros Hc Hn q s1.
  unfold log_error_to_db, attribute, now, emit, call, try_except, bind, gets, modify, raise, ret.
  simpl. rewrite Hc. simpl. subst q s1.
  destruct (env_execute env _ _) as [e|]; simpl.
  - by destruct (is_sqlite_error e).
  - rewrite Hn. simpl. destruct (env_commit env _) as [e|]; simpl; [|done].
    by destruct (is_sqlite_error e).
Qed.

(** With the database in place a diagnostic returns, keeps every attribute
    and appends its statement first. *)
Lemma log_error_to_db_ready level message s :
  sqlite_errors_only env -> cursor s = true -> conn s = true ->
  exists more,
    log_error_to_db env level message s =
      (inr tt, {| current_language_index := current_language_index s;
                  current_locale := current_locale s; locale := locale s;
                  conn := true; cursor := true;
                  events := events s ++ ev_execute (sql_insert level message) :: more |}) /\
    (ev_commit ∈ more <->
       env_execute env (length (events s)) (sql_insert level message) = None).
Proof.
  intros [Hexec Hcommit] Hc Hn.
  rewrite (log_error_to_db_run level message s Hc Hn). simpl.
  destruct (env_execute env _ _) as [e|] eqn:He.
  - rewrite (Hexec _ _ _ He).
    eexists [_]. split.
    + unfold add_event. simpl. rewrite Hc, Hn, <- app_assoc. reflexivity.
    + split; [|done]. intros H. apply list_elem_of_singleton in H. discriminate.
  - destruct (env_commit env _) as [e|] eqn:Hcm.
    + rewrite (Hcommit _ _ Hcm).
      eexists [_; _]. split.
      * unfold add_event. simpl. rewrite Hc, Hn, <- !app_assoc. reflexivity.
      * split; [done|]. intros _. apply list_elem_of_here.
    + eexists [_]. split.
      * unfold add_event. simpl. rewrite Hc, Hn, <- !app_assoc. reflexivity.
      * split; [done|]. intros _. apply list_elem_of_here.
Qed.

Lemma create_database_failed_connect e s :
  env_connect env = Some e -> is_sqlite_error e = true ->
  _create_database env s =
    (inr tt, add_event (ev_logging ERROR (fmt "Database error: {e}" [a_exn e])) s).
Proof.
  intros Hconn He.
  unfold _create_database, call, try_except, bind, raise. rewrite Hconn, He. reflexivity.
Qed.

Lemma create_database_connected s :
  sqlite_errors_only env -> env_connect env = None -> env_cursor env = None ->
  returned (_create_database env s) = true /\
  conn (state_after (_create_database env s)) = true /\
  cursor (state_after (_create_database env s)) = true.
Proof.
  intros [Hexec Hcommit] Hconn Hcur.
  unfold _create_database, now, emit, call, try_except, bind, gets, modify, raise, ret,
    returned, state_after.
  rewrite Hconn, Hcur. simpl.
  destruct (env_execute env _ _) as [e|] eqn:He; simpl.
  - by rewrite (Hexec _ _ _ He).
  - destruct (env_commit env _) as [e|] eqn:Hcm; simpl; [|done].
    by rewrite (Hcommit _ _ Hcm).
Qed.

Lemma translate_found key kwargs text s :
  locale s !! key = Some text ->
  translate env key kwargs s =
    match env_format env text kwargs with
    | inr out => (inr out, s)
    | inl KeyError =>
        (log_error_to_db env ERROR (fmt "Translation key '{key}' not found." [a_str key]) ;;
         ret key)
          (add_event (ev_logging ERROR (fmt "Translation key '{key}' not found." [a_str key])) s)
    | inl e => (inl e, s)
    end.
Proof.
  intros Hk. unfold translate, value, try_except, bind, gets, emit, modify, raise, ret.
  rewrite Hk. destruct (env_format env text kwargs) as [e|out]; [|done].
  by destruct e.
Qed.

Lemma translate_missing key kwargs s :
  locale s !! key = None ->
  translate env key kwargs s =
    (log_error_to_db env ERROR (fmt "Translation key '{key}' not found." [a_str key]) ;;
     ret key)
      (add_event (ev_logging ERROR (fmt "Translation key '{key}' not found." [a_str key])) s).
Proof.
  intros Hk. unfold translate, value, try_except, bind, gets, emit, modify, raise, ret.
  by rewrite Hk.
Qed.

Lemma load_locale_run s :
  load_locale env s =
    match env_import_module env ("locale_" ++ current_locale s) with
    | inr d => (inr tt, set_locale d s)
    | inl e =>
        if is_ModuleNotFoundError e then
          import_locale env "locale_en"
            (add_event (ev_logging WARNING
               (fmt "Translation for {self.current_locale} not found. Using English."
                  [a_str (current_locale s)])) s)
        else
          (log_error_to_db env ERROR (fmt "Error loading locale: {e}" [a_exn e]) ;;
           import_locale env "locale_en")
            (add_event (ev_logging ERROR (fmt "Error loading locale: {e}" [a_exn e])) s)
    end.
Proof.
  unfold load_locale, import_locale at 1, value, try_except, bind at 1 2 3, gets, modify,
    raise, ret. simpl.
  destruct (env_import_module env _) as [e|d]; [|done].
  destruct (is_ModuleNotFoundError e); [|done].
  unfold bind, emit, modify. reflexivity.
Qed.

Lemma keeps_language_bind {A B} (m : M A) (k : A -> M B) :
  keeps_language m -> (forall x, keeps_language (k x)) -> keeps_language (bind m k).
Proof.
  intros Hm Hk s. unfold bind. specialize (Hm s).
  destruct (m s) as [[e|x] s']; simpl in *; [done|].
  destruct (Hk x s') as [H1 H2]. rewrite H1, H2. done.
Qed.

Lemma keeps_language_emit e : keeps_language (emit e).
Proof. by intros s. Qed.

Lemma keeps_language_ret {A} (x : A) : keeps_language (ret x).
Proof. by intros s. Qed.

Lemma keeps_language_log_error_to_db level message :
  keeps_language (log_error_to_db env level message).
Proof.
  intros s.
  unfold log_error_to_db, attribute, now, emit, call, try_except, bind, gets, modify, raise, ret.
  simpl. repeat (case_match; simpl in *; simplify_eq; try done).
Qed.

Lemma keeps_language_import_locale m : keeps_language (import_locale env m).
Proof.
  intros s. unfold import_locale, value, bind, modify, raise, ret.
  by destruct (env_import_module env m).
Qed.

Lemma keeps_language_load_locale : keeps_language (load_locale env).
Proof.
  intros s. rewrite load_locale_run.
  destruct (env_import_module env _) as [e|d]; [|done].
  destruct (is_ModuleNotFoundError e).
  - apply (keeps_language_import_locale "locale_en" (add_event _ s)).
  - apply (keeps_language_bind _ _ (keeps_language_log_error_to_db _ _)
             (fun _ => keeps_language_import_locale _) (add_event _ s)).
Qed.

Lemma keeps_language_translate key kwargs : keeps_language (translate env key kwargs).
Proof.
  intros s. destruct (locale s !! key) as [text|] eqn:Hk.
  - rewrite (translate_found _ _ _ _ Hk).
    destruct (env_format env text kwargs) as [e|out]; [|done].
    destruct e; try done.
    apply (keeps_language_bind _ _ (keeps_language_log_error_to_db _ _)
             (fun _ => keeps_language_ret key) (add_event _ s)).
  - rewrite (translate_missing _ _ _ Hk).
    apply (keeps_language_bind _ _ (keeps_language_log_error_to_db _ _)
             (fun _ => keeps_language_ret key) (add_event _ s)).
Qed.

Lemma language_at_next i :
  exists code, nth_error languages ((i + 1) mod length languages) = Some code /\
               language_at ((i + 1) mod length languages) = ret code.
Proof.
  pose proof (Nat.mod_upper_bound (i + 1) (length languages) ltac:(done)) as Hlt.
  unfold language_at. change (length languages) with 4%nat in *.
  destruct ((i + 1) mod 4)%nat as [|[|[|[|n]]]]; simpl; eauto. lia.
Qed.

Lemma cycle_language_language s :
  let s' := state_after (cycle_language env s) in
  current_language_index s' = ((current_language_index s + 1) mod length languages)%nat /\
  nth_error languages (current_language_index s') = Some (current_locale s').
Proof.
  destruct (language_at_next (current_language_index s)) as (code & Hnth & Hat).
  set (i' := ((current_language_index s + 1) mod length languages)%nat) in *.
  assert (Hk : keeps_language
            (load_locale env ;;
             emit ev_after_update_widgets_text ;;
             title <- translate env "app_title" [] ;;
             emit (ev_title title) ;;
             code' <- gets current_locale ;;
             emit (ev_language_button (upper code')))).
  { apply keeps_language_bind; [apply keeps_language_load_locale|]. intros _.
    apply keeps_language_bind; [apply keeps_language_emit|]. intros _.
    apply keeps_language_bind; [apply keeps_language_translate|]. intros title.
    apply keeps_language_bind; [apply keeps_language_emit|]. intros _.
    apply keeps_language_bind; [by intros ?|]. intros c. apply keeps_language_emit. }
  specialize (Hk (set_current_locale code (set_language i' (current_locale s) s))).
  simpl in Hk. destruct Hk as [Hi Hc].
  assert (Hrun : state_after (cycle_language env s) =
            snd ((load_locale env ;;
                  emit ev_after_update_widgets_text ;;
                  title <- translate env "app_title" [] ;;
                  emit (ev_title title) ;;
                  code' <- gets current_locale ;;
                  emit (ev_language_button (upper code')))
                   (set_current_locale code (set_language i' (current_locale s) s)))).
  { unfold cycle_language. unfold bind at 1 2 3, gets at 1, modify at 1.
    cbv beta iota zeta. fold i'. rewrite Hat. reflexivity. }
  simpl. rewrite Hrun, Hi, Hc. simpl. done.
Qed.

Lemma init_language_run s :
  init_language env s = load_locale env (set_language 0 (_get_system_locale env) s).
Proof. reflexivity. Qed.

Lemma first_two_length code : (String.length (first_two code) <= 2)%nat.
Proof.
  unfold first_two. destruct code as [|a [|b r]]; simpl; [lia|lia|].
  destruct r; simpl; lia.
Qed.

Lemma system_locale_length : (String.length (_get_system_locale env) <= 2)%nat.
Proof.
  unfold _get_system_locale.
  destruct (env_getdefaultlocale env) as [e|[code|]]; [done| |done].
  apply first_two_length.
Qed.

Lemma appended_events {A} s (x : Exn + A) s' more :
  events s' = events s ++ more -> appended s (x, s') = more.
Proof.
  intros H. unfold appended, state_after. simpl. rewrite H.
  by rewrite drop_app_length.
Qed.

End ShellFacts.

(** X18. Until [_create_database] has obtained a cursor, a diagnostic cannot
    be written: [log_error_to_db] raises [AttributeError] and changes
    nothing, [translate] of a missing key raises it instead of returning the
    key, and [load_locale] raises it, without loading English, when the
    import fails with anything but [ModuleNotFoundError]. *)
Theorem diagnostics_need_the_database (env : Shell.Env) (s : Shell.State) :
  Shell.cursor s = false ->
  (forall level message,
     Shell.log_error_to_db env level message s = (inl AttributeError, s)) /\
  (forall key kwargs, Shell.locale s !! key = None ->
     fst (Shell.translate env key kwargs s) = inl AttributeError) /\
  (forall e,
     Shell.env_import_module env ("locale_" ++ Shell.current_locale s) = inl e ->
     Shell.is_ModuleNotFoundError e = false ->
     fst (Shell.load_locale env s) = inl AttributeError /\
     Shell.locale (Mx.state_after (Shell.load_locale env s)) = Shell.locale s).
Proof.
  intros Hc. split; [|split].
  - intros level message. by apply log_error_to_db_no_cursor.
  - intros key kwargs Hk. rewrite (translate_missing env key kwargs s Hk).
    unfold Mx.bind. by rewrite log_error_to_db_no_cursor.
  - intros e Himp He. rewrite load_locale_run, Himp, He.
    unfold Mx.bind. by rewrite log_error_to_db_no_cursor.
Qed.

Lemma diagnostics_need_the_database_witness :
  fst (Shell.translate Shell.env_plain "no_such_key" [] Shell.starting) = inl AttributeError.
Proof.
  exact (proj1 (proj2 (diagnostics_need_the_database Shell.env_plain Shell.starting eq_refl))
           "no_such_key" [] eq_refl).
Defined.

(** X19. When the database cannot be opened, [_create_database] reports it
    on the log and returns, leaving the application without a cursor: every
    diagnostic afterwards raises [AttributeError]. *)
Theorem unopened_database_disables_diagnostics (env : Shell.Env) (s : Shell.State) (e : Exn) :
  Shell.env_connect env = Some e ->
  Shell.is_sqlite_error e = true ->
  Shell.cursor s = false ->
  let r := Shell._create_database env s in
  Mx.returned r = true /\
  Shell.appended s r = [Shell.ev_logging ERROR (fmt "Database error: {e}" [a_exn e])] /\
  Shell.cursor (Mx.state_after r) = false /\
  forall level message,
    fst (Shell.log_error_to_db env level message (Mx.state_after r)) = inl AttributeError.
Proof.
  intros Hconn He Hc r. subst r.
  rewrite (create_database_failed_connect env e s Hconn He).
  split; [done|]. split; [by apply appended_events|]. split; [done|].
  intros level message. by rewrite log_error_to_db_no_cursor.
Qed.

Lemma unopened_database_disables_diagnostics_witness :
  Mx.returned (Shell._create_database Shell.env_no_database Shell.blank) = true.
Proof.
  exact (proj1 (unopened_database_disables_diagnostics Shell.env_no_database Shell.blank
                  (OtherError "sqlite3.OperationalError") eq_refl eq_refl eq_refl)).
Defined.

(** X20. Once [_create_database] has obtained a connection and a cursor,
    and as long as the database raises nothing but [sqlite3.Error], every
    diagnostic returns: it keeps the attributes, sends its statement first,
    and commits exactly when the statement was accepted. *)
Theorem diagnostics_with_the_database (env : Shell.Env) (s : Shell.State) :
  Shell.sqlite_errors_only env ->
  Shell.env_connect env = None ->
  Shell.env_cursor env = None ->
  let db := Mx.state_after (Shell._create_database env s) in
  Mx.returned (Shell._create_database env s) = true /\
  Shell.conn db = true /\ Shell.cursor db = true /\
  forall level message s',
    Shell.conn s' = true -> Shell.cursor s' = true ->
    let r := Shell.log_error_to_db env level message s' in
    Mx.returned r = true /\
    Shell.locale (Mx.state_after r) = Shell.locale s' /\
    Shell.current_locale (Mx.state_after r) = Shell.current_locale s' /\
    Shell.conn (Mx.state_after r) = true /\ Shell.cursor (Mx.state_after r) = true /\
    head (Shell.appended s' r) = Some (Shell.ev_execute (Shell.sql_insert level message)) /\
    (Shell.ev_commit ∈ Shell.appended s' r <->
       Shell.env_execute env (length (Shell.events s')) (Shell.sql_insert level message) = None).
Proof.
  intros Hsql Hconn Hcur db.
  destruct (create_database_connected env s Hsql Hconn Hcur) as (Hret & Hn & Hc).
  split; [done|]. split; [done|]. split; [done|].
  intros level message s' Hn' Hc' r. subst r.
  destruct (log_error_to_db_ready env level message s' Hsql Hc' Hn') as (more & -> & Hcommit).
  rewrite (appended_events s' _ _ (Shell.ev_execute (Shell.sql_insert level message) :: more))
    by done.
  repeat split; try done.
  - intros [H|H]%elem_of_cons; [discriminate|]. by apply Hcommit.
  - intros H. apply list_elem_of_further. by apply Hcommit.
Qed.

Lemma diagnostics_with_the_database_witness :
  Shell.cursor (Mx.state_after (Shell._create_database Shell.env_plain Shell.blank)) = true.
Proof.
  refine (proj1 (proj2 (proj2
            (diagnostics_with_the_database Shell.env_plain Shell.blank _ eq_refl eq_refl)))).
  split; discriminate.
Defined.

(** X21. With the database in place, [translate] returns the formatted text
    of a key that is present and changes nothing; for a key that is missing,
    or a text whose formatting raises [KeyError], it returns the key itself
    and reports the key on the log and to the database.  It never changes
    the translations. *)
Theorem translate_outcomes (env : Shell.Env) (s : Shell.State)
    (key : string) (kwargs : list (string * Arg)) :
  Shell.sqlite_errors_only env ->
  Shell.conn s = true -> Shell.cursor s = true ->
  let r := Shell.translate env key kwargs s in
  let missing := fmt "Translation key '{key}' not found." [a_str key] in
  (forall text out, Shell.locale s !! key = Some text ->
     Shell.env_format env text kwargs = inr out -> r = (inr out, s)) /\
  (Shell.locale s !! key = None \/
   (exists text, Shell.locale s !! key = Some text /\
                 Shell.env_format env text kwargs = inl KeyError) ->
   fst r = inr key /\
   Shell.locale (Mx.state_after r) = Shell.locale s /\
   exists more,
     Shell.appended s r =
       Shell.ev_logging ERROR missing ::
       Shell.ev_execute (Shell.sql_insert ERROR missing) :: more).
Proof.
  intros Hsql Hn Hc r missing. split.
  - intros text out Hk Hf. subst r. by rewrite (translate_found env _ _ _ _ Hk), Hf.
  - intros Hmiss.
    assert (Hr : r = Mx.bind (Shell.log_error_to_db env ERROR missing)
                       (fun _ => Mx.ret key)
                       (Shell.add_event (Shell.ev_logging ERROR missing) s)).
    { subst r. destruct Hmiss as [Hk|(text & Hk & Hf)].
      - by rewrite (translate_missing env _ _ _ Hk).
      - by rewrite (translate_found env _ _ _ _ Hk), Hf. }
    destruct (log_error_to_db_ready env ERROR missing
                (Shell.add_event (Shell.ev_logging ERROR missing) s) Hsql)
      as (more & Hrun & _); [done|done|].
    rewrite Hr. unfold Mx.bind. rewrite Hrun. simpl.
    split; [done|]. split; [done|]. exists more.
    apply appended_events. simpl. by rewrite <- app_assoc.
Qed.

Lemma translate_outcomes_witness :
  Shell.translate Shell.env_plain "app_title" [] Shell.ready = (inr "Task Manager", Shell.ready).
Proof.
  refine (proj1 (translate_outcomes Shell.env_plain Shell.ready "app_title" [] _ eq_refl eq_refl)
            "Task Manager" "Task Manager" eq_refl eq_refl).
  split; discriminate.
Defined.

(** X22. [load_locale] installs the translations of the current language
    when its module can be imported.  When the module does not exist it
    installs the English ones, gives one warning on the log without
    touching the database, and leaves [current_locale] at the language that
    was asked for; when English is missing as well, that failure reaches the
    caller and the translations stay as they were. *)
Theorem load_locale_outcomes (env : Shell.Env) (s : Shell.State) :
  let module_name := ("locale_" ++ Shell.current_locale s)%string in
  let r := Shell.load_locale env s in
  (forall d, Shell.env_import_module env module_name = inr d ->
     r = (inr tt, Shell.set_locale d s)) /\
  (forall e, Shell.env_import_module env module_name = inl e ->
     Shell.is_ModuleNotFoundError e = true ->
     Shell.current_locale (Mx.state_after r) = Shell.current_locale s /\
     Shell.appended s r =
       [Shell.ev_logging WARNING
          (fmt "Translation for {self.current_locale} not found. Using English."
             [a_str (Shell.current_locale s)])] /\
     match Shell.env_import_module env "locale_en" with
     | inr english => fst r = inr tt /\ Shell.locale (Mx.state_after r) = english
     | inl e' => fst r = inl e' /\ Shell.locale (Mx.state_after r) = Shell.locale s
     end).
Proof.
  intros module_name r. subst r module_name. split.
  - intros d Himp. by rewrite load_locale_run, Himp.
  - intros e Himp He. rewrite load_locale_run, Himp, He.
    unfold Shell.import_locale, Mx.value, Mx.bind, Mx.modify, Mx.raise, Mx.ret.
    destruct (Shell.env_import_module env "locale_en") as [e'|english]; simpl.
    + split; [done|]. split; [by apply appended_events|done].
    + split; [done|]. split; [by apply appended_events|done].
Qed.

Lemma load_locale_outcomes_witness :
  Shell.load_locale Shell.env_plain Shell.ready =
  (inr tt, Shell.set_locale (Shell.texts "Task Manager") Shell.ready).
Proof.
  exact (proj1 (load_locale_outcomes Shell.env_plain Shell.ready)
           (Shell.texts "Task Manager") eq_refl).
Defined.

(** X23. Each press of the language button moves the index one step round
    the four languages and sets [current_locale] to the language at the new
    index, whatever happens while the translations are loaded; four presses
    come back to the same language.  As [__init__] sets the index to 0 and
    the language to that of the system, the first press after start-up
    selects Russian whatever language the application started in. *)
Theorem language_button_steps_through_the_languages (env : Shell.Env) (s : Shell.State)
    (n : nat) :
  let s' := Shell.presses env (S n) s in
  Shell.current_language_index s' = ((Shell.current_language_index s + S n) mod 4)%nat /\
  nth_error Shell.languages (Shell.current_language_index s') = Some (Shell.current_locale s') /\
  Shell.current_locale (Shell.presses env 4 s') = Shell.current_locale s' /\
  Shell.current_locale
    (Mx.state_after (Shell.cycle_language env (Mx.state_after (Shell.init_language env s)))) =
    "ru".
Proof.
  assert (Hstep : forall n,
            Shell.current_language_index (Shell.presses env (S n) s) =
              ((Shell.current_language_index s + S n) mod 4)%nat /\
            nth_error Shell.languages (Shell.current_language_index (Shell.presses env (S n) s)) =
              Some (Shell.current_locale (Shell.presses env (S n) s))).
  { intros m. induction m as [|m [IHi _]].
    - exact (cycle_language_language env s).
    - change (Shell.presses env (S (S m)) s)
        with (Mx.state_after (Shell.cycle_language env (Shell.presses env (S m) s))).
      destruct (cycle_language_language env (Shell.presses env (S m) s)) as [Hi Hc].
      split; [|exact Hc]. rewrite Hi, IHi. change (length Shell.languages) with 4%nat.
      rewrite Nat.Div0.add_mod_idemp_l. f_equal. lia. }
  intros s'. destruct (Hstep n) as [Hi Hc].
  split; [exact Hi|]. split; [exact Hc|]. split.
  - assert (Hfour : Shell.presses env 4 s' = Shell.presses env (S (n + 4)) s).
    { unfold s', Shell.presses. rewrite <- Nat.iter_add.
      replace (4 + S n)%nat with (S (n + 4)) by lia. reflexivity. }
    destruct (Hstep (n + 4)%nat) as [Hi4 Hc4]. rewrite <- Hfour in Hi4, Hc4.
    assert (Hsame : Shell.current_language_index (Shell.presses env 4 s') =
                    Shell.current_language_index s').
    { rewrite Hi4. unfold s'. rewrite Hi.
      replace (Shell.current_language_index s + S (n + 4))%nat
        with (Shell.current_language_index s + S n + 1 * 4)%nat by lia.
      apply Nat.Div0.mod_add. }
    rewrite Hsame in Hc4. fold s' in Hc. rewrite Hc in Hc4.
    apply (inj Some) in Hc4. exact (eq_sym Hc4).
  - destruct (cycle_language_language env (Mx.state_after (Shell.init_language env s)))
      as [Hi1 Hc1].
    assert (H0 : Shell.current_language_index (Mx.state_after (Shell.init_language env s)) = 0%nat).
    { rewrite init_language_run.
      exact (proj1 (keeps_language_load_locale env
                      (Shell.set_language 0 (Shell._get_system_locale env) s))). }
    rewrite H0 in Hi1. rewrite Hi1 in Hc1.
    change (nth_error Shell.languages ((0 + 1) mod length Shell.languages)) with (Some "ru") in Hc1.
    apply (inj Some) in Hc1. exact (eq_sym Hc1).
Qed.

(** X24. When the next language is installed, one press of the language
    button switches everything together: the translations become those of
    the next language, a redraw of the widgets is scheduled, the window
    title is the new translation of [app_title] and the button shows the new
    code in capitals; the database is left alone. *)
Theorem cycle_language_switches_the_texts (env : Shell.Env) (s : Shell.State)
    (code : string) (d : gmap string string) (text title : string) :
  nth_error Shell.languages ((Shell.current_language_index s + 1) mod 4) = Some code ->
  Shell.env_import_module env ("locale_" ++ code) = inr d ->
  d !! "app_title" = Some text ->
  Shell.env_format env text [] = inr title ->
  Shell.cycle_language env s =
    (inr tt,
     {| Shell.current_language_index := (Shell.current_language_index s + 1) mod 4;
        Shell.current_locale := code;
        Shell.locale := d;
        Shell.conn := Shell.conn s;
        Shell.cursor := Shell.cursor s;
        Shell.events := Shell.events s ++
          [Shell.ev_after_update_widgets_text; Shell.ev_title title;
           Shell.ev_language_button (Shell.upper code)] |}).
Proof.
  intros Hnth Himp Hkey Hfmt.
  unfold Shell.cycle_language.
  unfold Mx.bind at 1 2 3, Mx.gets at 1, Mx.modify at 1.
  cbv beta iota zeta. change (length Shell.languages) with 4%nat.
  unfold Shell.language_at. rewrite Hnth.
  unfold Mx.ret at 1. cbv beta iota.
  unfold Mx.bind at 1, Mx.modify at 1. cbv beta iota.
  unfold Mx.bind at 1. rewrite load_locale_run.
  change (Shell.current_locale (Shell.set_current_locale code _)) with code.
  rewrite Himp.
  unfold Mx.bind at 1, Shell.emit at 1, Mx.modify at 1. cbv beta iota.
  unfold Mx.bind at 1.
  rewrite (translate_found env "app_title" [] text); [|exact Hkey].
  rewrite Hfmt.
  unfold Mx.bind, Shell.emit, Mx.modify, Mx.gets, Shell.add_event. cbn -[Nat.modulo].
  rewrite <- !app_assoc. reflexivity.
Qed.

Lemma cycle_language_switches_the_texts_witness :
  Shell.locale (Mx.state_after (Shell.cycle_language Shell.env_plain Shell.ready)) =
  Shell.texts "Dispetcher zadach".
Proof.
  rewrite (cycle_language_switches_the_texts Shell.env_plain Shell.ready "ru"
             (Shell.texts "Dispetcher zadach") "Dispetcher zadach" "Dispetcher zadach"
             eq_refl eq_refl eq_refl eq_refl).
  reflexivity.
Defined.

(** X25. [__del__] closes the connection exactly when one was opened, and
    does nothing else when that succeeds.  A failure to close is reported on
    the log and to the database, and [__del__] still returns as long as the
    database raises nothing but [sqlite3.Error]. *)
Theorem del_closes_an_open_connection (env : Shell.Env) (s : Shell.State) :
  let r := Shell.__del__ env s in
  (Shell.conn s = false -> r = (inr tt, s)) /\
  (Shell.conn s = true -> Shell.env_close env = None ->
     r = (inr tt, Shell.add_event Shell.ev_close s)) /\
  (forall e, Shell.conn s = true -> Shell.cursor s = true ->
     Shell.sqlite_errors_only env -> Shell.env_close env = Some e ->
     let failure := fmt "Error closing database connection: {e}" [a_exn e] in
     Mx.returned r = true /\
     exists more,
       Shell.appended s r =
         Shell.ev_close :: Shell.ev_logging ERROR failure ::
         Shell.ev_execute (Shell.sql_insert ERROR failure) :: more).
Proof.
  intros r. subst r. split; [|split].
  - intros Hn. unfold Shell.__del__, Mx.try_except, Mx.bind, Mx.gets. simpl.
    by rewrite Hn.
  - intros Hn Hclose.
    unfold Shell.__del__, Shell.emit, Mx.call, Mx.try_except, Mx.bind, Mx.gets, Mx.modify.
    simpl. by rewrite Hn, Hclose.
  - intros e Hn Hc Hsql Hclose failure.
    assert (Hr : Shell.__del__ env s =
              Shell.log_error_to_db env ERROR failure
                (Shell.add_event (Shell.ev_logging ERROR failure)
                   (Shell.add_event Shell.ev_close s))).
    { unfold Shell.__del__, Shell.emit, Mx.call, Mx.try_except, Mx.bind at 1 2 3, Mx.gets,
        Mx.modify, Mx.raise.
      simpl. rewrite Hn, Hclose. reflexivity. }
    destruct (log_error_to_db_ready env ERROR failure
                (Shell.add_event (Shell.ev_logging ERROR failure)
                   (Shell.add_event Shell.ev_close s)) Hsql)
      as (more & Hrun & _); [done|done|].
    rewrite Hr, Hrun. split; [done|]. exists more.
    apply appended_events. simpl. by rewrite <- !app_assoc.
Qed.

Lemma del_closes_an_open_connection_witness :
  Shell.__del__ Shell.env_plain Shell.ready =
  (inr tt, Shell.add_event Shell.ev_close Shell.ready).
Proof.
  exact (proj1 (proj2 (del_closes_an_open_connection Shell.env_plain Shell.ready))
           eq_refl eq_refl).
Defined.

(** X26. Start-up language: the language code is never longer than two
    characters and is [en] when the system language cannot be determined.
    When the English translations are installed and the import of the
    system language fails at most with [ModuleNotFoundError], the language
    set-up of [__init__] returns with the index at 0 and [current_locale] at
    the system code; the translations are those of the system language if
    they are installed and the English ones otherwise, and nothing but a
    warning on the log is produced, so the missing database does no harm. *)
Theorem startup_language (env : Shell.Env) (s : Shell.State) (english : gmap string string) :
  Shell.env_import_module env "locale_en" = inr english ->
  (forall e, Shell.env_import_module env ("locale_" ++ Shell._get_system_locale env) = inl e ->
             Shell.is_ModuleNotFoundError e = true) ->
  let r := Shell.init_language env s in
  let s' := Mx.state_after r in
  Mx.returned r = true /\
  Shell.current_language_index s' = 0%nat /\
  Shell.current_locale s' = Shell._get_system_locale env /\
  (String.length (Shell.current_locale s') <= 2)%nat /\
  (match Shell.env_getdefaultlocale env with
   | inr (Some code) => Shell.current_locale s' = Shell.first_two code
   | _ => Shell.current_locale s' = "en"
   end) /\
  (match Shell.env_import_module env ("locale_" ++ Shell._get_system_locale env) with
   | inr d => Shell.locale s' = d /\ Shell.appended s r = []
   | inl _ => Shell.locale s' = english /\
              exists m, Shell.appended s r = [Shell.ev_logging WARNING m]
   end).
Proof.
  intros Hen Hsoft r s'. subst s' r. rewrite init_language_run, load_locale_run.
  change (Shell.current_locale (Shell.set_language 0 _ s)) with (Shell._get_system_locale env).
  assert (Hcode : match Shell.env_getdefaultlocale env with
                  | inr (Some code) => Shell._get_system_locale env = Shell.first_two code
                  | _ => Shell._get_system_locale env = "en"
                  end).
  { unfold Shell._get_system_locale.
    by destruct (Shell.env_getdefaultlocale env) as [e|[code|]]. }
  pose proof (system_locale_length env) as Hlen.
  destruct (Shell.env_import_module env ("locale_" ++ Shell._get_system_locale env))
    as [e|d] eqn:Himp.
  - rewrite (Hsoft e eq_refl).
    unfold Shell.import_locale, Mx.value, Mx.bind, Mx.modify, Mx.ret. rewrite Hen. simpl.
    repeat split; try done. eexists. by apply appended_events.
  - simpl. repeat split; try done. apply appended_events. simpl. by rewrite app_nil_r.
Qed.

Lemma startup_language_witness :
  Shell.current_locale (Mx.state_after (Shell.init_language Shell.env_german Shell.blank)) =
  Shell._get_system_locale Shell.env_german.
Proof.
  refine (proj1 (proj2 (proj2
            (startup_language Shell.env_german Shell.blank (Shell.texts "Task Manager")
               eq_refl _)))).
  intros e He. vm_compute in He. injection He as <-. reflexivity.
Defined.

(** * The context menu *)

Section MenuFacts.

Import Mx.

Variable os : OS.
Variable process_status : nat -> Handle -> Exn + string.

(** The handler of [show_context_menu], with the database in place. *)
Lemma menu_handler_run e (d : Menu.Desk) db :
  database (Menu.app d) = Some db -> sqlite_errors_only db ->
  match (match e with
         | IndexError => Some (ret tt)
         | _ => Some (Menu.lift (error (fmt "Error showing context menu: {e}" [a_exn e])))
         end : option (M Menu.Desk unit)) with
  | Some h => h d
  | None => (inl e, d)
  end =
  (inr tt,
   Menu.set_app
     match e with
     | IndexError => Menu.app d
     | _ => add_events
              (logged db (length (trace (Menu.app d))) ERROR
                 (fmt "Error showing context menu: {e}" [a_exn e])) (Menu.app d)
     end d).
Proof.
  intros Hdb Hsql.
  destruct e; try (by destruct d);
    unfold Menu.lift; by rewrite (error_run _ _ db Hdb Hsql).
Qed.

Lemma show_context_menu_row event d i v db :
  database (Menu.app d) = Some db -> sqlite_errors_only db ->
  Menu.identify_row event = Some i ->
  tv_item_values i (tree (Menu.app d)) = Some v ->
  Menu.show_context_menu process_status event d =
    match dict_get (v_pid v) (process_data (Menu.app d)) with
    | None =>
        (inr tt, Menu.menu_shown event i
                   [Menu.cmd_kill_selected_process; Menu.cmd_open_file_location] d)
    | Some info =>
        match process_status 0%nat (process_obj info) with
        | inl e => (inr tt, Menu.menu_failed db i e d)
        | inr first =>
            if String.eqb first "running" then
              (inr tt, Menu.menu_shown event i (Menu.status_commands first "") d)
            else
              match process_status 1%nat (process_obj info) with
              | inl e => (inr tt, Menu.menu_failed db i e d)
              | inr second =>
                  (inr tt, Menu.menu_shown event i (Menu.status_commands first second) d)
              end
        end
    end.
Proof.
  intros Hdb Hsql Hrow Hv.
  set (d1 := {| Menu.app := Menu.select_row i (Menu.app d);
                Menu.context_menu := [Menu.entry Menu.cmd_kill_selected_process];
                Menu.posts := Menu.posts d |}).
  assert (Hdb1 : database (Menu.app d1) = Some db) by exact Hdb.
  assert (Hfailed : forall e,
            match (match e with
                   | IndexError => Some (ret tt)
                   | _ => Some (Menu.lift
                                  (error (fmt "Error showing context menu: {e}" [a_exn e])))
                   end : option (M Menu.Desk unit)) with
            | Some h => h d1
            | None => (inl e, d1)
            end = (inr tt, Menu.menu_failed db i e d)).
  { intros e. rewrite (menu_handler_run e d1 db Hdb1 Hsql). by destruct e. }
  unfold Menu.show_context_menu, Menu.add_command, Menu.lift, Menu.selection_set.
  rewrite Hrow.
  unfold selected_pid, cached_handle.
  unfold try_except, bind, gets, modify, raise, ret, value,
         Py.bind, Py.gets, Py.modify, Py.raise, Py.ret.
  unfold tv_item_values in *. cbn -[first_some dict_mem dict_get String.eqb error].
  rewrite Hv. cbn -[first_some dict_mem dict_get String.eqb error].
  rewrite Hv. cbn -[first_some dict_mem dict_get String.eqb error].
  destruct (dict_get (v_pid v) (process_data (Menu.app d))) as [info|] eqn:Hget.
  - assert (Hmem : dict_mem (v_pid v) (process_data (Menu.app d)) = true)
      by (apply dict_mem_get; eauto).
    rewrite Hmem. cbn -[first_some dict_mem dict_get String.eqb error].
    rewrite !Hget. cbn -[first_some dict_mem dict_get String.eqb error].
    destruct (process_status 0%nat (process_obj info)) as [e|first];
      cbn -[first_some dict_mem dict_get String.eqb error].
    + exact (Hfailed e).
    + unfold Menu.status_commands.
      destruct (String.eqb first "running");
        cbn -[first_some dict_mem dict_get String.eqb error]; [reflexivity|].
      destruct (process_status 1%nat (process_obj info)) as [e|second];
        cbn -[first_some dict_mem dict_get String.eqb error].
      * exact (Hfailed e).
      * destruct (String.eqb second "stopped"); reflexivity.
  - assert (Hmem : dict_mem (v_pid v) (process_data (Menu.app d)) = false)
      by (by apply dict_mem_false_get).
    rewrite Hmem. reflexivity.
Qed.

Lemma show_context_menu_outside event d :
  Menu.identify_row event = None ->
  Menu.show_context_menu process_status event d =
    (inr tt,
     Menu.set_app (set_tree {| tv_items := tv_items (tree (Menu.app d));
                               tv_next := tv_next (tree (Menu.app d));
                               tv_selection := [] |} (Menu.app d)) d).
Proof.
  intros Hrow.
  unfold Menu.show_context_menu, Menu.lift, Menu.selection_set. rewrite Hrow.
  unfold selected_pid.
  unfold try_except, bind, Py.bind, Py.gets, Py.modify, Py.raise. simpl.
  reflexivity.
Qed.

(** What a right-click on a row leaves of the process view. *)
Lemma show_context_menu_view event d i v db :
  database (Menu.app d) = Some db -> sqlite_errors_only db ->
  Menu.identify_row event = Some i ->
  tv_item_values i (tree (Menu.app d)) = Some v ->
  let d' := state_after (Menu.show_context_menu process_status event d) in
  returned (Menu.show_context_menu process_status event d) = true /\
  process_data (Menu.app d') = process_data (Menu.app d) /\
  tv_items (tree (Menu.app d')) = tv_items (tree (Menu.app d)) /\
  tv_selection (tree (Menu.app d')) = [i] /\
  database (Menu.app d') = Some db.
Proof.
  intros Hdb Hsql Hrow Hv. rewrite (show_context_menu_row event d i v db Hdb Hsql Hrow Hv).
  destruct (dict_get _ _) as [info|]; [|done].
  destruct (process_status 0%nat _) as [e|first]; [by destruct e|].
  destruct (String.eqb first "running"); [done|].
  destruct (process_status 1%nat _) as [e|second]; [by destruct e|done].
Qed.

End MenuFacts.

(** A command is, or is not, among the entries of a menu given in full. *)
Ltac offered :=
  unfold Menu.commands; simpl; rewrite !elem_of_cons; auto.

Ltac not_offered :=
  let H := fresh "H" in
  unfold Menu.commands; simpl; rewrite !elem_of_cons, elem_of_nil;
  intros H; repeat (destruct H as [H|H]; try discriminate); done.

(** X27. With the diagnostics database in place, a right-click on a row
    selects that row and rebuilds the menu from the status the process
    reports at that moment: Suspend is offered exactly for a process of the
    table that reports [running], Resume exactly for one that reports
    something else first and [stopped] when asked again, so never both.
    Either the menu is posted at the pointer, with Kill first and Open file
    location last, or a status query has raised and the menu is left with
    Kill alone and is not posted.  The table and the rows are left as they
    were. *)
Theorem context_menu_follows_the_status (process_status : nat -> Handle -> Exn + string)
    (event : Menu.Click) (d : Menu.Desk) (i : ItemId) (v : Values) (db : Database) :
  database (Menu.app d) = Some db -> sqlite_errors_only db ->
  Menu.identify_row event = Some i ->
  tv_item_values i (tree (Menu.app d)) = Some v ->
  let r := Menu.show_context_menu process_status event d in
  let d' := Mx.state_after r in
  let cached := dict_get (v_pid v) (process_data (Menu.app d)) in
  Mx.returned r = true /\
  tv_selection (tree (Menu.app d')) = [i] /\
  process_data (Menu.app d') = process_data (Menu.app d) /\
  tv_items (tree (Menu.app d')) = tv_items (tree (Menu.app d)) /\
  (Menu.cmd_suspend_selected_process ∈ Menu.commands d' <->
     exists info, cached = Some info /\
       process_status 0%nat (process_obj info) = inr "running") /\
  (Menu.cmd_resume_selected_process ∈ Menu.commands d' <->
     exists info first, cached = Some info /\
       process_status 0%nat (process_obj info) = inr first /\ first <> "running" /\
       process_status 1%nat (process_obj info) = inr "stopped") /\
  ((Menu.posts d' = Menu.posts d ++ [(Menu.x_root event, Menu.y_root event)] /\
    head (Menu.commands d') = Some Menu.cmd_kill_selected_process /\
    last (Menu.commands d') = Some Menu.cmd_open_file_location /\
    trace (Menu.app d') = trace (Menu.app d)) \/
   (Menu.posts d' = Menu.posts d /\
    Menu.commands d' = [Menu.cmd_kill_selected_process] /\
    exists info n e, cached = Some info /\ process_status n (process_obj info) = inl e)).
Proof.
  intros Hdb Hsql Hrow Hv r d' cached.
  destruct (show_context_menu_view process_status event d i v db Hdb Hsql Hrow Hv)
    as (Hret & Hdata & Hitems & Hsel & _).
  split; [exact Hret|]. split; [exact Hsel|]. split; [exact Hdata|]. split; [exact Hitems|].
  subst d' r. rewrite (show_context_menu_row process_status event d i v db Hdb Hsql Hrow Hv).
  subst cached.
  destruct (dict_get (v_pid v) (process_data (Menu.app d))) as [info|].
  - destruct (process_status 0%nat (process_obj info)) as [e|first] eqn:H0.
    + split; [|split].
      * split; [not_offered | by intros (? & [= <-] & ?); congruence].
      * split; [not_offered | by intros (? & ? & [= <-] & ? & _); congruence].
      * right. split; [done|]. split; [done|]. by exists info, 0%nat, e.
    + destruct (String.eqb first "running") eqn:Hrun.
      * apply String.eqb_eq in Hrun. subst first.
        split; [|split].
        -- split; [by intros _; exists info | intros _; offered].
        -- split; [not_offered | by intros (? & ? & [= <-] & ? & ? & _); congruence].
        -- left. done.
      * apply String.eqb_neq in Hrun.
        destruct (process_status 1%nat (process_obj info)) as [e|second] eqn:H1.
        -- split; [|split].
           ++ split; [not_offered | by intros (? & [= <-] & ?); congruence].
           ++ split; [not_offered | by intros (? & ? & [= <-] & ? & ? & ?); congruence].
           ++ right. split; [by destruct e|]. split; [by destruct e|].
              by exists info, 1%nat, e.
        -- unfold Menu.status_commands.
           destruct (String.eqb first "running") eqn:Hrun'; [by apply String.eqb_eq in Hrun'|].
           destruct (String.eqb second "stopped") eqn:Hstop.
           ++ apply String.eqb_eq in Hstop. subst second. split; [|split].
              ** split; [not_offered | by intros (? & [= <-] & ?); congruence].
              ** split; [by intros _; exists info, first | intros _; offered].
              ** left. done.
           ++ apply String.eqb_neq in Hstop. split; [|split].
              ** split; [not_offered | by intros (? & [= <-] & ?); congruence].
              ** split; [not_offered | by intros (? & ? & [= <-] & ? & ? & ?); congruence].
              ** left. done.
  - split; [|split].
    + split; [not_offered | by intros (? & ? & _)].
    + split; [not_offered | by intros (? & ? & ? & _)].
    + left. done.
Qed.

Lemma context_menu_follows_the_status_witness :
  database (Menu.app (Menu.desk_of app_selected)) = Some db_quiet /\
  sqlite_errors_only db_quiet /\
  Menu.identify_row (Menu.click_on 0%nat) = Some 0%nat /\
  tv_item_values 0%nat (tree (Menu.app (Menu.desk_of app_selected))) =
    Some (values_of 7 (snd (proc 7 "editor" 0))) /\
  Menu.cmd_suspend_selected_process ∈
    Menu.commands (Mx.state_after
      (Menu.show_context_menu Menu.all_running (Menu.click_on 0%nat) (Menu.desk_of app_selected))).
Proof.
  split; [reflexivity|]. split; [exact db_quiet_sqlite|].
  split; [reflexivity|]. split; [reflexivity|].
  apply (proj1 (proj2 (proj2 (proj2 (proj2
           (context_menu_follows_the_status Menu.all_running (Menu.click_on 0%nat)
              (Menu.desk_of app_selected) 0%nat (values_of 7 (snd (proc 7 "editor" 0)))
              db_quiet eq_refl db_quiet_sqlite eq_refl eq_refl)))))).
  exists (snd (proc 7 "editor" 0)). split; reflexivity.
Defined.

(** X28. A right-click outside the rows clears the selection and does
    nothing else: the menu keeps the entries it had, it is not posted,
    nothing is logged, and the rows and the table stay as they were.  With
    the database in place, a control action invoked next only reports that
    no process is selected. *)
Theorem click_outside_the_rows_clears_the_selection
    (process_status : nat -> Handle -> Exn + string) (event : Menu.Click) (d : Menu.Desk) :
  Menu.identify_row event = None ->
  let r := Menu.show_context_menu process_status event d in
  let d' := Mx.state_after r in
  Mx.returned r = true /\
  tv_selection (tree (Menu.app d')) = [] /\
  Menu.context_menu d' = Menu.context_menu d /\
  Menu.posts d' = Menu.posts d /\
  trace (Menu.app d') = trace (Menu.app d) /\
  tv_rows (tree (Menu.app d')) = tv_rows (tree (Menu.app d)) /\
  process_data (Menu.app d') = process_data (Menu.app d) /\
  forall os a db,
    database (Menu.app d) = Some db -> sqlite_errors_only db ->
    run_action os a (Menu.app d') = no_selection_result db (Menu.app d').
Proof.
  intros Hrow r d'. subst d' r. rewrite (show_context_menu_outside process_status event d Hrow).
  repeat split; try done.
  intros os a db Hdb Hsql.
  match goal with
  | |- run_action _ _ ?s' = _ =>
      assert (Hdb' : database s' = Some db) by exact Hdb;
      unfold no_selection_result;
      rewrite <- (warn_run (translate "no_process_selected" []) s' db Hdb' Hsql)
  end.
  destruct a; by apply control_no_selection.
Qed.

Lemma click_outside_the_rows_clears_the_selection_witness :
  Menu.identify_row Menu.click_outside = None /\
  tv_selection (tree (Menu.app (Mx.state_after
    (Menu.show_context_menu Menu.all_running Menu.click_outside (Menu.desk_of app_selected))))) =
  [].
Proof.
  split; [reflexivity|].
  exact (proj1 (proj2
           (click_outside_the_rows_clears_the_selection Menu.all_running Menu.click_outside
              (Menu.desk_of app_selected) eq_refl))).
Defined.

Lemma process_events_reported db t d : process_events (reported db t d) = [].
Proof. apply quiet_process_events, quiet_logged. Qed.

Lemma process_events_cons_process op h evs :
  process_events (ev_process op h :: evs) = (op, h) :: process_events evs.
Proof. reflexivity. Qed.

Lemma process_events_cons_folder dir evs :
  process_events (ev_open_folder dir :: evs) = process_events evs.
Proof. reflexivity. Qed.

(** X29. The commands of the menu act on the row that was clicked: with the
    diagnostics database in place, after a right-click on a row whose
    process is in the table, choosing any command returns and sends exactly
    one operation, the command's own, to the handle cached for that process;
    the menu itself is not changed by the command. *)
Theorem menu_command_acts_on_the_clicked_row (os : OS)
    (process_status : nat -> Handle -> Exn + string) (event : Menu.Click) (d : Menu.Desk)
    (i : ItemId) (v : Values) (info : ProcessInfo) (c : Menu.Command) (db : Database) :
  database (Menu.app d) = Some db -> sqlite_errors_only db ->
  NoDup (keys (process_data (Menu.app d))) ->
  Menu.identify_row event = Some i ->
  tv_item_values i (tree (Menu.app d)) = Some v ->
  dict_get (v_pid v) (process_data (Menu.app d)) = Some info ->
  let d1 := Mx.state_after (Menu.show_context_menu process_status event d) in
  let r := Menu.invoke os c d1 in
  Mx.returned r = true /\
  process_events (drop (length (trace (Menu.app d1))) (trace (Menu.app (Mx.state_after r)))) =
    [(Menu.command_op c, process_obj info)] /\
  Menu.context_menu (Mx.state_after r) = Menu.context_menu d1 /\
  Menu.posts (Mx.state_after r) = Menu.posts d1.
Proof.
  intros Hdb Hsql Hnd Hrow Hv Hget d1 r.
  destruct (show_context_menu_view process_status event d i v db Hdb Hsql Hrow Hv)
    as (_ & Hdata & Hitems & Hsel & Hdb1).
  fold d1 in Hdata, Hitems, Hsel, Hdb1.
  assert (Hselects : selects (Menu.app d1) (v_pid v)).
  { exists i, [], v. split; [exact Hsel|]. split; [|reflexivity].
    unfold tv_item_values in *. by rewrite Hitems. }
  assert (Hnd1 : NoDup (keys (process_data (Menu.app d1)))) by (by rewrite Hdata).
  assert (Hget1 : dict_get (v_pid v) (process_data (Menu.app d1)) = Some info)
    by (by rewrite Hdata).
  assert (Hcontrol : forall op done failed,
            returned (control_selected_process os op done failed (Menu.app d1)) = true /\
            process_events (appended (Menu.app d1)
                              (control_selected_process os op done failed (Menu.app d1))) =
              [(op, process_obj info)]).
  { intros op done failed.
    split; [by apply (control_returns os op done failed _ (v_pid v) db)|].
    destruct (control_appended os op done failed (Menu.app d1) (v_pid v) info
                Hselects Hget1) as (evs & Hq & ->).
    simpl. by rewrite (quiet_process_events _ Hq). }
  subst r. clearbody d1.
  destruct c; unfold Menu.invoke, Menu.lift, Mx.returned, Mx.state_after; simpl.
  - destruct (Hcontrol op_kill "Process with PID {pid} killed." "error_killing_process")
      as [Hret Hev].
    split; [exact Hret|]. split; [exact Hev|done].
  - destruct (Hcontrol op_suspend "Process with PID {pid} suspended." "error_suspending_process")
      as [Hret Hev].
    split; [exact Hret|]. split; [exact Hev|done].
  - destruct (Hcontrol op_resume "Process with PID {pid} resumed." "error_resuming_process")
      as [Hret Hev].
    split; [exact Hret|]. split; [exact Hev|done].
  - pose proof (open_file_location_run os (Menu.app d1) (v_pid v) info db
                  Hselects Hget1 Hdb1 Hsql) as Hrun.
    cbv zeta in Hrun.
    split; [by rewrite Hrun|]. split; [|done].
    change (process_events (appended (Menu.app d1) (open_file_location os (Menu.app d1))) =
            [(op_exe, process_obj info)]).
    rewrite Hrun, appended_add_events, process_events_cons_process. f_equal.
    destruct (os_exe os (process_obj info)) as [e|exe_path];
      [apply process_events_reported|].
    destruct (platform_supported os); [|apply quiet_process_events, quiet_logged].
    rewrite process_events_cons_folder.
    destruct (os_open os _) as [e|]; [apply process_events_reported | reflexivity].
Qed.

Lemma menu_command_acts_on_the_clicked_row_witness :
  database (Menu.app (Menu.desk_of app_selected)) = Some db_quiet /\
  sqlite_errors_only db_quiet /\
  NoDup (keys (process_data (Menu.app (Menu.desk_of app_selected)))) /\
  Mx.returned
    (Menu.invoke os_quiet Menu.cmd_kill_selected_process
       (Mx.state_after
          (Menu.show_context_menu Menu.all_running (Menu.click_on 0%nat)
             (Menu.desk_of app_selected)))) = true.
Proof.
  assert (Hnd : NoDup (keys (process_data (Menu.app (Menu.desk_of app_selected)))))
    by (by apply NoDup_keys_decide).
  split; [reflexivity|]. split; [exact db_quiet_sqlite|]. split; [exact Hnd|].
  exact (proj1 (menu_command_acts_on_the_clicked_row os_quiet Menu.all_running
                  (Menu.click_on 0%nat) (Menu.desk_of app_selected) 0%nat
                  (values_of 7 (snd (proc 7 "editor" 0))) (snd (proc 7 "editor" 0))
                  Menu.cmd_kill_selected_process db_quiet eq_refl db_quiet_sqlite
                  Hnd eq_refl eq_refl eq_refl)).
Defined.
